(** * noVNC mouse input (core/input/mouse.js)

    A shallow embedding of the [Mouse] object of core/input/mouse.js and
    the properties of its button encoding, position clipping, touch
    double-tap merging and wheel step accumulation.

    Numbers.  Client coordinates, the target's bounds, positions and
    the device pixel ratio are IEEE 754 doubles ([float]), with the
    operators of the source ([-], [*], [+], [<], [>=], [Math.sqrt]) as
    the primitive operations on doubles.  Button fields and masks are
    integers ([Z]), the 32-bit operators [<<] and [&] written out with
    their conversions.  Wheel deltas and their accumulators are doubles
    too; where a property is about sums of integer-valued deltas, the
    deltas are the doubles of integers, on which [+=], [*=], [Math.abs]
    and the comparisons are shown to be exact.

    Effects.  The methods run in a small state-and-exception monad [Js]
    over a [World]: the fields of the [Mouse] object, the host window
    (clock, armed timers, geometry) and the chronological list of
    observable effects (callback invocations, capture, stopEvent, ...). *)

From Stdlib Require Import ZArith List String Bool Lia Floats.
From Stdlib Require Uint63.
Import ListNotations.
Open Scope string_scope.
Open Scope list_scope.
Open Scope Z_scope.

(* ================================================================== *)
(** ** JavaScript 32-bit integer operators *)

Module JS.

(** ECMAScript ToInt32 and ToUint32 on an integral number. *)
Definition ToInt32 (z : Z) : Z := (z + 2 ^ 31) mod 2 ^ 32 - 2 ^ 31.
Definition ToUint32 (z : Z) : Z := z mod 2 ^ 32.

(** [a << n]: both operands converted, the shift count taken modulo 32,
    the result wrapped to a signed 32-bit integer. *)
Definition shl (a n : Z) : Z :=
  ToInt32 (Z.shiftl (ToInt32 a) (Z.land (ToUint32 n) 31)).

(** [a & b]. *)
Definition and (a b : Z) : Z :=
  ToInt32 (Z.land (ToInt32 a) (ToInt32 b)).

(** Truthiness of a field that is either undefined or a number. *)
Definition truthy_num (v : option Z) : bool :=
  match v with
  | Some z => negb (z =? 0)
  | None => false
  end.

(** Truthiness of a field that is either undefined or an object. *)
Definition truthy_obj {A : Type} (v : option A) : bool :=
  match v with
  | Some _ => true
  | None => false
  end.

(** Truthiness of a number: false for [0], [-0] and [NaN]. *)
Definition truthy_float (f : float) : bool :=
  negb ((f =? 0)%float || PrimFloat.is_nan f).

(** [v || d] for a field that is either undefined or a number. *)
Definition or_else (v : option float) (d : float) : float :=
  match v with
  | Some f => if truthy_float f then f else d
  | None => d
  end.

(** [a >= b] and [a > b] on numbers. *)
Definition ge (a b : float) : bool := (b <=? a)%float.
Definition gt (a b : float) : bool := (b <? a)%float.

(** The double of an integer. *)
Definition number (z : Z) : float :=
  if z <? 0 then (- PrimFloat.of_uint63 (Uint63.of_Z (- z)))%float
  else PrimFloat.of_uint63 (Uint63.of_Z z).

(** [Number.isSafeInteger]: the integers that doubles represent without
    gaps. *)
Definition safe (z : Z) : Prop := - 2 ^ 53 < z < 2 ^ 53.

End JS.

(* ================================================================== *)
(** ** Integers as doubles *)

(** [m * 2 ^ n] on a mantissa. *)
Definition shl_pos (m : positive) (n : Z) : positive :=
  match n with
  | Zpos d => Pos.iter xO m d
  | _ => m
  end.

(** The binary64 number of sign [s] and magnitude [m < 2 ^ 53]: the
    mantissa normalised to 53 bits. *)
Definition canonical (s : bool) (m : positive) : spec_float :=
  S754_finite s (shl_pos m (53 - Zpos (digits2_pos m)))
              (Zpos (digits2_pos m) - 53).

(** The binary64 number of a safe integer. *)
Definition Z2SF (z : Z) : spec_float :=
  match z with
  | Z0 => S754_zero false
  | Zpos p => canonical false p
  | Zneg p => canonical true p
  end.

(* ================================================================== *)
(** ** Data *)

(** The module constants. *)
Definition WHEEL_STEP : float := 10.
Definition WHEEL_STEP_TIMEOUT : Z := 50.
Definition WHEEL_LINE_HEIGHT : float := 19.

(** [{x: x, y: y}] as returned by [_getMousePosition]. *)
Record Pos := mkPos { x : float; y : float }.

(** What an event can be dispatched on. *)
Inductive EventTarget :=
| document
| element (id : Z).

Definition EventTarget_eqb (a b : EventTarget) : bool :=
  match a, b with
  | document, document => true
  | element i, element j => i =? j
  | _, _ => false
  end.

(** A touch point of a touch list. *)
Record Touch := mkTouch { touch_clientX : float; touch_clientY : float }.

(** The fields of a raw host event that the handlers read.  A field
    that may be missing on the event object is an [option]. *)
Record Event := mkEvent {
  type : string;
  target : EventTarget;
  touches : option (list Touch);
  changedTouches : option (list Touch);
  which : option Z;
  button : Z;
  clientX : float;
  clientY : float;
  deltaX : float;
  deltaY : float;
  deltaMode : Z
}.

(** The fields of a DOMRect (host geometry) that the handlers read. *)
Record DOMRect := mkRect {
  left : float;
  top : float;
  right : float;
  bottom : float;
  width : float;
  height : float
}.

(** The value of a field holding a timer: never assigned, [null], or the
    identifier returned by [setTimeout]. *)
Inductive Handle :=
| undefined
| null
| timerId (id : Z).

(** The three functions this file hands to [setTimeout]. *)
Inductive TimerCallback :=
| ResetDoubleClickTimer
| GenerateWheelStepX
| GenerateWheelStepY.

Record Timer := mkTimer {
  timer_id : Z;
  timer_due : Z;
  timer_callback : TimerCallback
}.

(** The keys of [_eventHandlers]. *)
Inductive HandlerName :=
| mousedown
| mouseup
| mousemove
| mousewheel
| mousedisable.

Inductive JsError :=
| TypeError (msg : string).

(** Observable effects, outside the object's own fields and the timers. *)
Inductive Effect :=
| OnMouseButton (px py : float) (down bmask : Z)
| OnMouseMove (px py : float)
| LogDebug (down : Z) (px py : float) (bmask : Z)
| SetCapture (t : EventTarget)
| StopEvent (e : Event)
| AddEventListener (t : EventTarget) (ty : string) (h : HandlerName)
| RemoveEventListener (t : EventTarget) (ty : string) (h : HandlerName)
| Uncaught (err : JsError).

(** The fields of a [Mouse] object.  [_onMouseButton] and [_onMouseMove]
    record whether a function is registered. *)
Record Mouse := mkMouse {
  _doubleClickTimer : Handle;
  _lastTouchPos : option Pos;
  _wheelPos : option Pos;
  _wheelStepTimer : Handle;
  _wheelStepXTimer : Handle;
  _wheelStepYTimer : Handle;
  _accumulatedWheelDeltaX : float;
  _accumulatedWheelDeltaY : float;
  _target : EventTarget;
  _focused : bool;
  _touchButton : Z;
  _onMouseButton : bool;
  _onMouseMove : bool
}.

(** The host: clock (ms), timers armed and not yet fired or cleared (in
    creation order), and the environment values the handlers query. *)
Record Window := mkWindow {
  now : Z;
  next_timer_id : Z;
  pending : list Timer;
  devicePixelRatio : option float;
  isTouchDevice : bool;
  boundingClientRect : DOMRect
}.

Record World := mkWorld {
  this : Mouse;
  window : Window;
  trace : list Effect
}.

(** *** Field updates *)

Definition with_doubleClickTimer (h : Handle) (m : Mouse) : Mouse :=
  mkMouse h (_lastTouchPos m) (_wheelPos m) (_wheelStepTimer m)
    (_wheelStepXTimer m) (_wheelStepYTimer m)
    (_accumulatedWheelDeltaX m) (_accumulatedWheelDeltaY m)
    (_target m) (_focused m) (_touchButton m)
    (_onMouseButton m) (_onMouseMove m).

Definition with_lastTouchPos (p : option Pos) (m : Mouse) : Mouse :=
  mkMouse (_doubleClickTimer m) p (_wheelPos m) (_wheelStepTimer m)
    (_wheelStepXTimer m) (_wheelStepYTimer m)
    (_accumulatedWheelDeltaX m) (_accumulatedWheelDeltaY m)
    (_target m) (_focused m) (_touchButton m)
    (_onMouseButton m) (_onMouseMove m).

Definition with_wheelPos (p : option Pos) (m : Mouse) : Mouse :=
  mkMouse (_doubleClickTimer m) (_lastTouchPos m) p (_wheelStepTimer m)
    (_wheelStepXTimer m) (_wheelStepYTimer m)
    (_accumulatedWheelDeltaX m) (_accumulatedWheelDeltaY m)
    (_target m) (_focused m) (_touchButton m)
    (_onMouseButton m) (_onMouseMove m).

Definition with_wheelStepXTimer (h : Handle) (m : Mouse) : Mouse :=
  mkMouse (_doubleClickTimer m) (_lastTouchPos m) (_wheelPos m)
    (_wheelStepTimer m) h (_wheelStepYTimer m)
    (_accumulatedWheelDeltaX m) (_accumulatedWheelDeltaY m)
    (_target m) (_focused m) (_touchButton m)
    (_onMouseButton m) (_onMouseMove m).

Definition with_wheelStepYTimer (h : Handle) (m : Mouse) : Mouse :=
  mkMouse (_doubleClickTimer m) (_lastTouchPos m) (_wheelPos m)
    (_wheelStepTimer m) (_wheelStepXTimer m) h
    (_accumulatedWheelDeltaX m) (_accumulatedWheelDeltaY m)
    (_target m) (_focused m) (_touchButton m)
    (_onMouseButton m) (_onMouseMove m).

Definition with_accumulatedWheelDeltaX (d : float) (m : Mouse) : Mouse :=
  mkMouse (_doubleClickTimer m) (_lastTouchPos m) (_wheelPos m)
    (_wheelStepTimer m) (_wheelStepXTimer m) (_wheelStepYTimer m)
    d (_accumulatedWheelDeltaY m)
    (_target m) (_focused m) (_touchButton m)
    (_onMouseButton m) (_onMouseMove m).

Definition with_accumulatedWheelDeltaY (d : float) (m : Mouse) : Mouse :=
  mkMouse (_doubleClickTimer m) (_lastTouchPos m) (_wheelPos m)
    (_wheelStepTimer m) (_wheelStepXTimer m) (_wheelStepYTimer m)
    (_accumulatedWheelDeltaX m) d
    (_target m) (_focused m) (_touchButton m)
    (_onMouseButton m) (_onMouseMove m).

Definition with_focused (b : bool) (m : Mouse) : Mouse :=
  mkMouse (_doubleClickTimer m) (_lastTouchPos m) (_wheelPos m)
    (_wheelStepTimer m) (_wheelStepXTimer m) (_wheelStepYTimer m)
    (_accumulatedWheelDeltaX m) (_accumulatedWheelDeltaY m)
    (_target m) b (_touchButton m)
    (_onMouseButton m) (_onMouseMove m).

Definition with_touchButton (v : Z) (m : Mouse) : Mouse :=
  mkMouse (_doubleClickTimer m) (_lastTouchPos m) (_wheelPos m)
    (_wheelStepTimer m) (_wheelStepXTimer m) (_wheelStepYTimer m)
    (_accumulatedWheelDeltaX m) (_accumulatedWheelDeltaY m)
    (_target m) (_focused m) v
    (_onMouseButton m) (_onMouseMove m).

Definition with_onMouseButton (f : bool) (m : Mouse) : Mouse :=
  mkMouse (_doubleClickTimer m) (_lastTouchPos m) (_wheelPos m)
    (_wheelStepTimer m) (_wheelStepXTimer m) (_wheelStepYTimer m)
    (_accumulatedWheelDeltaX m) (_accumulatedWheelDeltaY m)
    (_target m) (_focused m) (_touchButton m)
    f (_onMouseMove m).

Definition with_onMouseMove (f : bool) (m : Mouse) : Mouse :=
  mkMouse (_doubleClickTimer m) (_lastTouchPos m) (_wheelPos m)
    (_wheelStepTimer m) (_wheelStepXTimer m) (_wheelStepYTimer m)
    (_accumulatedWheelDeltaX m) (_accumulatedWheelDeltaY m)
    (_target m) (_focused m) (_touchButton m)
    (_onMouseButton m) f.

Definition with_pending (l : list Timer) (g : Window) : Window :=
  mkWindow (now g) (next_timer_id g) l (devicePixelRatio g)
    (isTouchDevice g) (boundingClientRect g).

Definition with_now (t : Z) (g : Window) : Window :=
  mkWindow t (next_timer_id g) (pending g) (devicePixelRatio g)
    (isTouchDevice g) (boundingClientRect g).

Definition with_next_timer_id (n : Z) (g : Window) : Window :=
  mkWindow (now g) n (pending g) (devicePixelRatio g)
    (isTouchDevice g) (boundingClientRect g).

(* ================================================================== *)
(** ** The monad of the methods *)

Inductive Outcome (A : Type) :=
| Normal (a : A) (w : World)
| Throw (err : JsError) (w : World).

Arguments Normal {A} a w.
Arguments Throw {A} err w.

Definition Js (A : Type) : Type := World -> Outcome A.

Definition ret {A : Type} (a : A) : Js A := fun w => Normal a w.

Definition bind {A B : Type} (m : Js A) (k : A -> Js B) : Js B :=
  fun w =>
    match m w with
    | Normal a w' => k a w'
    | Throw err w' => Throw err w'
    end.

Definition throw {A : Type} (err : JsError) : Js A := fun w => Throw err w.

Notation "x <- m ;; k" := (bind m (fun x => k))
  (at level 61, m at next level, right associativity).
Notation "m ;; k" := (bind m (fun _ => k))
  (at level 61, right associativity).

Definition get_this : Js Mouse := fun w => Normal (this w) w.

Definition get_window : Js Window := fun w => Normal (window w) w.

Definition update_this (f : Mouse -> Mouse) : Js unit :=
  fun w => Normal tt (mkWorld (f (this w)) (window w) (trace w)).

Definition update_window (f : Window -> Window) : Js unit :=
  fun w => Normal tt (mkWorld (this w) (f (window w)) (trace w)).

Definition effect (ev : Effect) : Js unit :=
  fun w => Normal tt (mkWorld (this w) (window w) (trace w ++ [ev])).

(** Reading a property of a value that may be [null]. *)
Definition deref {A : Type} (field : string) (v : option A) : Js A :=
  match v with
  | Some a => ret a
  | None => throw (TypeError ("Cannot read properties of null: " ++ field)%string)
  end.

(* ================================================================== *)
(** ** Host primitives *)

(** [setTimeout(cb, delay)]: arms a timer with a fresh identifier. *)
Definition setTimeout (cb : TimerCallback) (delay : Z) : Js Handle :=
  g <- get_window ;;
  let id := next_timer_id g in
  update_window (fun g =>
    with_next_timer_id (id + 1)
      (with_pending (pending g ++ [mkTimer id (now g + delay) cb]) g)) ;;
  ret (timerId id).

Definition cancel (id : Z) (l : list Timer) : list Timer :=
  filter (fun tm => negb (timer_id tm =? id)) l.

(** [clearTimeout(h)]: no effect unless [h] identifies an armed timer. *)
Definition clearTimeout (h : Handle) : Js unit :=
  match h with
  | timerId id => update_window (fun g => with_pending (cancel id (pending g)) g)
  | _ => ret tt
  end.

(** [setCapture] and [stopEvent] of util/events.js act on the host's
    event dispatch only; they are recorded as effects. *)
Definition setCapture (t : EventTarget) : Js unit := effect (SetCapture t).

Definition stopEvent (e : Event) : Js unit := effect (StopEvent e).

(** Modelled from the spec: [getPointerEvent] of util/events.js, which is
    not part of the sources at hand: "extract the event's absolute client
    coordinates (for touch events, use the first/changed touch point)". *)
Definition getPointerEvent (e : Event) : float * float :=
  match changedTouches e with
  | Some (t :: _) => (touch_clientX t, touch_clientY t)
  | _ =>
      match touches e with
      | Some (t :: _) => (touch_clientX t, touch_clientY t)
      | _ => (clientX e, clientY e)
      end
  end.

(** Calling [this._onMouseButton(...)]: a [TypeError] when the field does
    not hold a function. *)
Definition call_onMouseButton (px py : float) (down bmask : Z) : Js unit :=
  m <- get_this ;;
  if _onMouseButton m then effect (OnMouseButton px py down bmask)
  else throw (TypeError "this._onMouseButton is not a function").

Definition call_onMouseMove (px py : float) : Js unit :=
  m <- get_this ;;
  if _onMouseMove m then effect (OnMouseMove px py)
  else throw (TypeError "this._onMouseMove is not a function").

(* ================================================================== *)
(** ** The private methods of [Mouse.prototype] *)

Definition _resetDoubleClickTimer : Js unit :=
  update_this (with_doubleClickTimer null).

(** Coordinates relative to the target, clipped to its bounds. *)
Definition _getMousePosition (e : Event) : Js Pos :=
  let (cx, cy) := getPointerEvent e in
  g <- get_window ;;
  let bounds := boundingClientRect g in
  let px :=
    (if cx <? left bounds then 0
     else if JS.ge cx (right bounds) then width bounds - 1
     else cx - left bounds)%float in
  let py :=
    (if cy <? top bounds then 0
     else if JS.ge cy (bottom bounds) then height bounds - 1
     else cy - top bounds)%float in
  ret (mkPos px py).

(** [20 * (window.devicePixelRatio || 1)]. *)
Definition touch_threshold (g : Window) : float :=
  (20 * JS.or_else (devicePixelRatio g) 1)%float.

(** The body of the [down == 1] branch for a touch event: the position
    the press is reported at. *)
Definition touch_press (pos : Pos) : Js Pos :=
  m <- get_this ;;
  pos' <-
    match _doubleClickTimer m with
    | null =>
        update_this (with_lastTouchPos (Some pos)) ;;
        ret pos
    | h =>
        clearTimeout h ;;
        last <- deref "x" (_lastTouchPos m) ;;
        let xs := (x last - x pos)%float in
        let ys := (y last - y pos)%float in
        let d := PrimFloat.sqrt ((xs * xs) + (ys * ys))%float in
        g <- get_window ;;
        let threshold := touch_threshold g in
        if (d <? threshold)%float then ret last
        else ret pos
    end ;;
  h <- setTimeout ResetDoubleClickTimer 500 ;;
  update_this (with_doubleClickTimer h) ;;
  ret pos'.

Definition _handleMouseButton (e : Event) (down : Z) : Js unit :=
  m <- get_this ;;
  if negb (_focused m) then ret tt else
  pos <- _getMousePosition e ;;
  pb <-
    (if JS.truthy_obj (touches e) || JS.truthy_obj (changedTouches e) then
       pos' <- (if down =? 1 then touch_press pos else ret pos) ;;
       m <- get_this ;;
       ret (pos', _touchButton m)
     else if JS.truthy_num (which e) then
       ret (pos, JS.shl 1 (button e))
     else
       ret (pos, JS.and (button e) 1
                 + JS.and (button e) 2 * 2
                 + JS.and (button e) 4 / 2)) ;;
  let (pos, bmask) := pb : Pos * Z in
  m <- get_this ;;
  (if _onMouseButton m then
     effect (LogDebug down (x pos) (y pos) bmask) ;;
     call_onMouseButton (x pos) (y pos) down bmask
   else ret tt) ;;
  stopEvent e.

Definition _handleMouseDown (e : Event) : Js unit :=
  (if String.eqb (type e) "mousedown" then
     m <- get_this ;;
     setCapture (_target m)
   else ret tt) ;;
  _handleMouseButton e 1.

Definition _handleMouseUp (e : Event) : Js unit :=
  _handleMouseButton e 0.

Definition _generateWheelStepX : Js unit :=
  m <- get_this ;;
  (if (_accumulatedWheelDeltaX m <? 0)%float then
     p <- deref "x" (_wheelPos m) ;;
     call_onMouseButton (x p) (y p) 1 (JS.shl 1 5) ;;
     call_onMouseButton (x p) (y p) 0 (JS.shl 1 5)
   else if JS.gt (_accumulatedWheelDeltaX m) 0 then
     p <- deref "x" (_wheelPos m) ;;
     call_onMouseButton (x p) (y p) 1 (JS.shl 1 6) ;;
     call_onMouseButton (x p) (y p) 0 (JS.shl 1 6)
   else ret tt) ;;
  update_this (with_accumulatedWheelDeltaX 0).

Definition _generateWheelStepY : Js unit :=
  m <- get_this ;;
  (if (_accumulatedWheelDeltaY m <? 0)%float then
     p <- deref "x" (_wheelPos m) ;;
     call_onMouseButton (x p) (y p) 1 (JS.shl 1 3) ;;
     call_onMouseButton (x p) (y p) 0 (JS.shl 1 3)
   else if JS.gt (_accumulatedWheelDeltaY m) 0 then
     p <- deref "x" (_wheelPos m) ;;
     call_onMouseButton (x p) (y p) 1 (JS.shl 1 4) ;;
     call_onMouseButton (x p) (y p) 0 (JS.shl 1 4)
   else ret tt) ;;
  update_this (with_accumulatedWheelDeltaY 0).

Definition _resetWheelStepTimers : Js unit :=
  m <- get_this ;;
  clearTimeout (_wheelStepXTimer m) ;;
  clearTimeout (_wheelStepYTimer m) ;;
  update_this (with_wheelStepXTimer null) ;;
  update_this (with_wheelStepYTimer null).

Definition _handleMouseWheel (e : Event) : Js unit :=
  m <- get_this ;;
  if negb (_focused m) || negb (_onMouseButton m) then ret tt else
  _resetWheelStepTimers ;;
  pos <- _getMousePosition e ;;
  update_this (with_wheelPos (Some pos)) ;;
  let dX := deltaX e in
  let dY := deltaY e in
  let dX :=
    if negb (deltaMode e =? 0) then (dX * WHEEL_LINE_HEIGHT)%float else dX in
  let dY :=
    if negb (deltaMode e =? 0) then (dY * WHEEL_LINE_HEIGHT)%float else dY in
  update_this (fun m =>
    with_accumulatedWheelDeltaX (_accumulatedWheelDeltaX m + dX)%float m) ;;
  update_this (fun m =>
    with_accumulatedWheelDeltaY (_accumulatedWheelDeltaY m + dY)%float m) ;;
  m <- get_this ;;
  (if JS.gt (PrimFloat.abs (_accumulatedWheelDeltaX m)) WHEEL_STEP then
     _generateWheelStepX
   else
     h <- setTimeout GenerateWheelStepX WHEEL_STEP_TIMEOUT ;;
     update_this (with_wheelStepXTimer h)) ;;
  m <- get_this ;;
  (if JS.gt (PrimFloat.abs (_accumulatedWheelDeltaY m)) WHEEL_STEP then
     _generateWheelStepY
   else
     h <- setTimeout GenerateWheelStepY WHEEL_STEP_TIMEOUT ;;
     update_this (with_wheelStepYTimer h)) ;;
  stopEvent e.

Definition _handleMouseMove (e : Event) : Js unit :=
  m <- get_this ;;
  if negb (_focused m) then ret tt else
  pos <- _getMousePosition e ;;
  m <- get_this ;;
  (if _onMouseMove m then call_onMouseMove (x pos) (y pos) else ret tt) ;;
  stopEvent e.

Definition _handleMouseDisable (e : Event) : Js unit :=
  m <- get_this ;;
  if negb (_focused m) then ret tt else
  if EventTarget_eqb (target e) (_target m) then stopEvent e else ret tt.

Definition _eventHandlers (h : HandlerName) : Event -> Js unit :=
  match h with
  | mousedown => _handleMouseDown
  | mouseup => _handleMouseUp
  | mousemove => _handleMouseMove
  | mousewheel => _handleMouseWheel
  | mousedisable => _handleMouseDisable
  end.

(* ================================================================== *)
(** ** The public methods *)

Definition grab : Js unit :=
  m <- get_this ;;
  let c := _target m in
  g <- get_window ;;
  (if isTouchDevice g then
     effect (AddEventListener c "touchstart" mousedown) ;;
     effect (AddEventListener c "touchend" mouseup) ;;
     effect (AddEventListener c "touchmove" mousemove)
   else ret tt) ;;
  effect (AddEventListener c "mousedown" mousedown) ;;
  effect (AddEventListener c "mouseup" mouseup) ;;
  effect (AddEventListener c "mousemove" mousemove) ;;
  effect (AddEventListener c "wheel" mousewheel) ;;
  effect (AddEventListener document "click" mousedisable) ;;
  effect (AddEventListener c "contextmenu" mousedisable).

Definition ungrab : Js unit :=
  m <- get_this ;;
  let c := _target m in
  _resetWheelStepTimers ;;
  g <- get_window ;;
  (if isTouchDevice g then
     effect (RemoveEventListener c "touchstart" mousedown) ;;
     effect (RemoveEventListener c "touchend" mouseup) ;;
     effect (RemoveEventListener c "touchmove" mousemove)
   else ret tt) ;;
  effect (RemoveEventListener c "mousedown" mousedown) ;;
  effect (RemoveEventListener c "mouseup" mouseup) ;;
  effect (RemoveEventListener c "mousemove" mousemove) ;;
  effect (RemoveEventListener c "wheel" mousewheel) ;;
  effect (RemoveEventListener document "click" mousedisable) ;;
  effect (RemoveEventListener c "contextmenu" mousedisable).

(** Modelled from the spec: the accessors that [make_properties] of
    util/properties.js (not part of the sources at hand) generates for
    the 'rw' properties; the spec describes them as "plain setter
    methods" over the "mutable callback/property fields". *)
Definition set_focused (b : bool) : Js unit := update_this (with_focused b).
Definition set_touchButton (v : Z) : Js unit := update_this (with_touchButton v).
Definition set_onMouseButton (f : bool) : Js unit :=
  update_this (with_onMouseButton f).
Definition set_onMouseMove (f : bool) : Js unit :=
  update_this (with_onMouseMove f).

(** The constructor: the fields it assigns, then the configuration
    attributes ([target], [focused], [touchButton] default to [document],
    [true], [1]).  [_wheelStepXTimer] and [_wheelStepYTimer] are not
    assigned, and neither are the callbacks unless configured. *)
Record Defaults := mkDefaults {
  conf_target : option EventTarget;
  conf_focused : option bool;
  conf_touchButton : option Z;
  conf_onMouseButton : bool;
  conf_onMouseMove : bool
}.

Definition or_default {A : Type} (v : option A) (d : A) : A :=
  match v with
  | Some a => a
  | None => d
  end.

Definition new_Mouse (defaults : Defaults) : Mouse :=
  {| _doubleClickTimer := null;
     _lastTouchPos := None;
     _wheelPos := None;
     _wheelStepTimer := null;
     _wheelStepXTimer := undefined;
     _wheelStepYTimer := undefined;
     _accumulatedWheelDeltaX := 0;
     _accumulatedWheelDeltaY := 0;
     _target := or_default (conf_target defaults) document;
     _focused := or_default (conf_focused defaults) true;
     _touchButton := or_default (conf_touchButton defaults) 1;
     _onMouseButton := conf_onMouseButton defaults;
     _onMouseMove := conf_onMouseMove defaults |}.

(* ================================================================== *)
(** ** The host's event loop *)

Definition fire (cb : TimerCallback) : Js unit :=
  match cb with
  | ResetDoubleClickTimer => _resetDoubleClickTimer
  | GenerateWheelStepX => _generateWheelStepX
  | GenerateWheelStepY => _generateWheelStepY
  end.

(** A turn of the event loop: an exception that escapes the function is
    reported, and the fields keep what was assigned before it. *)
Definition turn (m : Js unit) (w : World) : World :=
  match m w with
  | Normal _ w' => w'
  | Throw err w' => mkWorld (this w') (window w') (trace w' ++ [Uncaught err])
  end.

(** The armed timer that is due first (the earlier armed among equals). *)
Fixpoint earliest (l : list Timer) : option Timer :=
  match l with
  | [] => None
  | tm :: l' =>
      match earliest l' with
      | Some tm' => if timer_due tm <=? timer_due tm' then Some tm else Some tm'
      | None => Some tm
      end
  end.

Definition next_due (until : Z) (l : list Timer) : option Timer :=
  match earliest l with
  | Some tm => if timer_due tm <=? until then Some tm else None
  | None => None
  end.

(** Fires the timers due up to [until], in order; a fired timer is no
    longer armed when its function runs. *)
Fixpoint run_timers (fuel : nat) (until : Z) (w : World) : World :=
  match fuel with
  | O => w
  | S fuel' =>
      match next_due until (pending (window w)) with
      | None => w
      | Some tm =>
          let g := window w in
          let g' :=
            with_now (Z.max (now g) (timer_due tm))
              (with_pending (cancel (timer_id tm) (pending g)) g) in
          run_timers fuel' until
            (turn (fire (timer_callback tm)) (mkWorld (this w) g' (trace w)))
      end
  end.

(** [dt] ms pass.  None of the timer functions arms a timer, so the
    number of armed timers bounds the number of firings
    (lemma [elapse_fires_all_due]). *)
Definition elapse (dt : Z) (w : World) : World :=
  let until := now (window w) + Z.max 0 dt in
  let w' := run_timers (List.length (pending (window w))) until w in
  mkWorld (this w') (with_now until (window w')) (trace w').

(** What can happen to a [Mouse] from outside. *)
Inductive Input :=
| Dispatch (h : HandlerName) (e : Event)
| Elapse (dt : Z)
| Call_grab
| Call_ungrab
| Set_focused (b : bool)
| Set_touchButton (v : Z)
| Set_onMouseButton (f : bool)
| Set_onMouseMove (f : bool).

Definition step (i : Input) (w : World) : World :=
  match i with
  | Dispatch h e => turn (_eventHandlers h e) w
  | Elapse dt => elapse dt w
  | Call_grab => turn grab w
  | Call_ungrab => turn ungrab w
  | Set_focused b => turn (set_focused b) w
  | Set_touchButton v => turn (set_touchButton v) w
  | Set_onMouseButton f => turn (set_onMouseButton f) w
  | Set_onMouseMove f => turn (set_onMouseMove f) w
  end.

Definition run (inputs : list Input) (w : World) : World :=
  fold_left (fun w i => step i w) inputs w.

(* ================================================================== *)
(** ** Observing a run *)

(** The world a method leaves behind, whether it returns or throws. *)
Definition world_of {A : Type} (o : Outcome A) : World :=
  match o with
  | Normal _ w => w
  | Throw _ w => w
  end.

Definition record_effect (ev : Effect) (w : World) : World :=
  mkWorld (this w) (window w) (trace w ++ [ev]).

(** [appends P m]: whatever [m] does, it only adds effects satisfying [P]
    to the trace. *)
Definition appends (P : Effect -> Prop) {A : Type} (m : Js A) : Prop :=
  forall w, exists l, trace (world_of (m w)) = trace w ++ l /\ Forall P l.

Definition is_capture (ev : Effect) : bool :=
  match ev with
  | SetCapture _ => true
  | _ => false
  end.

(* ================================================================== *)
(** ** Sample events and worlds *)

Module Sample.

Definition rect800x600 : DOMRect := mkRect 0 0 800 600 800 600.

Definition host (dpr : option float) (r : DOMRect) : Window :=
  mkWindow 0 1 [] dpr true r.

(** A fresh [Mouse] with both callbacks registered. *)
Definition fresh : World :=
  mkWorld (new_Mouse (mkDefaults None None None true true))
          (host (Some 1%float) rect800x600) [].


(** The same with the focus gate closed. *)
Definition unfocused : World :=
  mkWorld (new_Mouse (mkDefaults None (Some false) None true true))
          (host (Some 1%float) rect800x600) [].

Definition mouse_event (ty : string) (btn : Z) (cx cy : float) : Event :=
  mkEvent ty (element 1) None None (Some (btn + 1)) btn cx cy 0 0 0.

Definition legacy_event (ty : string) (btn : Z) (cx cy : float) : Event :=
  mkEvent ty (element 1) None None None btn cx cy 0 0 0.

Definition touch_event (ty : string) (cx cy : float) : Event :=
  mkEvent ty (element 1) (Some [mkTouch cx cy]) (Some [mkTouch cx cy])
          None 0 0 0 0 0 0.

Definition wheel_event (dx dy : float) (mode : Z) : Event :=
  mkEvent "wheel" (element 1) None None None 0 100 100 dx dy mode.

End Sample.

(* ================================================================== *)
(** ** The units as the specification words them *)

(** 4.1, per axis: "if coordinate < bounds.min, clamp to 0; if coordinate
    >= bounds.max, clamp to (extent - 1); else coordinate - bounds.min". *)
Definition clip_axis (c lo hi extent : float) : float :=
  (if c <? lo then 0
   else if hi <=? c then extent - 1
   else c - lo)%float.

(** The same on integers. *)
Definition clip_integer (c lo hi extent : Z) : Z :=
  if c <? lo then 0
  else if hi <=? c then extent - 1
  else c - lo.

Definition resolve (e : Event) (bounds : DOMRect) : Pos :=
  let (cx, cy) := getPointerEvent e in
  mkPos (clip_axis cx (left bounds) (right bounds) (width bounds))
        (clip_axis cy (top bounds) (bottom bounds) (height bounds)).

(** The position a handler computes for [e] in world [w]. *)
Definition position (e : Event) (w : World) : Pos :=
  resolve e (boundingClientRect (window w)).

(** 4.2: the event is touch-sourced. *)
Definition is_touch (e : Event) : bool :=
  JS.truthy_obj (touches e) || JS.truthy_obj (changedTouches e).

(** 4.2, rule 3: "bit0_out = legacy_bit0, bit1_out = legacy_bit2,
    bit2_out = legacy_bit1". *)
Definition legacy_mask (b : Z) : Z :=
  Z.b2z (Z.testbit b 0) + 2 * Z.b2z (Z.testbit b 2) + 4 * Z.b2z (Z.testbit b 1).

(** 4.2: encode(rawButtonInfo, isTouchSource, touchButtonConfig). *)
Definition encode (touchButtonConfig : Z) (e : Event) : Z :=
  if is_touch e then touchButtonConfig
  else if JS.truthy_num (which e) then JS.shl 1 (button e)
  else legacy_mask (button e).

(** A target of width 100 whose left edge is at 10.5. *)
Definition fractional_target : World :=
  mkWorld (new_Mouse (mkDefaults None None None true true))
          (mkWindow 0 1 [] (Some 1%float) true
             (mkRect 10.5 0 110.5 100 100 100)) [].

(** Degenerate geometry: a target of no extent. *)
Definition empty_target : World :=
  mkWorld (new_Mouse (mkDefaults None None None true true))
          (mkWindow 0 1 [] (Some 1%float) true (mkRect 0 0 0 0 0 0)) [].

(* ================================================================== *)
(** ** World transformers used to state what the methods do *)

Definition add_effects (l : list Effect) (w : World) : World :=
  mkWorld (this w) (window w) (trace w ++ l).

(** The window after [setTimeout(cb, delay)]. *)
Definition armed (cb : TimerCallback) (delay : Z) (g : Window) : Window :=
  with_next_timer_id (next_timer_id g + 1)
    (with_pending (pending g ++ [mkTimer (next_timer_id g) (now g + delay) cb]) g).

(** The window after [clearTimeout(h)]. *)
Definition cleared (h : Handle) (g : Window) : Window :=
  match h with
  | timerId id => with_pending (cancel id (pending g)) g
  | _ => g
  end.

(** The position a second touch is reported at. *)
Definition snap (last pos : Pos) (g : Window) : Pos :=
  if (PrimFloat.sqrt ((x last - x pos) * (x last - x pos)
                      + (y last - y pos) * (y last - y pos))
      <? touch_threshold g)%float
  then last else pos.

(** What the end of [_handleMouseButton] adds to the trace. *)
Definition button_effects (registered : bool) (p : Pos) (down bmask : Z)
    (e : Event) : list Effect :=
  (if registered
   then [LogDebug down (x p) (y p) bmask; OnMouseButton (x p) (y p) down bmask]
   else []) ++ [StopEvent e].

Definition is_button_call (ev : Effect) : bool :=
  match ev with
  | OnMouseButton _ _ _ _ => true
  | _ => false
  end.

(** The invocations of the button callback in a trace. *)
Definition button_calls (tr : list Effect) : list Effect :=
  filter is_button_call tr.



(** The touch merger can take a press: in the pending state a last
    position has been recorded. *)
Definition touch_ready (m : Mouse) : Prop :=
  _doubleClickTimer m = null \/ exists last, _lastTouchPos m = Some last.

(** A [Mouse] configured with [touchButton] 0. *)
Definition touch_disabled : World :=
  mkWorld (new_Mouse (mkDefaults None None (Some 0) true true))
          (Sample.host (Some 1%float) Sample.rect800x600) [].



(** 4.4, step emission: a press and release pair at [p] with the mask of
    the direction ([neg] and [pos] are the bit numbers of the axis);
    nothing when the accumulated delta [a] is zero. *)
Definition wheel_step_effects (neg pos : Z) (p : Pos) (a : float) :
    list Effect :=
  if (a <? 0)%float then
    [OnMouseButton (x p) (y p) 1 (JS.shl 1 neg);
     OnMouseButton (x p) (y p) 0 (JS.shl 1 neg)]
  else if JS.gt a 0 then
    [OnMouseButton (x p) (y p) 1 (JS.shl 1 pos);
     OnMouseButton (x p) (y p) 0 (JS.shl 1 pos)]
  else [].

(** 4.4, step 2: the delta in pixel units. *)
Definition normalized (e : Event) (d : float) : float :=
  if negb (deltaMode e =? 0) then (d * WHEEL_LINE_HEIGHT)%float else d.

(** The world of [_handleMouseWheel] once the timers are reset, the
    position recorded and the deltas accumulated. *)
Definition wheel_accumulated (e : Event) (w : World) : World :=
  mkWorld
    (with_accumulatedWheelDeltaY
       (_accumulatedWheelDeltaY (this w) + normalized e (deltaY e))%float
       (with_accumulatedWheelDeltaX
          (_accumulatedWheelDeltaX (this w) + normalized e (deltaX e))%float
          (with_wheelPos (Some (position e w))
             (with_wheelStepYTimer null
                (with_wheelStepXTimer null (this w))))))
    (cleared (_wheelStepYTimer (this w))
       (cleared (_wheelStepXTimer (this w)) (window w)))
    (trace w).

(** The X axis of [_handleMouseWheel]: emit now, or arm the flush. *)
Definition wheel_x (p : Pos) (w : World) : World :=
  if JS.gt (PrimFloat.abs (_accumulatedWheelDeltaX (this w))) WHEEL_STEP then
    mkWorld (with_accumulatedWheelDeltaX 0 (this w)) (window w)
            (trace w
             ++ wheel_step_effects 5 6 p (_accumulatedWheelDeltaX (this w)))
  else
    mkWorld (with_wheelStepXTimer (timerId (next_timer_id (window w))) (this w))
            (armed GenerateWheelStepX WHEEL_STEP_TIMEOUT (window w))
            (trace w).

Definition wheel_y (p : Pos) (w : World) : World :=
  if JS.gt (PrimFloat.abs (_accumulatedWheelDeltaY (this w))) WHEEL_STEP then
    mkWorld (with_accumulatedWheelDeltaY 0 (this w)) (window w)
            (trace w
             ++ wheel_step_effects 3 4 p (_accumulatedWheelDeltaY (this w)))
  else
    mkWorld (with_wheelStepYTimer (timerId (next_timer_id (window w))) (this w))
            (armed GenerateWheelStepY WHEEL_STEP_TIMEOUT (window w))
            (trace w).

(** A touch press, then a wheel event of 5 pixels on X. *)
Definition tap_then_wheel : World :=
  run [Dispatch mousedown (Sample.touch_event "touchstart" 100 100);
       Dispatch mousewheel (Sample.wheel_event 5 0 0)]
      Sample.fresh.

(* ================================================================== *)
(** ** Timers and their owners *)

(** The field that holds the handle of a timer armed with [cb]. *)
Definition owner (m : Mouse) (cb : TimerCallback) : Handle :=
  match cb with
  | ResetDoubleClickTimer => _doubleClickTimer m
  | GenerateWheelStepX => _wheelStepXTimer m
  | GenerateWheelStepY => _wheelStepYTimer m
  end.

(** Every armed timer is the one its field holds, and identifiers are
    unique and already handed out. *)
Definition timers_owned (w : World) : Prop :=
  NoDup (map timer_id (pending (window w))) /\
  forall tm, In tm (pending (window w)) ->
    owner (this w) (timer_callback tm) = timerId (timer_id tm) /\
    timer_id tm < next_timer_id (window w).

(** The two axes of the wheel accumulator. *)
Inductive Axis :=
| AxisX
| AxisY.

Definition accumulated (ax : Axis) (m : Mouse) : float :=
  match ax with
  | AxisX => _accumulatedWheelDeltaX m
  | AxisY => _accumulatedWheelDeltaY m
  end.

Definition flush_timer (ax : Axis) (m : Mouse) : Handle :=
  match ax with
  | AxisX => _wheelStepXTimer m
  | AxisY => _wheelStepYTimer m
  end.

Definition flush_callback (ax : Axis) : TimerCallback :=
  match ax with
  | AxisX => GenerateWheelStepX
  | AxisY => GenerateWheelStepY
  end.

(** 4.4: "X-negative = bit 5, X-positive = bit 6, Y-negative = bit 3,
    Y-positive = bit 4". *)
Definition negative_bit (ax : Axis) : Z :=
  match ax with
  | AxisX => 5
  | AxisY => 3
  end.

Definition positive_bit (ax : Axis) : Z :=
  match ax with
  | AxisX => 6
  | AxisY => 4
  end.

(** The step of an axis for an accumulated delta [a], at [p]. *)
Definition step_effects (ax : Axis) (p : Pos) (a : float) : list Effect :=
  wheel_step_effects (negative_bit ax) (positive_bit ax) p a.

Definition is_step (ax : Axis) (ev : Effect) : bool :=
  match ev with
  | OnMouseButton _ _ _ bmask =>
      (bmask =? JS.shl 1 (negative_bit ax))
      || (bmask =? JS.shl 1 (positive_bit ax))
  | _ => false
  end.

(** The step events of an axis in a trace. *)
Definition steps (ax : Axis) (tr : list Effect) : list Effect :=
  filter (is_step ax) tr.

(** The flush of the axis is armed for time [t]. *)
Definition flush_at (ax : Axis) (t : Z) (w : World) : Prop :=
  exists id,
    flush_timer ax (this w) = timerId id /\
    In (mkTimer id t (flush_callback ax)) (pending (window w)).

(** No flush of the axis is due by [until]. *)
Definition quiet (ax : Axis) (until : Z) (w : World) : Prop :=
  forall tm, In tm (pending (window w)) ->
    timer_callback tm = flush_callback ax -> until < timer_due tm.

(** What an axis of the wheel accumulator depends on and shows. *)
Definition axis_view (ax : Axis) (w : World) :
    float * option Pos * Handle * bool * bool * list Effect :=
  (accumulated ax (this w), _wheelPos (this w),
   flush_timer ax (this w), _focused (this w), _onMouseButton (this w),
   steps ax (trace w)).

(** The handles and the host. *)
Definition timer_view (w : World) : Handle * Handle * Handle * Window :=
  (_doubleClickTimer (this w), _wheelStepXTimer (this w),
   _wheelStepYTimer (this w), window w).

(** [preserves f m]: [m] leaves the observation [f] of the world as it
    was, whether it returns or throws. *)
Definition preserves {A B : Type} (f : World -> A) (m : Js B) : Prop :=
  forall w, f (world_of (m w)) = f w.

(** One firing of [run_timers]. *)
Definition fire_timer (tm : Timer) (w : World) : World :=
  turn (fire (timer_callback tm))
    (mkWorld (this w)
       (with_now (Z.max (now (window w)) (timer_due tm))
          (with_pending (cancel (timer_id tm) (pending (window w))) (window w)))
       (trace w)).

Definition TimerCallback_eq_dec (a b : TimerCallback) : {a = b} + {a <> b}.
Proof. decide equality. Defined.

(* ================================================================== *)
(** ** Wheel gestures *)

(** The delta of a wheel event on an axis, as the event gives it and in
    pixel units. *)
Definition raw_delta (ax : Axis) (e : Event) : float :=
  match ax with
  | AxisX => deltaX e
  | AxisY => deltaY e
  end.

Definition delta (ax : Axis) (e : Event) : float :=
  normalized e (raw_delta ax e).

(** The deltas of the events [es] on the axis are the integers [ds]. *)
Definition integral (ax : Axis) (es : list Event) (ds : list Z) : Prop :=
  Forall2 (fun e d => delta ax e = JS.number d) es ds.

Definition total (ds : list Z) : Z := fold_right Z.add 0 ds.

(** The events of a gesture after the first: each arrives after a
    pause. *)
Definition play (rest : list (Z * Event)) : list Input :=
  flat_map (fun pe => [Elapse (fst pe); Dispatch mousewheel (snd pe)]) rest.

(** Three events of 3, 3 and 4 pixels on X, 10 ms apart. *)
Definition gesture_rest : list (Z * Event) :=
  [(10, Sample.wheel_event 3 0 0); (10, Sample.wheel_event 4 0 0)].

(* ================================================================== *)
(** ** Invariants of a run *)

(** The fields of the object and the host, without the trace. *)
Definition state_of (w : World) : Mouse * Window := (this w, window w).

(** What every world reached from a fresh [Mouse] satisfies: the armed
    timers are owned, a pending double tap has its first position, and
    neither accumulated delta is beyond the threshold. *)
Definition sound (w : World) : Prop :=
  timers_owned w /\
  touch_ready (this w) /\
  JS.gt (PrimFloat.abs (_accumulatedWheelDeltaX (this w))) WHEEL_STEP = false /\
  JS.gt (PrimFloat.abs (_accumulatedWheelDeltaY (this w))) WHEEL_STEP = false.

(** A world right after [new Mouse(defaults)]: no timer is armed yet. *)
Definition constructed (w : World) : Prop :=
  (exists defaults, this w = new_Mouse defaults) /\
  pending (window w) = [] /\
  trace w = [].

(** The partial sums of the deltas [ds], from the accumulated delta
    [a], stay within the threshold. *)
Fixpoint within_threshold (a : Z) (ds : list Z) : Prop :=
  match ds with
  | [] => True
  | d :: ds' => Z.abs (a + d) <= 10 /\ within_threshold (a + d) ds'
  end.

(** The listener an effect registers or removes. *)
Definition registration (ev : Effect) :
    option (EventTarget * string * HandlerName) :=
  match ev with
  | AddEventListener t ty h => Some (t, ty, h)
  | RemoveEventListener t ty h => Some (t, ty, h)
  | _ => None
  end.

Definition is_add (ev : Effect) : bool :=
  match ev with
  | AddEventListener _ _ _ => true
  | _ => false
  end.

Definition is_remove (ev : Effect) : bool :=
  match ev with
  | RemoveEventListener _ _ _ => true
  | _ => false
  end.

Definition is_uncaught (ev : Effect) : bool :=
  match ev with
  | Uncaught _ => true
  | _ => false
  end.

(** The input withdraws the button callback. *)
Definition withdraws_callback (i : Input) : bool :=
  match i with
  | Set_onMouseButton false => true
  | _ => false
  end.

(** The listeners of [grab] and [ungrab], in their order. *)
Definition listeners (c : EventTarget) (touch : bool) :
    list (EventTarget * string * HandlerName) :=
  (if touch
   then [(c, "touchstart", mousedown); (c, "touchend", mouseup);
         (c, "touchmove", mousemove)]
   else [])
  ++ [(c, "mousedown", mousedown); (c, "mouseup", mouseup);
      (c, "mousemove", mousemove); (c, "wheel", mousewheel);
      (document, "click", mousedisable); (c, "contextmenu", mousedisable)].

Definition add_listener (r : EventTarget * string * HandlerName) : Effect :=
  let '(t, ty, h) := r in AddEventListener t ty h.

Definition remove_listener (r : EventTarget * string * HandlerName) : Effect :=
  let '(t, ty, h) := r in RemoveEventListener t ty h.

(** The world after [_resetWheelStepTimers]. *)
Definition wheel_timers_reset (w : World) : World :=
  mkWorld (with_wheelStepYTimer null (with_wheelStepXTimer null (this w)))
    (cleared (_wheelStepYTimer (this w))
       (cleared (_wheelStepXTimer (this w)) (window w)))
    (trace w).

(** A busy session: a touch press, wheel events on both axes, pauses,
    a second press, [ungrab] and [grab]. *)
Definition busy_session : list Input :=
  [Call_grab;
   Dispatch mousedown (Sample.touch_event "touchstart" 100 100);
   Dispatch mousewheel (Sample.wheel_event 5 (-3) 0);
   Elapse 20;
   Dispatch mousewheel (Sample.wheel_event 4 (-9) 0);
   Dispatch mouseup (Sample.touch_event "touchend" 100 100);
   Elapse 200;
   Dispatch mousedown (Sample.touch_event "touchstart" 300 300);
   Dispatch mousemove (Sample.mouse_event "mousemove" 0 7 7);
   Call_ungrab;
   Elapse 1000].

(** The handles are identifiers handed out in the past, and a handle
    that identifies an armed timer is the handle of that timer's own
    function: identifiers are never reused. *)
Definition handles_exclusive (w : World) : Prop :=
  (forall cb id, owner (this w) cb = timerId id ->
                 id < next_timer_id (window w)) /\
  (forall tm cb, In tm (pending (window w)) ->
                 owner (this w) cb = timerId (timer_id tm) ->
                 cb = timer_callback tm).

Definition coherent (w : World) : Prop := sound w /\ handles_exclusive w.

(* ================================================================== *)
(** ** Touch gestures *)

(** What the touch merger depends on, besides the timers. *)
Definition touch_view (w : World) : Handle * option Pos * bool :=
  (_doubleClickTimer (this w), _lastTouchPos (this w), _focused (this w)).

(** The double-tap window closes at time [t]. *)
Definition window_closes_at (t : Z) (w : World) : Prop :=
  exists id,
    _doubleClickTimer (this w) = timerId id /\
    In (mkTimer id t ResetDoubleClickTimer) (pending (window w)).

(** Further presses, each after a pause. *)
Definition taps (rest : list (Z * Event)) : list Input :=
  flat_map (fun pe => [Elapse (fst pe); Dispatch mousedown (snd pe)]) rest.

(** Two more presses, 300 ms apart, far from the first. *)
Definition taps_rest : list (Z * Event) :=
  [(300, Sample.touch_event "touchstart" 400 400);
   (300, Sample.touch_event "touchstart" 10 500)].

(** A step has something to emit only with the callback registered and
    the wheel position recorded. *)
Definition step_ready (w : World) : Prop :=
  (_accumulatedWheelDeltaX (this w) = 0%float /\
   _accumulatedWheelDeltaY (this w) = 0%float) \/
  (_onMouseButton (this w) = true /\ exists p, _wheelPos (this w) = Some p).

(** No exception has escaped a handler or a timer function. *)
Definition no_uncaught (w : World) : Prop :=
  Forall (fun ev => is_uncaught ev = false) (trace w).

(** What the step emission depends on. *)
Definition step_view (w : World) : float * float * bool * option Pos :=
  (_accumulatedWheelDeltaX (this w), _accumulatedWheelDeltaY (this w),
   _onMouseButton (this w), _wheelPos (this w)).

(** The world with another recorded last touch position. *)
Definition forget (v : option Pos) (w : World) : World :=
  mkWorld (with_lastTouchPos v (this w)) (window w) (trace w).

Definition outcome_map {A : Type} (f : World -> World) (o : Outcome A) :
    Outcome A :=
  match o with
  | Normal a w => Normal a (f w)
  | Throw err w => Throw err (f w)
  end.

(** Two worlds that are the same, or differ in the recorded last touch
    position only while no double tap is pending. *)
Definition same_but_stale (v : option Pos) (w1 w2 : World) : Prop :=
  w2 = w1 \/ (_doubleClickTimer (this w1) = null /\ w2 = forget v w1).

(** The double-tap window of a press at (100, 100) has expired. *)
Definition after_expiry : World :=
  run [Dispatch mousedown (Sample.touch_event "touchstart" 100 100);
       Elapse 500] Sample.fresh.

(* ================================================================== *)
(** * Properties *)

(* ================================================================== *)
(** ** Reasoning about the monad *)

Lemma bind_Normal {A B : Type} (m : Js A) (k : A -> Js B) w a w' :
  m w = Normal a w' -> bind m k w = k a w'.
Proof. intros H. unfold bind. now rewrite H. Qed.

Lemma bind_Throw {A B : Type} (m : Js A) (k : A -> Js B) w err w' :
  m w = Throw err w' -> bind m k w = Throw err w'.
Proof. intros H. unfold bind. now rewrite H. Qed.

Section Appends.

Variable P : Effect -> Prop.

Lemma appends_ret {A : Type} (a : A) : appends P (ret a).
Proof. intros w. exists []. cbn. now rewrite app_nil_r. Qed.

Lemma appends_throw {A : Type} err : appends P (@throw A err).
Proof. intros w. exists []. cbn. now rewrite app_nil_r. Qed.

Lemma appends_get_this : appends P get_this.
Proof. intros w. exists []. cbn. now rewrite app_nil_r. Qed.

Lemma appends_get_window : appends P get_window.
Proof. intros w. exists []. cbn. now rewrite app_nil_r. Qed.

Lemma appends_update_this f : appends P (update_this f).
Proof. intros w. exists []. cbn. now rewrite app_nil_r. Qed.

Lemma appends_update_window f : appends P (update_window f).
Proof. intros w. exists []. cbn. now rewrite app_nil_r. Qed.

Lemma appends_effect ev : P ev -> appends P (effect ev).
Proof. intros H w. exists [ev]. cbn. auto. Qed.

Lemma appends_bind {A B : Type} (m : Js A) (k : A -> Js B) :
  appends P m -> (forall a, appends P (k a)) -> appends P (bind m k).
Proof.
  intros Hm Hk w. unfold bind.
  destruct (Hm w) as [l [El Fl]].
  destruct (m w) as [a w'|err w']; cbn in El.
  - destruct (Hk a w') as [l' [El' Fl']].
    exists (l ++ l'). rewrite El', El, app_assoc. split; auto.
    apply Forall_app; auto.
  - exists l. auto.
Qed.

Lemma appends_deref {A : Type} f (v : option A) : appends P (deref f v).
Proof. destruct v; [apply appends_ret | apply appends_throw]. Qed.

Lemma appends_clearTimeout h : appends P (clearTimeout h).
Proof.
  destruct h; cbn; first [apply appends_ret | apply appends_update_window].
Qed.

Lemma appends_setTimeout cb d : appends P (setTimeout cb d).
Proof.
  unfold setTimeout.
  apply appends_bind; [apply appends_get_window | intros g].
  apply appends_bind; [apply appends_update_window | intros _].
  apply appends_ret.
Qed.

Lemma appends_getMousePosition e : appends P (_getMousePosition e).
Proof.
  unfold _getMousePosition. destruct (getPointerEvent e).
  apply appends_bind; [apply appends_get_window | intros g].
  apply appends_ret.
Qed.

End Appends.

Ltac appends_step :=
  first
    [ apply appends_ret | apply appends_throw | apply appends_get_this
    | apply appends_get_window | apply appends_update_this
    | apply appends_update_window | apply appends_deref
    | apply appends_clearTimeout | apply appends_setTimeout
    | apply appends_getMousePosition
    | apply appends_effect; solve [cbn; auto]
    | apply appends_bind; [ | intros ? ]
    | match goal with
      | |- appends _ (if ?c then _ else _) => destruct c
      | |- appends _ (match ?c with _ => _ end) => destruct c
      | |- appends _ (let (_, _) := ?c in _) => destruct c
      end ].

Lemma handleMouseButton_no_capture e down :
  appends (fun ev => is_capture ev = false) (_handleMouseButton e down).
Proof.
  unfold _handleMouseButton, touch_press, call_onMouseButton, stopEvent.
  repeat appends_step.
Qed.

(* ================================================================== *)
(** ** The focus gate *)

Lemma handleMouseButton_unfocused e down w :
  _focused (this w) = false -> _handleMouseButton e down w = Normal tt w.
Proof.
  intros H. unfold _handleMouseButton, bind, get_this. now rewrite H.
Qed.

Lemma handleMouseDown_capture e w :
  _handleMouseDown e w =
  if String.eqb (type e) "mousedown"
  then _handleMouseButton e 1 (record_effect (SetCapture (_target (this w))) w)
  else _handleMouseButton e 1 w.
Proof.
  unfold _handleMouseDown. unfold bind at 1.
  destruct (String.eqb (type e) "mousedown"); reflexivity.
Qed.

(** C9, counterexample: a press of type "mousedown" that arrives while
    [focused] is false is not without side effect: the pointer capture
    is set on the target. *)
Lemma focus_gate_counterexample :
  _focused (this Sample.unfocused) = false /\
  _eventHandlers mousedown (Sample.mouse_event "mousedown" 0 5 5)
    Sample.unfocused
  = Normal tt (record_effect (SetCapture document) Sample.unfocused) /\
  trace Sample.unfocused = [] /\
  trace (record_effect (SetCapture document) Sample.unfocused)
  = [SetCapture document].
Proof. repeat split. Qed.

(** C9, as amended: a raw event (press, release, move, wheel, disable)
    that arrives while [focused] is false invokes no callback and leaves
    the fields of the object, the timers and the host untouched; the one
    effect that escapes the gate is the pointer capture of a press whose
    type is "mousedown". *)
Theorem focus_gate (h : HandlerName) (e : Event) (w : World)
    (Hfocus : _focused (this w) = false) :
  _eventHandlers h e w =
  Normal tt
    match h with
    | mousedown =>
        if String.eqb (type e) "mousedown"
        then record_effect (SetCapture (_target (this w))) w
        else w
    | _ => w
    end.
Proof.
  destruct h; cbn [_eventHandlers].
  - rewrite handleMouseDown_capture.
    destruct (String.eqb (type e) "mousedown");
      now apply handleMouseButton_unfocused.
  - now apply handleMouseButton_unfocused.
  - unfold _handleMouseMove, bind, get_this. now rewrite Hfocus.
  - unfold _handleMouseWheel, bind, get_this. now rewrite Hfocus.
  - unfold _handleMouseDisable, bind, get_this. now rewrite Hfocus.
Qed.

Lemma focus_gate_witness :
  _eventHandlers mousewheel (Sample.wheel_event 0 15 0) Sample.unfocused
  = Normal tt Sample.unfocused.
Proof. apply (focus_gate mousewheel (Sample.wheel_event 0 15 0)). reflexivity. Defined.

(** C10: a press of type "mousedown" sets the pointer capture on the
    target before the focus gate is consulted, so the capture is the one
    thing that happens when [focused] is false; a press of any other
    type (the touch listeners deliver "touchstart") goes to the button
    handler directly and no capture is set. *)
Theorem capture_precedes_focus_gate (e : Event) (w : World) :
  let captured := record_effect (SetCapture (_target (this w))) w in
  if String.eqb (type e) "mousedown" then
    _handleMouseDown e w =
    (if _focused (this w) then _handleMouseButton e 1 captured
     else Normal tt captured)
  else
    _handleMouseDown e w = _handleMouseButton e 1 w /\
    exists l, trace (world_of (_handleMouseDown e w)) = trace w ++ l /\
              Forall (fun ev => is_capture ev = false) l.
Proof.
  intros captured. rewrite handleMouseDown_capture.
  destruct (String.eqb (type e) "mousedown").
  - destruct (_focused (this w)) eqn:F; [reflexivity|].
    now apply handleMouseButton_unfocused.
  - split; [reflexivity|]. apply handleMouseButton_no_capture.
Qed.

(* ================================================================== *)
(** ** Safe integers as doubles *)

(** On safe integers the conversion to a double and the arithmetic and
    comparisons of doubles are exact. *)

Lemma iter_xO_value m d : Zpos (Pos.iter xO m d) = Zpos m * 2 ^ Zpos d.
Proof.
  induction d as [|d IH] using Pos.peano_ind.
  - cbn. lia.
  - rewrite Pos.iter_succ, Pos2Z.inj_xO, IH, Pos2Z.inj_succ, Z.pow_succ_r by lia.
    lia.
Qed.

Lemma shl_pos_value m n : 0 <= n -> Zpos (shl_pos m n) = Zpos m * 2 ^ n.
Proof.
  intros H. destruct n as [|d|d]; cbn [shl_pos];
    [lia | apply iter_xO_value | lia].
Qed.

Lemma iter_xO_digits m d :
  Zpos (digits2_pos (Pos.iter xO m d)) = Zpos (digits2_pos m) + Zpos d.
Proof.
  induction d as [|d IH] using Pos.peano_ind.
  - cbn. lia.
  - rewrite Pos.iter_succ. cbn [digits2_pos]. lia.
Qed.

Lemma shl_pos_digits m n :
  0 <= n -> Zpos (digits2_pos (shl_pos m n)) = Zpos (digits2_pos m) + n.
Proof.
  intros H. destruct n as [|d|d]; cbn [shl_pos];
    [lia | apply iter_xO_digits | lia].
Qed.

Lemma digits_bounds m :
  2 ^ (Zpos (digits2_pos m) - 1) <= Zpos m < 2 ^ Zpos (digits2_pos m).
Proof.
  induction m as [m IH|m IH|]; cbn [digits2_pos].
  - rewrite Pos2Z.inj_succ, Z.pow_succ_r by lia.
    replace (Z.succ (Zpos (digits2_pos m)) - 1)
      with (Z.succ (Zpos (digits2_pos m) - 1)) by lia.
    rewrite Z.pow_succ_r by lia. lia.
  - rewrite Pos2Z.inj_succ, Z.pow_succ_r by lia.
    replace (Z.succ (Zpos (digits2_pos m)) - 1)
      with (Z.succ (Zpos (digits2_pos m) - 1)) by lia.
    rewrite Z.pow_succ_r by lia. lia.
  - cbn. lia.
Qed.

Lemma digits_le_53 m : Zpos m < 2 ^ 53 -> Zpos (digits2_pos m) <= 53.
Proof.
  intros H. pose proof (digits_bounds m) as [L _].
  destruct (Z_le_gt_dec (Zpos (digits2_pos m)) 53) as [|G]; [assumption|].
  assert (2 ^ 53 <= 2 ^ (Zpos (digits2_pos m) - 1))
    by (apply Z.pow_le_mono_r; lia).
  lia.
Qed.

Lemma iter_pos_iter {A} (f : A -> A) p a : iter_pos f p a = Pos.iter f a p.
Proof.
  revert a. induction p as [p IH|p IH|]; intros a; cbn.
  - rewrite !IH. now rewrite !Pos.iter_swap.
  - now rewrite !IH.
  - reflexivity.
Qed.

(** Shifting out low bits that are all zero loses nothing. *)
Lemma shr_exact q d :
  iter_pos shr_1 d (Build_shr_record (Zpos (Pos.iter xO q d)) false false)
  = Build_shr_record (Zpos q) false false.
Proof.
  rewrite iter_pos_iter.
  induction d as [|d IH] using Pos.peano_ind.
  - reflexivity.
  - rewrite Pos.iter_succ_r, Pos.iter_succ. cbn [shr_1 orb]. exact IH.
Qed.

(** Rounding an integer below 2^53, scaled by a power of two, is exact. *)
Lemma round_aux_exact s m k :
  Zpos m < 2 ^ 53 -> 0 <= k -> 0 <= Zpos (digits2_pos m) - 53 + k ->
  binary_round_aux prec emax s (Zpos (shl_pos m k)) (- k) loc_Exact
  = canonical s m.
Proof.
  intros Hm Hk Hs.
  pose proof (digits_le_53 m Hm) as Hd.
  assert (Hd1 : 1 <= Zpos (digits2_pos m)) by lia.
  set (d := Zpos (digits2_pos m)) in *.
  assert (Aligned :
    binary_round_aux prec emax s (Zpos (shl_pos m (53 - d))) (d - 53) loc_Exact
    = canonical s m).
  { unfold binary_round_aux, shr_fexp.
    cbn [Zdigits2]. rewrite shl_pos_digits by lia. fold d.
    assert (F2 : fexp prec emax (d + (53 - d) + (d - 53)) = d - 53).
    { unfold fexp, SpecFloat.emin, prec, emax. lia. }
    rewrite F2, Z.sub_diag.
    cbn [shr shr_record_of_loc shr_m loc_of_shr_record round_nearest_even].
    cbn [Zdigits2]. rewrite shl_pos_digits by lia. fold d.
    rewrite F2, Z.sub_diag.
    cbn [shr shr_record_of_loc shr_m].
    replace (d - 53 <=? emax - prec) with true
      by (symmetry; apply Z.leb_le; unfold emax, prec; lia).
    reflexivity. }
  destruct (d - 53 + k) as [|n|n] eqn:E; [| |lia].
  - (* no bit to shift out *)
    replace k with (53 - d) by lia. replace (- (53 - d)) with (d - 53) by lia.
    exact Aligned.
  - (* the low bits are shifted out *)
    unfold binary_round_aux, shr_fexp. cbn [Zdigits2].
    rewrite shl_pos_digits by assumption. fold d.
    assert (F : fexp prec emax (d + k + - k) = d - 53).
    { unfold fexp, SpecFloat.emin, prec, emax. lia. }
    rewrite F. replace (d - 53 - - k) with (Zpos n) by lia.
    cbn [shr shr_record_of_loc].
    assert (S : shl_pos m k = Pos.iter xO (shl_pos m (53 - d)) n).
    { apply Pos2Z.inj. rewrite iter_xO_value, !shl_pos_value by lia.
      rewrite <- Z.mul_assoc, <- Z.pow_add_r by lia. do 2 f_equal. lia. }
    rewrite S, shr_exact.
    cbn [shr_m loc_of_shr_record round_nearest_even Zdigits2].
    rewrite shl_pos_digits by lia. fold d.
    assert (F2 : fexp prec emax (d + (53 - d) + (- k + Zpos n)) = - k + Zpos n).
    { unfold fexp, SpecFloat.emin, prec, emax. lia. }
    rewrite F2, Z.sub_diag. cbn [shr shr_record_of_loc shr_m].
    replace (- k + Zpos n <=? emax - prec) with true
      by (symmetry; apply Z.leb_le; unfold emax, prec; lia).
    unfold canonical. fold d. f_equal. lia.
Qed.

Lemma binary_round_exact s m k :
  Zpos m < 2 ^ 53 -> 0 <= k ->
  binary_round prec emax s (shl_pos m k) (- k) = canonical s m.
Proof.
  intros Hm Hk.
  pose proof (digits_le_53 m Hm) as Hd.
  assert (Hd1 : 1 <= Zpos (digits2_pos m)) by lia.
  unfold binary_round.
  rewrite shl_pos_digits by assumption.
  set (d := Zpos (digits2_pos m)) in *.
  assert (F : fexp prec emax (d + k + - k) = d - 53).
  { unfold fexp, SpecFloat.emin, prec, emax. lia. }
  rewrite F. unfold shl_align.
  destruct (d - 53 - - k) as [|n|n] eqn:E.
  - apply round_aux_exact; fold d; lia.
  - apply round_aux_exact; fold d; lia.
  - (* the mantissa is shifted left *)
    assert (S : Pos.iter xO (shl_pos m k) n = shl_pos m (53 - d)).
    { apply Pos2Z.inj. rewrite iter_xO_value, !shl_pos_value by lia.
      rewrite <- Z.mul_assoc, <- Z.pow_add_r by lia. do 2 f_equal. lia. }
    rewrite S. replace (d - 53) with (- (53 - d)) by lia.
    apply round_aux_exact; fold d; lia.
Qed.

Lemma normalize_exact c k :
  JS.safe c -> 0 <= k ->
  binary_normalize prec emax (c * 2 ^ k) (- k) false = Z2SF c.
Proof.
  intros Hc Hk. unfold JS.safe in Hc. destruct c as [|p|p].
  - reflexivity.
  - rewrite <- shl_pos_value by assumption. cbn [binary_normalize Z2SF].
    apply binary_round_exact; lia.
  - rewrite <- Pos2Z.opp_pos, Z.mul_opp_l, <- shl_pos_value by assumption.
    rewrite Pos2Z.opp_pos. cbn [binary_normalize Z2SF].
    apply binary_round_exact; lia.
Qed.

(** The double of a safe integer is that integer. *)
Lemma number_spec z : JS.safe z -> Prim2SF (JS.number z) = Z2SF z.
Proof.
  intros Hz. pose proof Hz as [Hl Hu]. unfold JS.number.
  assert (W : forall n, 0 <= n < 2 ^ 53 -> Uint63.to_Z (Uint63.of_Z n) = n).
  { intros n Hn. rewrite Uint63.of_Z_spec. apply Z.mod_small.
    change Uint63.wB with (2 ^ 63). assert (2 ^ 53 < 2 ^ 63) by reflexivity.
    lia. }
  destruct (Z.ltb_spec z 0) as [N|N].
  - rewrite FloatAxioms.opp_spec, of_uint63_spec, W by lia.
    replace (- z) with (- z * 2 ^ 0) at 1 by (rewrite Z.pow_0_r; lia).
    change 0 with (- 0) at 2.
    rewrite normalize_exact by (unfold JS.safe; lia).
    destruct z; try lia. reflexivity.
  - rewrite of_uint63_spec, W by lia.
    replace z with (z * 2 ^ 0) at 1 by (rewrite Z.pow_0_r; lia).
    change 0 with (- 0) at 1.
    now rewrite normalize_exact by (assumption || lia).
Qed.

Lemma shl_align_value m e ez :
  ez <= e -> Zpos (fst (shl_align m e ez)) = Zpos m * 2 ^ (e - ez).
Proof.
  intros H. unfold shl_align. destruct (ez - e) as [|d|d] eqn:E; cbn [fst].
  - replace (e - ez) with 0 by lia. rewrite Z.pow_0_r. lia.
  - lia.
  - rewrite iter_xO_value. do 2 f_equal. lia.
Qed.

(** The aligned, signed mantissa of the double of an integer. *)
Lemma canonical_aligned s p ez :
  Zpos p < 2 ^ 53 -> ez <= Zpos (digits2_pos p) - 53 ->
  cond_Zopp s (Zpos (fst (shl_align (shl_pos p (53 - Zpos (digits2_pos p)))
                                     (Zpos (digits2_pos p) - 53) ez)))
  = (if s then Zneg p else Zpos p) * 2 ^ (- ez).
Proof.
  intros Hp He. pose proof (digits_le_53 p Hp) as Hd.
  rewrite shl_align_value, shl_pos_value by lia.
  rewrite <- Z.mul_assoc, <- Z.pow_add_r by lia.
  replace (53 - Zpos (digits2_pos p) + (Zpos (digits2_pos p) - 53 - ez))
    with (- ez) by lia.
  destruct s; cbn [cond_Zopp]; [|reflexivity].
  rewrite <- Z.mul_opp_l. reflexivity.
Qed.

Lemma SFsub_exact a b :
  JS.safe a -> JS.safe b -> JS.safe (a - b) ->
  SF64sub (Z2SF a) (Z2SF b) = Z2SF (a - b).
Proof.
  intros Ha Hb Hc. unfold JS.safe in Ha, Hb.
  assert (Fin : forall (sa : bool) pa (sb : bool) pb,
    Zpos pa < 2 ^ 53 -> Zpos pb < 2 ^ 53 ->
    JS.safe ((if sa then Zneg pa else Zpos pa)
             - (if sb then Zneg pb else Zpos pb)) ->
    SF64sub (canonical sa pa) (canonical sb pb)
    = Z2SF ((if sa then Zneg pa else Zpos pa)
            - (if sb then Zneg pb else Zpos pb))).
  { intros sa pa sb pb Hpa Hpb Hs.
    pose proof (digits_le_53 pa Hpa). pose proof (digits_le_53 pb Hpb).
    unfold SF64sub, SFsub, canonical.
    set (ez := Z.min (Zpos (digits2_pos pa) - 53) (Zpos (digits2_pos pb) - 53)).
    rewrite !canonical_aligned by (assumption || unfold ez; lia).
    rewrite <- Z.mul_sub_distr_r.
    generalize (eq_refl : ez = ez). generalize ez at 1 4. intros e' He'.
    replace e' with (- - ez) by lia.
    apply normalize_exact; [assumption | unfold ez; lia]. }
  destruct a as [|pa|pa], b as [|pb|pb]; try reflexivity.
  - apply (Fin false pa false pb); try lia; assumption.
  - apply (Fin false pa true pb); try lia; assumption.
  - apply (Fin true pa false pb); try lia; assumption.
  - apply (Fin true pa true pb); try lia; assumption.
Qed.

Lemma number_sub a b :
  JS.safe a -> JS.safe b -> JS.safe (a - b) ->
  (JS.number a - JS.number b)%float = JS.number (a - b).
Proof.
  intros Ha Hb Hc. apply Prim2SF_inj.
  rewrite FloatAxioms.sub_spec, !number_spec by assumption.
  now apply SFsub_exact.
Qed.

Lemma canonical_compare p q :
  Zpos p < 2 ^ 53 -> Zpos q < 2 ^ 53 ->
  match Zpos (digits2_pos p) - 53 ?= Zpos (digits2_pos q) - 53 with
  | Lt => Lt
  | Gt => Gt
  | Eq => Pos.compare_cont Eq (shl_pos p (53 - Zpos (digits2_pos p)))
                              (shl_pos q (53 - Zpos (digits2_pos q)))
  end = (p ?= q)%positive.
Proof.
  intros Hp Hq.
  pose proof (digits_le_53 p Hp). pose proof (digits_le_53 q Hq).
  pose proof (digits_bounds p) as [Lp Up].
  pose proof (digits_bounds q) as [Lq Uq].
  destruct (Z.compare_spec (Zpos (digits2_pos p) - 53)
                           (Zpos (digits2_pos q) - 53)) as [E|L|G].
  - assert (E' : Zpos (digits2_pos p) = Zpos (digits2_pos q)) by lia.
    rewrite E'. change (Pos.compare_cont Eq ?a ?b) with (Zpos a ?= Zpos b).
    rewrite !shl_pos_value by lia.
    rewrite <- Zmult_compare_compat_r
      by (apply Z.lt_gt, Z.pow_pos_nonneg; lia).
    reflexivity.
  - symmetry. change ((Zpos p ?= Zpos q) = Lt). apply Z.compare_lt_iff.
    assert (2 ^ Zpos (digits2_pos p) <= 2 ^ (Zpos (digits2_pos q) - 1))
      by (apply Z.pow_le_mono_r; lia).
    lia.
  - symmetry. change ((Zpos p ?= Zpos q) = Gt). apply Z.compare_gt_iff.
    assert (2 ^ Zpos (digits2_pos q) <= 2 ^ (Zpos (digits2_pos p) - 1))
      by (apply Z.pow_le_mono_r; lia).
    lia.
Qed.

Lemma SFcompare_exact a b :
  JS.safe a -> JS.safe b -> SFcompare (Z2SF a) (Z2SF b) = Some (a ?= b).
Proof.
  intros Ha Hb. unfold JS.safe in Ha, Hb.
  destruct a as [|p|p], b as [|q|q]; try reflexivity.
  - cbn [Z2SF canonical SFcompare]. rewrite canonical_compare by lia.
    reflexivity.
  - cbn [Z2SF canonical SFcompare Z.compare].
    rewrite <- (canonical_compare p q) by lia.
    now destruct (Zpos (digits2_pos p) - 53 ?= Zpos (digits2_pos q) - 53).
Qed.

Lemma number_ltb a b :
  JS.safe a -> JS.safe b -> (JS.number a <? JS.number b)%float = (a <? b).
Proof.
  intros Ha Hb. rewrite FloatAxioms.ltb_spec, !number_spec by assumption.
  unfold SFltb. rewrite SFcompare_exact by assumption. reflexivity.
Qed.

Lemma number_leb a b :
  JS.safe a -> JS.safe b -> (JS.number a <=? JS.number b)%float = (a <=? b).
Proof.
  intros Ha Hb. rewrite FloatAxioms.leb_spec, !number_spec by assumption.
  unfold SFleb. rewrite SFcompare_exact by assumption.
  unfold Z.leb. now destruct (a ?= b).
Qed.


Lemma SFadd_exact a b :
  JS.safe a -> JS.safe b -> JS.safe (a + b) ->
  SF64add (Z2SF a) (Z2SF b) = Z2SF (a + b).
Proof.
  intros Ha Hb Hc. unfold JS.safe in Ha, Hb.
  assert (Fin : forall (sa : bool) pa (sb : bool) pb,
    Zpos pa < 2 ^ 53 -> Zpos pb < 2 ^ 53 ->
    JS.safe ((if sa then Zneg pa else Zpos pa)
             + (if sb then Zneg pb else Zpos pb)) ->
    SF64add (canonical sa pa) (canonical sb pb)
    = Z2SF ((if sa then Zneg pa else Zpos pa)
            + (if sb then Zneg pb else Zpos pb))).
  { intros sa pa sb pb Hpa Hpb Hs.
    pose proof (digits_le_53 pa Hpa). pose proof (digits_le_53 pb Hpb).
    unfold SF64add, SFadd, canonical.
    set (ez := Z.min (Zpos (digits2_pos pa) - 53) (Zpos (digits2_pos pb) - 53)).
    rewrite !canonical_aligned by (assumption || unfold ez; lia).
    rewrite <- Z.mul_add_distr_r.
    generalize (eq_refl : ez = ez). generalize ez at 1 4. intros e' He'.
    replace e' with (- - ez) by lia.
    apply normalize_exact; [assumption | unfold ez; lia]. }
  destruct a as [|pa|pa], b as [|pb|pb]; try reflexivity.
  - apply (Fin false pa false pb); try lia; assumption.
  - apply (Fin false pa true pb); try lia; assumption.
  - apply (Fin true pa false pb); try lia; assumption.
  - apply (Fin true pa true pb); try lia; assumption.
Qed.

Lemma number_add a b :
  JS.safe a -> JS.safe b -> JS.safe (a + b) ->
  (JS.number a + JS.number b)%float = JS.number (a + b).
Proof.
  intros Ha Hb Hc. apply Prim2SF_inj.
  rewrite FloatAxioms.add_spec, !number_spec by assumption.
  now apply SFadd_exact.
Qed.

Lemma number_abs a : JS.safe a -> PrimFloat.abs (JS.number a) = JS.number (Z.abs a).
Proof.
  intros Ha. apply Prim2SF_inj.
  rewrite FloatAxioms.abs_spec, !number_spec
    by (assumption || unfold JS.safe in *; lia).
  now destruct a.
Qed.

(** The product of two 53-bit mantissas: its low bits are zero. *)
Lemma canonical_mul s p q :
  Zpos (p * q) < 2 ^ 53 ->
  binary_round_aux prec emax s
    (Zpos (shl_pos p (53 - Zpos (digits2_pos p))
           * shl_pos q (53 - Zpos (digits2_pos q))))
    (Zpos (digits2_pos p) - 53 + (Zpos (digits2_pos q) - 53)) loc_Exact
  = canonical s (p * q).
Proof.
  intros H.
  assert (Hp : Zpos p < 2 ^ 53) by nia.
  assert (Hq : Zpos q < 2 ^ 53) by nia.
  pose proof (digits_le_53 p Hp). pose proof (digits_le_53 q Hq).
  pose proof (digits_bounds p) as [Lp _].
  pose proof (digits_bounds q) as [Lq _].
  pose proof (digits_bounds (p * q)) as [_ U].
  set (dp := Zpos (digits2_pos p)) in *.
  set (dq := Zpos (digits2_pos q)) in *.
  assert (D : dp + dq - 1 <= Zpos (digits2_pos (p * q))).
  { assert (L : 2 ^ (dp - 1) * 2 ^ (dq - 1) <= Zpos (p * q)).
    { rewrite Pos2Z.inj_mul. apply Z.mul_le_mono_nonneg; lia. }
    rewrite <- Z.pow_add_r in L by (unfold dp, dq; lia).
    destruct (Z_le_gt_dec (dp + dq - 1) (Zpos (digits2_pos (p * q))))
      as [|G]; [assumption|].
    assert (2 ^ Zpos (digits2_pos (p * q)) <= 2 ^ (dp - 1 + (dq - 1)))
      by (apply Z.pow_le_mono_r; lia).
    lia. }
  assert (S : (shl_pos p (53 - dp) * shl_pos q (53 - dq))%positive
              = shl_pos (p * q) (106 - dp - dq)).
  { apply Pos2Z.inj. rewrite Pos2Z.inj_mul, !shl_pos_value by lia.
    rewrite Pos2Z.inj_mul.
    replace (106 - dp - dq) with ((53 - dp) + (53 - dq)) by lia.
    rewrite Z.pow_add_r by lia. ring. }
  rewrite S.
  replace (dp - 53 + (dq - 53)) with (- (106 - dp - dq)) by lia.
  apply round_aux_exact; [assumption | lia | lia].
Qed.

Lemma number_mul a b :
  a <> 0 -> b <> 0 -> JS.safe (a * b) ->
  (JS.number a * JS.number b)%float = JS.number (a * b).
Proof.
  intros Na Nb Hc.
  assert (Ha : JS.safe a) by (unfold JS.safe in *; nia).
  assert (Hb : JS.safe b) by (unfold JS.safe in *; nia).
  apply Prim2SF_inj.
  rewrite FloatAxioms.mul_spec, !number_spec by assumption.
  unfold JS.safe in Hc.
  destruct a as [|p|p], b as [|q|q]; try contradiction;
    cbn [Z.mul Z2SF]; unfold canonical at 1 2, SF64mul, SFmul;
    apply canonical_mul; cbn [Z.mul] in Hc; lia.
Qed.

Lemma number_gt a b :
  JS.safe a -> JS.safe b -> JS.gt (JS.number a) (JS.number b) = (a >? b).
Proof.
  intros Ha Hb. unfold JS.gt. rewrite number_ltb by assumption.
  now rewrite Z.gtb_ltb.
Qed.

(* ================================================================== *)
(** ** Position clipping *)

Lemma getMousePosition_resolve e w :
  _getMousePosition e w = Normal (position e w) w.
Proof.
  unfold _getMousePosition, position, resolve, clip_axis, JS.ge.
  destruct (getPointerEvent e) as [cx cy]. reflexivity.
Qed.

Lemma clip_integer_range c lo extent :
  1 <= extent -> 0 <= clip_integer c lo (lo + extent) extent <= extent - 1.
Proof.
  intros H. unfold clip_integer.
  destruct (Z.ltb_spec c lo); [lia|].
  destruct (Z.leb_spec (lo + extent) c); lia.
Qed.

(** On safe integers the clipping of doubles is the clipping of
    integers. *)
Lemma clip_axis_integer c lo extent :
  JS.safe c -> JS.safe lo -> JS.safe (lo + extent) -> JS.safe extent ->
  1 <= extent ->
  clip_axis (JS.number c) (JS.number lo) (JS.number (lo + extent))
            (JS.number extent)
  = JS.number (clip_integer c lo (lo + extent) extent).
Proof.
  intros Hc Hlo Hhi Hext H1. unfold clip_axis, clip_integer.
  rewrite number_ltb, number_leb by assumption.
  unfold JS.safe in *.
  destruct (Z.ltb_spec c lo); [reflexivity|].
  destruct (Z.leb_spec (lo + extent) c).
  - change 1%float with (JS.number 1).
    apply number_sub; unfold JS.safe; lia.
  - apply number_sub; unfold JS.safe; lia.
Qed.

(** C4, counterexample: the resolved position need not lie in
    [0, extent - 1].  On a target of width 100 whose left edge is at
    10.5, a pointer at 110 is resolved to 99.5, which is more than 99;
    on a target of extent 0 a pointer at (5, 5) is resolved to
    (-1, -1). *)
Lemma getMousePosition_counterexample :
  let e := Sample.mouse_event "mousemove" 0 110 50 in
  let e0 := Sample.mouse_event "mousemove" 0 5 5 in
  (width (boundingClientRect (window fractional_target)) = 100%float /\
   _getMousePosition e fractional_target
   = Normal (mkPos 99.5 50) fractional_target /\
   (99.5 <=? 100 - 1)%float = false) /\
  (width (boundingClientRect (window empty_target)) = 0%float /\
   _getMousePosition e0 empty_target
   = Normal (mkPos (-1) (-1)) empty_target /\
   (0 <=? -1)%float = false).
Proof. repeat split. Qed.

(** C4, as amended: the resolved position is computed per axis, in
    double precision, as 0 when the client coordinate is below the
    bound's minimum, extent - 1 when it is at or beyond the bound's
    maximum, and the coordinate minus the minimum otherwise.  On an axis
    where the coordinate, the minimum and the extent are safe integers,
    the maximum is the minimum plus the extent, and the extent is at
    least 1, the resolved coordinate is an integer of [0, extent - 1]. *)
Theorem getMousePosition_clipped (e : Event) (w : World) :
  let bounds := boundingClientRect (window w) in
  let cx := fst (getPointerEvent e) in
  let cy := snd (getPointerEvent e) in
  exists p,
    _getMousePosition e w = Normal p w /\
    x p = (if cx <? left bounds then 0
           else if right bounds <=? cx then width bounds - 1
           else cx - left bounds)%float /\
    y p = (if cy <? top bounds then 0
           else if bottom bounds <=? cy then height bounds - 1
           else cy - top bounds)%float /\
    (forall c lo extent : Z,
       JS.safe c -> JS.safe lo -> JS.safe (lo + extent) -> JS.safe extent ->
       cx = JS.number c ->
       left bounds = JS.number lo ->
       right bounds = JS.number (lo + extent) ->
       width bounds = JS.number extent ->
       1 <= extent ->
       exists z, x p = JS.number z /\ 0 <= z <= extent - 1) /\
    (forall c lo extent : Z,
       JS.safe c -> JS.safe lo -> JS.safe (lo + extent) -> JS.safe extent ->
       cy = JS.number c ->
       top bounds = JS.number lo ->
       bottom bounds = JS.number (lo + extent) ->
       height bounds = JS.number extent ->
       1 <= extent ->
       exists z, y p = JS.number z /\ 0 <= z <= extent - 1).
Proof.
  intros bounds cx cy. exists (position e w).
  split; [apply getMousePosition_resolve|].
  unfold position, resolve. fold bounds.
  destruct (getPointerEvent e) as [ex ey] eqn:E. subst cx cy.
  cbn [fst snd x y].
  split; [reflexivity|]. split; [reflexivity|].
  split.
  - intros c lo extent Hc Hlo Hhi Hext -> -> -> -> H1.
    exists (clip_integer c lo (lo + extent) extent).
    split; [now apply clip_axis_integer | now apply clip_integer_range].
  - intros c lo extent Hc Hlo Hhi Hext -> -> -> -> H1.
    exists (clip_integer c lo (lo + extent) extent).
    split; [now apply clip_axis_integer | now apply clip_integer_range].
Qed.

Lemma getMousePosition_clipped_witness :
  exists p,
    _getMousePosition (Sample.mouse_event "mousemove" 0 900 (-3)) Sample.fresh
    = Normal p Sample.fresh /\
    (exists z, x p = JS.number z /\ 0 <= z <= 799) /\
    (exists z, y p = JS.number z /\ 0 <= z <= 599).
Proof.
  destruct (getMousePosition_clipped
              (Sample.mouse_event "mousemove" 0 900 (-3)) Sample.fresh)
    as [p [E [_ [_ [X Y]]]]].
  exists p. split; [exact E|]. split.
  - apply (X 900 0 800); unfold JS.safe; try reflexivity; lia.
  - apply (Y (-3) 0 600); unfold JS.safe; try reflexivity; lia.
Defined.

(* ================================================================== *)
(** ** The 32-bit operators *)

Lemma ToInt32_small z : - 2 ^ 31 <= z < 2 ^ 31 -> JS.ToInt32 z = z.
Proof. intros H. unfold JS.ToInt32. rewrite Z.mod_small; lia. Qed.

Lemma ToInt32_testbit z n : 0 <= n < 32 -> Z.testbit (JS.ToInt32 z) n = Z.testbit z n.
Proof.
  intros H. unfold JS.ToInt32.
  rewrite <- (Z.mod_pow2_bits_low _ 32 n) by lia.
  rewrite <- (Z.mod_pow2_bits_low z 32 n) by lia.
  f_equal.
  replace ((z + 2 ^ 31) mod 2 ^ 32 - 2 ^ 31)
    with ((z + 2 ^ 31) mod 2 ^ 32 + (-1) * 2 ^ 32 + 2 ^ 31) by lia.
  rewrite <- Z.add_mod_idemp_l by lia.
  rewrite Z.mod_add by lia.
  rewrite Z.mod_mod by lia.
  rewrite Z.add_mod_idemp_l by lia.
  replace (z + 2 ^ 31 + 2 ^ 31) with (z + 1 * 2 ^ 32) by lia.
  now rewrite Z.mod_add by lia.
Qed.

Lemma land_pow2 b j :
  0 <= j -> Z.land b (2 ^ j) = if Z.testbit b j then 2 ^ j else 0.
Proof.
  intros Hj. apply Z.bits_inj'. intros n Hn.
  rewrite Z.land_spec, Z.pow2_bits_eqb by lia.
  destruct (Z.eqb_spec j n) as [->|N].
  - destruct (Z.testbit b n); cbn.
    + now rewrite Z.pow2_bits_true.
    + now rewrite Z.bits_0.
  - rewrite andb_false_r.
    destruct (Z.testbit b j).
    + rewrite Z.pow2_bits_false; auto.
    + now rewrite Z.bits_0.
Qed.

(** [b & 2^j] for a bit below the sign bit. *)
Lemma and_pow2 b j :
  0 <= j < 31 -> JS.and b (2 ^ j) = if Z.testbit b j then 2 ^ j else 0.
Proof.
  intros Hj. unfold JS.and.
  assert (P : 0 < 2 ^ j < 2 ^ 31).
  { split; [apply Z.pow_pos_nonneg; lia | apply Z.pow_lt_mono_r; lia]. }
  rewrite (ToInt32_small (2 ^ j)) by lia.
  rewrite land_pow2 by lia.
  rewrite ToInt32_testbit by lia.
  destruct (Z.testbit b j); apply ToInt32_small; lia.
Qed.

(** The legacy decomposition of the source is the bit permutation of
    the specification; the division by 2 is exact. *)
Lemma legacy_expression b :
  JS.and b 1 + JS.and b 2 * 2 + JS.and b 4 / 2 = legacy_mask b /\
  (JS.and b 4) mod 2 = 0.
Proof.
  pose proof (and_pow2 b 0) as H0.
  pose proof (and_pow2 b 1) as H1.
  pose proof (and_pow2 b 2) as H2.
  change (2 ^ 0) with 1 in H0. change (2 ^ 1) with 2 in H1.
  change (2 ^ 2) with 4 in H2.
  rewrite H0, H1, H2 by lia. unfold legacy_mask.
  destruct (Z.testbit b 0), (Z.testbit b 1), (Z.testbit b 2); split; reflexivity.
Qed.

Lemma legacy_mask_bits b :
  Z.testbit (legacy_mask b) 0 = Z.testbit b 0 /\
  Z.testbit (legacy_mask b) 1 = Z.testbit b 2 /\
  Z.testbit (legacy_mask b) 2 = Z.testbit b 1 /\
  forall n, 3 <= n -> Z.testbit (legacy_mask b) n = false.
Proof.
  unfold legacy_mask.
  destruct (Z.testbit b 0), (Z.testbit b 1), (Z.testbit b 2);
    (repeat split; try reflexivity);
    intros n Hn; cbn [Z.b2z];
    (apply Z.bits_above_log2 || apply Z.bits_0); cbn; lia.
Qed.

(** [1 << n] for an index that does not reach the sign bit. *)
Lemma shl_1 n : 0 <= n <= 30 -> JS.shl 1 n = 2 ^ n.
Proof.
  intros H.
  assert (E : exists k : nat, (k <= 30)%nat /\ n = Z.of_nat k)
    by (exists (Z.to_nat n); lia).
  destruct E as [k [Hk ->]].
  do 31 (destruct k as [|k]; [reflexivity|]). lia.
Qed.

(* ================================================================== *)
(** ** The button handler in closed form *)

Arguments JS.shl : simpl never.
Arguments JS.and : simpl never.
Arguments JS.gt : simpl never.
Arguments touch_threshold : simpl never.
Arguments Z.mul : simpl never.
Arguments Z.add : simpl never.
Arguments Z.sub : simpl never.
Arguments Z.div : simpl never.

Lemma setTimeout_armed cb d w :
  setTimeout cb d w =
  Normal (timerId (next_timer_id (window w)))
         (mkWorld (this w) (armed cb d (window w)) (trace w)).
Proof. reflexivity. Qed.

Lemma clearTimeout_cleared h w :
  clearTimeout h w = Normal tt (mkWorld (this w) (cleared h (window w)) (trace w)).
Proof. destruct w, h; reflexivity. Qed.

Lemma touch_press_idle pos w :
  _doubleClickTimer (this w) = null ->
  touch_press pos w =
  Normal pos
    (mkWorld (with_doubleClickTimer (timerId (next_timer_id (window w)))
                (with_lastTouchPos (Some pos) (this w)))
             (armed ResetDoubleClickTimer 500 (window w)) (trace w)).
Proof.
  intros H. unfold touch_press, bind, get_this. rewrite H. reflexivity.
Qed.

Lemma touch_press_pending pos w last :
  _doubleClickTimer (this w) <> null ->
  _lastTouchPos (this w) = Some last ->
  touch_press pos w =
  Normal (snap last pos (window w))
    (mkWorld (with_doubleClickTimer (timerId (next_timer_id (window w))) (this w))
             (armed ResetDoubleClickTimer 500
                (cleared (_doubleClickTimer (this w)) (window w)))
             (trace w)).
Proof.
  intros H L. destruct w as [m g tr]. cbn in *.
  unfold touch_press, bind, get_this. cbn [this].
  destruct (_doubleClickTimer m) as [| |id] eqn:E; [|congruence|];
    rewrite L; unfold snap, touch_threshold; cbn;
    match goal with |- context [(?a <? ?t)%float] => destruct (a <? t)%float end;
    reflexivity.
Qed.

Lemma report_button (registered : bool) p down bmask e w :
  _onMouseButton (this w) = registered ->
  ((m <- get_this ;;
    (if _onMouseButton m then
       effect (LogDebug down (x p) (y p) bmask) ;;
       call_onMouseButton (x p) (y p) down bmask
     else ret tt) ;;
    stopEvent e) w)
  = Normal tt (add_effects (button_effects registered p down bmask e) w).
Proof.
  intros H. destruct w as [m g tr]. cbn in H.
  unfold bind, get_this, call_onMouseButton, stopEvent, effect, ret,
    add_effects, button_effects.
  cbn. subst registered.
  destruct (_onMouseButton m) eqn:E; cbn; rewrite ?E; cbn;
    rewrite <- ?app_assoc; reflexivity.
Qed.

Lemma handleMouseButton_focused e down w :
  _focused (this w) = true ->
  _handleMouseButton e down w =
  if is_touch e then
    if down =? 1 then
      match touch_press (position e w) w with
      | Normal p w1 =>
          Normal tt
            (add_effects
               (button_effects (_onMouseButton (this w1)) p down
                               (_touchButton (this w1)) e) w1)
      | Throw err w1 => Throw err w1
      end
    else
      Normal tt
        (add_effects
           (button_effects (_onMouseButton (this w)) (position e w) down
                           (_touchButton (this w)) e) w)
  else
    Normal tt
      (add_effects
         (button_effects (_onMouseButton (this w)) (position e w) down
                         (encode (_touchButton (this w)) e) e) w).
Proof.
  intros F. unfold _handleMouseButton.
  unfold bind at 1. unfold get_this at 1. rewrite F. cbn [negb].
  unfold bind at 1. rewrite getMousePosition_resolve.
  unfold encode, is_touch.
  destruct (JS.truthy_obj (touches e) || JS.truthy_obj (changedTouches e)).
  - destruct (down =? 1).
    + unfold bind at 1. unfold bind at 1. unfold bind at 1.
      destruct (touch_press (position e w) w) as [p w1|err w1]; [|reflexivity].
      unfold get_this at 1. unfold ret at 1. cbn iota beta.
      now apply report_button.
    + unfold bind at 1. unfold bind at 1. unfold bind at 1.
      unfold ret at 1. unfold get_this at 1. unfold ret at 1. cbn iota beta.
      now apply report_button.
  - destruct (legacy_expression (button e)) as [L _].
    destruct (JS.truthy_num (which e)).
    + unfold bind at 1. unfold ret at 1. cbn iota beta.
      now apply report_button.
    + unfold bind at 1. unfold ret at 1. cbn iota beta. rewrite L.
      now apply report_button.
Qed.

(* ================================================================== *)
(** ** Button mask encoding *)

Lemma touch_press_ready pos w :
  touch_ready (this w) ->
  exists p w1,
    touch_press pos w = Normal p w1 /\
    _onMouseButton (this w1) = _onMouseButton (this w) /\
    _touchButton (this w1) = _touchButton (this w) /\
    trace w1 = trace w.
Proof.
  intros R.
  destruct (_doubleClickTimer (this w)) eqn:E.
  - destruct R as [R|[last L]]; [congruence|].
    eexists _, _. split; [apply (touch_press_pending pos w last); congruence|].
    repeat split.
  - eexists _, _. split; [now apply touch_press_idle|]. repeat split.
  - destruct R as [R|[last L]]; [congruence|].
    eexists _, _. split; [apply (touch_press_pending pos w last); congruence|].
    repeat split.
Qed.

(** C2: the mask handed to the button callback is the encoding of the
    specification: the configured [touchButton] for a touch-sourced
    event; else [1 << button] when the event has a (truthy) [which], with
    left, middle and right on bits 0, 1 and 2; else the legacy bitfield
    with output bit 0 = legacy bit 0, output bit 1 = legacy bit 2 and
    output bit 2 = legacy bit 1. *)
Theorem button_mask_encoding (e : Event) (down : Z) (w : World)
    (Hfocus : _focused (this w) = true)
    (Hregistered : _onMouseButton (this w) = true)
    (Hready : touch_ready (this w)) :
  let bmask :=
    if is_touch e then _touchButton (this w)
    else if JS.truthy_num (which e) then JS.shl 1 (button e)
    else legacy_mask (button e) in
  (exists p w',
     _handleMouseButton e down w = Normal tt w' /\
     trace w' =
     trace w ++ [LogDebug down (x p) (y p) bmask;
                 OnMouseButton (x p) (y p) down bmask; StopEvent e]) /\
  (JS.shl 1 0 = 1 /\ JS.shl 1 1 = 2 /\ JS.shl 1 2 = 4) /\
  (Z.testbit (legacy_mask (button e)) 0 = Z.testbit (button e) 0 /\
   Z.testbit (legacy_mask (button e)) 1 = Z.testbit (button e) 2 /\
   Z.testbit (legacy_mask (button e)) 2 = Z.testbit (button e) 1 /\
   forall n, 3 <= n -> Z.testbit (legacy_mask (button e)) n = false).
Proof.
  intros bmask. split; [|split; [repeat split | apply legacy_mask_bits]].
  rewrite handleMouseButton_focused by assumption.
  subst bmask. unfold encode.
  destruct (is_touch e).
  - destruct (down =? 1).
    + destruct (touch_press_ready (position e w) w Hready)
        as [p [w1 [E [B [T Tr]]]]].
      rewrite E, B, T, Hregistered.
      exists p, (add_effects
                   (button_effects true p down (_touchButton (this w)) e) w1).
      split; [reflexivity|]. cbn. now rewrite Tr.
    + rewrite Hregistered. eexists _, _. split; reflexivity.
  - rewrite Hregistered. eexists _, _. split; reflexivity.
Qed.

Lemma button_mask_encoding_witness :
  exists p w',
    _handleMouseButton (Sample.legacy_event "mousedown" 2 5 5) 1 Sample.fresh
    = Normal tt w' /\
    trace w' =
    [LogDebug 1 (x p) (y p) 4; OnMouseButton (x p) (y p) 1 4;
     StopEvent (Sample.legacy_event "mousedown" 2 5 5)].
Proof.
  destruct (button_mask_encoding (Sample.legacy_event "mousedown" 2 5 5) 1
              Sample.fresh) as [H _].
  - reflexivity.
  - reflexivity.
  - left. reflexivity.
  - exact H.
Defined.

(** C7: with [touchButton] 0 a touch press still reaches the registered
    button callback, with mask 0. *)
Lemma touch_button_zero_reported :
  _touchButton (this touch_disabled) = 0 /\
  exists w',
    _handleMouseDown (Sample.touch_event "touchstart" 100 100) touch_disabled
    = Normal tt w' /\
    button_calls (trace w') = [OnMouseButton 100 100 1 0].
Proof. split; [reflexivity|]. eexists. split; reflexivity. Qed.

(* ================================================================== *)
(** ** The touch double-tap merger *)




(* ================================================================== *)
(** ** The wheel handler in closed form *)

Lemma generateWheelStepX_registered w p :
  _onMouseButton (this w) = true ->
  _wheelPos (this w) = Some p ->
  _generateWheelStepX w =
  Normal tt
    (mkWorld (with_accumulatedWheelDeltaX 0 (this w)) (window w)
       (trace w ++ wheel_step_effects 5 6 p (_accumulatedWheelDeltaX (this w)))).
Proof.
  intros R P. destruct w as [m g tr]. cbn in *.
  unfold _generateWheelStepX, wheel_step_effects, bind, get_this,
    call_onMouseButton, effect, update_this, deref, ret.
  cbn. rewrite P.
  destruct (_accumulatedWheelDeltaX m <? 0)%float; cbn.
  - rewrite R. cbn. rewrite R. cbn. now rewrite <- app_assoc.
  - destruct (JS.gt (_accumulatedWheelDeltaX m) 0); cbn.
    + rewrite R. cbn. rewrite R. cbn. now rewrite <- app_assoc.
    + now rewrite app_nil_r.
Qed.

Lemma generateWheelStepY_registered w p :
  _onMouseButton (this w) = true ->
  _wheelPos (this w) = Some p ->
  _generateWheelStepY w =
  Normal tt
    (mkWorld (with_accumulatedWheelDeltaY 0 (this w)) (window w)
       (trace w ++ wheel_step_effects 3 4 p (_accumulatedWheelDeltaY (this w)))).
Proof.
  intros R P. destruct w as [m g tr]. cbn in *.
  unfold _generateWheelStepY, wheel_step_effects, bind, get_this,
    call_onMouseButton, effect, update_this, deref, ret.
  cbn. rewrite P.
  destruct (_accumulatedWheelDeltaY m <? 0)%float; cbn.
  - rewrite R. cbn. rewrite R. cbn. now rewrite <- app_assoc.
  - destruct (JS.gt (_accumulatedWheelDeltaY m) 0); cbn.
    + rewrite R. cbn. rewrite R. cbn. now rewrite <- app_assoc.
    + now rewrite app_nil_r.
Qed.

Lemma generateWheelStepX_zero w :
  _accumulatedWheelDeltaX (this w) = 0%float ->
  _generateWheelStepX w =
  Normal tt (mkWorld (with_accumulatedWheelDeltaX 0 (this w)) (window w) (trace w)).
Proof.
  intros Z0. destruct w as [m g tr]. cbn in *.
  unfold _generateWheelStepX, bind, get_this. cbn. now rewrite Z0.
Qed.

Lemma generateWheelStepY_zero w :
  _accumulatedWheelDeltaY (this w) = 0%float ->
  _generateWheelStepY w =
  Normal tt (mkWorld (with_accumulatedWheelDeltaY 0 (this w)) (window w) (trace w)).
Proof.
  intros Z0. destruct w as [m g tr]. cbn in *.
  unfold _generateWheelStepY, bind, get_this. cbn. now rewrite Z0.
Qed.

Lemma resetWheelStepTimers_closed w :
  _resetWheelStepTimers w =
  Normal tt
    (mkWorld (with_wheelStepYTimer null (with_wheelStepXTimer null (this w)))
       (cleared (_wheelStepYTimer (this w))
          (cleared (_wheelStepXTimer (this w)) (window w)))
       (trace w)).
Proof.
  destruct w as [m g tr]. unfold _resetWheelStepTimers, bind, get_this.
  cbn [this]. rewrite clearTimeout_cleared. cbn [this window trace].
  now rewrite clearTimeout_cleared.
Qed.

Lemma bounds_cleared h g :
  boundingClientRect (cleared h g) = boundingClientRect g.
Proof. destruct h; reflexivity. Qed.

Lemma position_bounds e w w' :
  boundingClientRect (window w) = boundingClientRect (window w') ->
  position e w = position e w'.
Proof. intros H. unfold position. now rewrite H. Qed.

Lemma handleMouseWheel_closed e w :
  _focused (this w) = true ->
  _onMouseButton (this w) = true ->
  _handleMouseWheel e w =
  Normal tt
    (record_effect (StopEvent e)
       (wheel_y (position e w) (wheel_x (position e w) (wheel_accumulated e w)))).
Proof.
  intros F R. unfold _handleMouseWheel.
  unfold bind at 1. unfold get_this at 1. rewrite F, R. cbn [negb orb].
  unfold bind at 1. rewrite resetWheelStepTimers_closed.
  unfold bind at 1. rewrite getMousePosition_resolve.
  rewrite (position_bounds e _ w)
    by (cbn [window]; now rewrite !bounds_cleared).
  unfold bind at 1. unfold update_this at 1.
  unfold bind at 1. unfold update_this at 1.
  unfold bind at 1. unfold update_this at 1.
  unfold bind at 1. unfold get_this at 1.
  cbn [this window trace]. fold (normalized e (deltaX e)).
  fold (normalized e (deltaY e)).
  match goal with
  | |- context [bind _ _ ?w1] => change w1 with (wheel_accumulated e w)
  end.
  set (w1 := wheel_accumulated e w).
  assert (R1 : _onMouseButton (this w1) = true) by exact R.
  assert (P1 : _wheelPos (this w1) = Some (position e w)) by reflexivity.
  change (_accumulatedWheelDeltaX _) with (_accumulatedWheelDeltaX (this w1)).
  assert (X : exists w2, w2 = wheel_x (position e w) w1 /\
     _onMouseButton (this w2) = true /\
     _wheelPos (this w2) = Some (position e w)).
  { eexists. split; [reflexivity|]. unfold wheel_x.
    destruct (JS.gt _ _); split; assumption. }
  destruct X as [w2 [E2 [R2 P2]]].
  unfold bind at 1.
  replace ((if JS.gt (PrimFloat.abs (_accumulatedWheelDeltaX (this w1))) WHEEL_STEP
            then _generateWheelStepX
            else h <- setTimeout GenerateWheelStepX WHEEL_STEP_TIMEOUT ;;
                 update_this (with_wheelStepXTimer h)) w1)
    with (Normal tt w2).
  2:{ subst w2. unfold wheel_x.
      destruct (JS.gt _ _).
      - now rewrite (generateWheelStepX_registered w1 (position e w)).
      - reflexivity. }
  unfold bind at 1. unfold get_this at 1.
  unfold bind at 1.
  replace ((if JS.gt (PrimFloat.abs (_accumulatedWheelDeltaY (this w2))) WHEEL_STEP
            then _generateWheelStepY
            else h <- setTimeout GenerateWheelStepY WHEEL_STEP_TIMEOUT ;;
                 update_this (with_wheelStepYTimer h)) w2)
    with (Normal tt (wheel_y (position e w) w2)).
  2:{ unfold wheel_y.
      destruct (JS.gt _ _).
      - now rewrite (generateWheelStepY_registered w2 (position e w)).
      - reflexivity. }
  subst w2. reflexivity.
Qed.

(* ================================================================== *)
(** ** Closed runs *)

(** C3, counterexample: [ungrab] after a touch press and a small wheel
    delta leaves the double-tap timer armed and the accumulated delta
    at 5. *)
Lemma ungrab_counterexample :
  exists w',
    ungrab tap_then_wheel = Normal tt w' /\
    pending (window w') = [mkTimer 1 500 ResetDoubleClickTimer] /\
    _doubleClickTimer (this w') = timerId 1 /\
    _accumulatedWheelDeltaX (this w') = 5%float /\
    (_accumulatedWheelDeltaX (this w') =? 0)%float = false.
Proof.
  exists (world_of (ungrab tap_then_wheel)).
  split; [vm_compute; reflexivity|]. repeat split.
Qed.

(** C1, counterexample: a single wheel event that brings the
    accumulated X delta to exactly 10 emits nothing; it arms the flush
    timer, nothing has fired 49 ms later, and the step fires when the 50
    ms have elapsed. *)
Lemma wheel_threshold_counterexample :
  exists w',
    _handleMouseWheel (Sample.wheel_event 10 0 0) Sample.fresh = Normal tt w' /\
    _accumulatedWheelDeltaX (this w') = WHEEL_STEP /\
    button_calls (trace w') = [] /\
    pending (window w') =
      [mkTimer 1 50 GenerateWheelStepX; mkTimer 2 50 GenerateWheelStepY] /\
    button_calls (trace (elapse 49 w')) = [] /\
    button_calls (trace (elapse 50 w')) =
      [OnMouseButton 100 100 1 64; OnMouseButton 100 100 0 64].
Proof.
  exists (world_of (_handleMouseWheel (Sample.wheel_event 10 0 0) Sample.fresh)).
  split; [vm_compute; reflexivity|]. repeat split.
Qed.

(** C6, counterexample: when the double-tap timer of a press at
    (100, 100) fires, the timer field is reset and the recorded last
    position is still (100, 100). *)
Lemma double_tap_expiry_counterexample :
  let w := after_expiry in
  _doubleClickTimer (this w) = null /\
  pending (window w) = [] /\
  _lastTouchPos (this w) = Some (mkPos 100 100) /\
  _lastTouchPos (this w) <> None.
Proof. cbv zeta. repeat split. discriminate. Qed.

(* ================================================================== *)
(** ** Frames *)

Section Preserves.

Context {A : Type} (f : World -> A).

Lemma preserves_ret {B : Type} (b : B) : preserves f (ret b).
Proof. intros w. reflexivity. Qed.

Lemma preserves_throw {B : Type} err : preserves f (@throw B err).
Proof. intros w. reflexivity. Qed.

Lemma preserves_get_this : preserves f get_this.
Proof. intros w. reflexivity. Qed.

Lemma preserves_get_window : preserves f get_window.
Proof. intros w. reflexivity. Qed.

Lemma preserves_deref {B : Type} fld (v : option B) : preserves f (deref fld v).
Proof. destruct v; intros w; reflexivity. Qed.

Lemma preserves_bind {B C : Type} (m : Js B) (k : B -> Js C) :
  preserves f m -> (forall b, preserves f (k b)) -> preserves f (bind m k).
Proof.
  intros Hm Hk w. unfold bind. specialize (Hm w).
  destruct (m w) as [b w'|err w']; cbn in Hm.
  - now rewrite Hk.
  - exact Hm.
Qed.

Lemma preserves_update_this g :
  (forall w, f (mkWorld (g (this w)) (window w) (trace w)) = f w) ->
  preserves f (update_this g).
Proof. intros H w. apply H. Qed.

Lemma preserves_effect ev :
  (forall w, f (record_effect ev w) = f w) -> preserves f (effect ev).
Proof. intros H w. apply H. Qed.

End Preserves.

Lemma steps_app ax tr l : steps ax (tr ++ l) = steps ax tr ++ steps ax l.
Proof. apply filter_app. Qed.

Lemma axis_view_record ax ev w :
  is_step ax ev = false -> axis_view ax (record_effect ev w) = axis_view ax w.
Proof.
  intros H. unfold axis_view, record_effect. cbn [this trace].
  rewrite steps_app. cbn. rewrite H. now rewrite app_nil_r.
Qed.

Ltac preserves_step :=
  first
    [ apply preserves_ret | apply preserves_throw | apply preserves_get_this
    | apply preserves_get_window | apply preserves_deref
    | apply preserves_update_this; solve [intros; reflexivity]
    | apply preserves_effect;
      solve [intros; reflexivity | intros; apply axis_view_record; reflexivity]
    | apply preserves_bind; [ | intros ? ]
    | match goal with
      | |- preserves _ (if ?c then _ else _) => destruct c
      | |- preserves _ (match ?c with _ => _ end) => destruct c
      | |- preserves _ (let (_, _) := ?c in _) => destruct c
      end ].

Lemma steps_of_same ax p a :
  steps ax (step_effects ax p a) = step_effects ax p a.
Proof.
  unfold step_effects, wheel_step_effects.
  destruct ax; (destruct (a <? 0)%float; [reflexivity|]);
    destruct (JS.gt a 0); reflexivity.
Qed.

Lemma steps_of_other ax ax' p a :
  ax <> ax' -> steps ax (step_effects ax' p a) = [].
Proof.
  intros N. unfold step_effects, wheel_step_effects.
  destruct ax, ax'; try congruence;
    (destruct (a <? 0)%float; [reflexivity|]); destruct (JS.gt a 0); reflexivity.
Qed.

(** The timer functions leave the host as it is. *)
Lemma fire_window cb : preserves window (fire cb).
Proof.
  destruct cb; cbn [fire];
    unfold _resetDoubleClickTimer, _generateWheelStepX, _generateWheelStepY,
      call_onMouseButton;
    repeat preserves_step.
Qed.

(** Only the flush of an axis touches that axis. *)
Lemma fire_axis_view ax cb :
  cb <> flush_callback ax -> preserves (axis_view ax) (fire cb).
Proof.
  intros N. destruct ax, cb; cbn in N; try congruence; cbn [fire];
    unfold _resetDoubleClickTimer, _generateWheelStepX, _generateWheelStepY,
      call_onMouseButton;
    repeat preserves_step.
Qed.

(* ================================================================== *)
(** ** The timer queue *)

Lemma cancel_In id l tm :
  In tm (cancel id l) <-> In tm l /\ timer_id tm <> id.
Proof.
  unfold cancel. rewrite filter_In, negb_true_iff, Z.eqb_neq. reflexivity.
Qed.

Lemma cancel_length id l : (List.length (cancel id l) <= List.length l)%nat.
Proof. apply filter_length_le. Qed.

Lemma cancel_length_lt tm l :
  In tm l -> (List.length (cancel (timer_id tm) l) < List.length l)%nat.
Proof.
  induction l as [|a l IH]; [intros []|].
  pose proof (cancel_length (timer_id tm) l) as L.
  unfold cancel in *.
  intros [->|H]; cbn [filter List.length].
  - rewrite Z.eqb_refl. cbn [negb]. lia.
  - specialize (IH H). destruct (negb _); cbn [List.length]; lia.
Qed.

Lemma cancel_NoDup id l :
  NoDup (map timer_id l) -> NoDup (map timer_id (cancel id l)).
Proof.
  induction l as [|a l IH]; cbn; [auto|].
  intros H. inversion H as [|? ? Hn Hd]; subst.
  destruct (negb (timer_id a =? id)); cbn; [|auto].
  constructor; [|auto].
  intros I. apply Hn. apply in_map_iff in I. destruct I as [tm [E I]].
  apply cancel_In in I. apply in_map_iff. exists tm. tauto.
Qed.

Lemma NoDup_timer_id l tm tm' :
  NoDup (map timer_id l) -> In tm l -> In tm' l ->
  timer_id tm = timer_id tm' -> tm = tm'.
Proof.
  induction l as [|a l IH]; [intros _ []|].
  cbn. intros H. inversion H as [|? ? Hn Hd]; subst.
  intros [->|I] [->|I'] E; auto.
  - exfalso. apply Hn. rewrite E. now apply in_map.
  - exfalso. apply Hn. rewrite <- E. now apply in_map.
Qed.

Lemma earliest_In l tm : earliest l = Some tm -> In tm l.
Proof.
  revert tm. induction l as [|a l IH]; cbn; [discriminate|].
  intros tm. destruct (earliest l) as [tm'|].
  - destruct (timer_due a <=? timer_due tm'); intros [= <-]; auto.
  - intros [= <-]. auto.
Qed.

Lemma earliest_le l tm :
  earliest l = Some tm -> forall tm', In tm' l -> timer_due tm <= timer_due tm'.
Proof.
  revert tm. induction l as [|a l IH]; cbn; [discriminate|].
  intros tm. destruct (earliest l) as [t0|] eqn:E.
  - specialize (IH t0 eq_refl).
    destruct (Z.leb_spec (timer_due a) (timer_due t0));
      intros [= <-] tm' [<-|I]; try lia.
    + specialize (IH tm' I). lia.
    + now apply IH.
  - intros [= <-] tm' [<-|I]; [lia|].
    destruct l; [destruct I|]. cbn in E. destruct (earliest l); [|discriminate].
    destruct (_ <=? _); discriminate.
Qed.

Lemma earliest_exists l tm : In tm l -> exists tm', earliest l = Some tm'.
Proof.
  destruct l as [|a l]; [intros []|]. intros _. cbn.
  destruct (earliest l) as [t0|]; [|eauto].
  destruct (_ <=? _); eauto.
Qed.

Lemma next_due_Some until l tm :
  next_due until l = Some tm ->
  In tm l /\ timer_due tm <= until /\
  forall tm', In tm' l -> timer_due tm <= timer_due tm'.
Proof.
  unfold next_due. destruct (earliest l) as [t0|] eqn:E; [|discriminate].
  destruct (Z.leb_spec (timer_due t0) until); [|discriminate].
  intros [= <-]. split; [now apply earliest_In|]. split; [assumption|].
  now apply earliest_le.
Qed.

Lemma next_due_None until l tm :
  next_due until l = None -> In tm l -> until < timer_due tm.
Proof.
  unfold next_due. intros H I.
  destruct (earliest_exists l tm I) as [t0 E]. rewrite E in H.
  pose proof (earliest_le l t0 E tm I).
  destruct (Z.leb_spec (timer_due t0) until); [discriminate|lia].
Qed.

Lemma next_due_exists until l tm :
  In tm l -> timer_due tm <= until -> exists tm', next_due until l = Some tm'.
Proof.
  intros I D. unfold next_due.
  destruct (earliest_exists l tm I) as [t0 E]. rewrite E.
  pose proof (earliest_le l t0 E tm I).
  destruct (Z.leb_spec (timer_due t0) until); [eauto|lia].
Qed.

Lemma run_timers_unfold fuel until w :
  run_timers (S fuel) until w =
  match next_due until (pending (window w)) with
  | None => w
  | Some tm => run_timers fuel until (fire_timer tm w)
  end.
Proof. reflexivity. Qed.

(* ================================================================== *)
(** ** One firing *)

Lemma turn_this_window m w :
  this (turn m w) = this (world_of (m w)) /\
  window (turn m w) = window (world_of (m w)).
Proof. unfold turn. destruct (m w); split; reflexivity. Qed.

Lemma turn_axis_view ax m w :
  axis_view ax (turn m w) = axis_view ax (world_of (m w)).
Proof.
  unfold turn. destruct (m w) as [[] w'|err w']; [reflexivity|].
  cbn [world_of]. apply (axis_view_record ax (Uncaught err) w'). reflexivity.
Qed.

Lemma fire_timer_window tm w :
  window (fire_timer tm w) =
  with_now (Z.max (now (window w)) (timer_due tm))
    (with_pending (cancel (timer_id tm) (pending (window w))) (window w)).
Proof.
  unfold fire_timer.
  destruct (turn_this_window (fire (timer_callback tm))
              (mkWorld (this w)
                 (with_now (Z.max (now (window w)) (timer_due tm))
                    (with_pending (cancel (timer_id tm) (pending (window w)))
                       (window w)))
                 (trace w))) as [_ ->].
  now rewrite fire_window.
Qed.

Lemma fire_timer_axis_view ax tm w :
  timer_callback tm <> flush_callback ax ->
  axis_view ax (fire_timer tm w) = axis_view ax w.
Proof.
  intros N. unfold fire_timer. rewrite turn_axis_view.
  now rewrite (fire_axis_view ax (timer_callback tm) N).
Qed.

(** What a firing does to the handles: the double-tap timer resets its
    own field, the flushes leave theirs. *)
Lemma fire_owner cb cb' w :
  owner (this (world_of (fire cb w))) cb' =
  match cb, cb' with
  | ResetDoubleClickTimer, ResetDoubleClickTimer => null
  | _, _ => owner (this w) cb'
  end.
Proof.
  destruct cb.
  - destruct cb'; reflexivity.
  - transitivity (owner (this w) cb'); [|now destruct cb'].
    revert w.
    change (preserves (fun w => owner (this w) cb') (fire GenerateWheelStepX)).
    cbn [fire]. unfold _generateWheelStepX, call_onMouseButton.
    destruct cb'; repeat preserves_step.
  - transitivity (owner (this w) cb'); [|now destruct cb'].
    revert w.
    change (preserves (fun w => owner (this w) cb') (fire GenerateWheelStepY)).
    cbn [fire]. unfold _generateWheelStepY, call_onMouseButton.
    destruct cb'; repeat preserves_step.
Qed.

Lemma fire_timer_owned tm w :
  timers_owned w -> In tm (pending (window w)) -> timers_owned (fire_timer tm w).
Proof.
  intros [ND O] I. unfold timers_owned.
  rewrite fire_timer_window. cbn [pending next_timer_id with_now with_pending].
  split; [now apply cancel_NoDup|].
  intros tm' I'. apply cancel_In in I'. destruct I' as [I' N].
  destruct (O tm' I') as [Otm' B]. split; [|assumption].
  unfold fire_timer.
  match goal with
  | |- owner (this (turn ?m ?w0)) _ = _ =>
      destruct (turn_this_window m w0) as [-> _]
  end.
  rewrite fire_owner. cbn [this].
  destruct (O tm I) as [Otm _].
  destruct (timer_callback tm), (timer_callback tm'); try assumption.
  exfalso. apply N. cbn in Otm, Otm'. congruence.
Qed.

(** The flush of an axis, fired with the callback registered: the step
    of the accumulated delta is emitted and the delta reset. *)
Lemma fire_timer_flush ax tm w p :
  timer_callback tm = flush_callback ax ->
  _onMouseButton (this w) = true ->
  _wheelPos (this w) = Some p ->
  accumulated ax (this (fire_timer tm w)) = 0%float /\
  steps ax (trace (fire_timer tm w)) =
    steps ax (trace w) ++ step_effects ax p (accumulated ax (this w)).
Proof.
  intros C R P. unfold fire_timer, turn. rewrite C.
  destruct ax; cbn [flush_callback fire].
  - rewrite (generateWheelStepX_registered _ p) by assumption.
    split; [reflexivity|]. cbn [trace this accumulated].
    rewrite steps_app. f_equal. apply (steps_of_same AxisX).
  - rewrite (generateWheelStepY_registered _ p) by assumption.
    split; [reflexivity|]. cbn [trace this accumulated].
    rewrite steps_app. f_equal. apply (steps_of_same AxisY).
Qed.

(* ================================================================== *)
(** ** Letting time pass *)

Lemma axis_view_eq ax w w' :
  axis_view ax w' = axis_view ax w ->
  accumulated ax (this w') = accumulated ax (this w) /\
  _wheelPos (this w') = _wheelPos (this w) /\
  flush_timer ax (this w') = flush_timer ax (this w) /\
  _focused (this w') = _focused (this w) /\
  _onMouseButton (this w') = _onMouseButton (this w) /\
  steps ax (trace w') = steps ax (trace w).
Proof. unfold axis_view. intros [= -> -> -> -> -> ->]. repeat split. Qed.

Lemma owner_flush ax m : owner m (flush_callback ax) = flush_timer ax m.
Proof. now destruct ax. Qed.

Lemma quiet_of_flush ax t until w :
  timers_owned w -> flush_at ax t w -> until < t -> quiet ax until w.
Proof.
  intros [ND O] [id [H I]] L tm Itm C.
  destruct (O tm Itm) as [Otm _]. rewrite C, owner_flush in Otm.
  assert (E : timer_id tm = id) by congruence.
  rewrite (NoDup_timer_id _ tm _ ND Itm I E). exact L.
Qed.

(** While no flush of the axis is due, the firings leave the axis alone
    and its armed flush in place. *)
Lemma run_timers_quiet ax fuel until w :
  timers_owned w -> quiet ax until w ->
  timers_owned (run_timers fuel until w) /\
  axis_view ax (run_timers fuel until w) = axis_view ax w /\
  forall tm, timer_callback tm = flush_callback ax ->
             In tm (pending (window w)) ->
             In tm (pending (window (run_timers fuel until w))).
Proof.
  revert w. induction fuel as [|fuel IH]; intros w Ow Q; [cbn; auto|].
  rewrite run_timers_unfold.
  destruct (next_due until (pending (window w))) as [tm|] eqn:E; [|auto].
  apply next_due_Some in E. destruct E as [I [D _]].
  assert (N : timer_callback tm <> flush_callback ax).
  { intros C. specialize (Q tm I C). lia. }
  pose proof (fire_timer_owned tm w Ow I) as O1.
  assert (Q1 : quiet ax until (fire_timer tm w)).
  { intros tm' I' C'. rewrite fire_timer_window in I'. cbn in I'.
    apply cancel_In in I'. apply Q; tauto. }
  destruct (IH (fire_timer tm w) O1 Q1) as [O2 [V2 P2]].
  split; [assumption|]. split.
  - rewrite V2. now apply fire_timer_axis_view.
  - intros tmx Cx Ix. apply P2; [assumption|].
    rewrite fire_timer_window. cbn. apply cancel_In. split; [assumption|].
    intros Eid. destruct Ow as [ND _].
    rewrite (NoDup_timer_id _ tmx tm ND Ix I Eid) in Cx. contradiction.
Qed.

(** When the flush of the axis is due, it fires, once: the step of the
    accumulated delta is emitted and the delta is reset. *)
Lemma run_timers_flush ax fuel until w tmx p :
  timers_owned w ->
  In tmx (pending (window w)) ->
  timer_callback tmx = flush_callback ax ->
  timer_due tmx <= until ->
  _onMouseButton (this w) = true ->
  _wheelPos (this w) = Some p ->
  (List.length (pending (window w)) <= fuel)%nat ->
  steps ax (trace (run_timers fuel until w)) =
    steps ax (trace w) ++ step_effects ax p (accumulated ax (this w)) /\
  accumulated ax (this (run_timers fuel until w)) = 0%float.
Proof.
  revert w. induction fuel as [|fuel IH]; intros w Ow Ix Cx Dx R P L.
  - destruct (pending (window w)); [destruct Ix | cbn in L; lia].
  - rewrite run_timers_unfold.
    destruct (next_due_exists until _ tmx Ix Dx) as [tm E]. rewrite E.
    apply next_due_Some in E. destruct E as [I [D _]].
    pose proof (fire_timer_owned tm w Ow I) as O1.
    destruct (TimerCallback_eq_dec (timer_callback tm) (flush_callback ax))
      as [C|N].
    + assert (Q1 : quiet ax until (fire_timer tm w)).
      { intros tm' I' C'. exfalso.
        rewrite fire_timer_window in I'. cbn in I'.
        apply cancel_In in I'. destruct I' as [I' Nid]. apply Nid.
        destruct Ow as [_ O].
        destruct (O tm I) as [Otm _]. destruct (O tm' I') as [Otm' _].
        rewrite C in Otm. rewrite C' in Otm'. congruence. }
      destruct (run_timers_quiet ax fuel until _ O1 Q1) as [_ [V _]].
      apply axis_view_eq in V. destruct V as [A [_ [_ [_ [_ S]]]]].
      rewrite S, A.
      destruct (fire_timer_flush ax tm w p C R P) as [A0 S0].
      now rewrite A0, S0.
    + pose proof (fire_timer_axis_view ax tm w N) as V.
      apply axis_view_eq in V. destruct V as [A [Pw [_ [_ [Rw S]]]]].
      rewrite <- S, <- A.
      apply IH; try assumption; try congruence.
      * rewrite fire_timer_window. cbn. apply cancel_In.
        split; [assumption|]. intros Eid. destruct Ow as [ND _].
        rewrite (NoDup_timer_id _ tmx tm ND Ix I Eid) in Cx. contradiction.
      * rewrite fire_timer_window. cbn.
        pose proof (cancel_length_lt tm _ I). lia.
Qed.

(** A pause that ends before the flush of the axis is due. *)
Lemma elapse_quiet ax dt t w :
  timers_owned w -> flush_at ax t w -> 0 <= dt -> now (window w) + dt < t ->
  timers_owned (elapse dt w) /\
  axis_view ax (elapse dt w) = axis_view ax w /\
  flush_at ax t (elapse dt w) /\
  now (window (elapse dt w)) = now (window w) + dt.
Proof.
  intros O F D L. unfold elapse.
  replace (Z.max 0 dt) with dt by lia.
  set (until := now (window w) + dt).
  pose proof (quiet_of_flush ax t until w O F L) as Q.
  destruct (run_timers_quiet ax (List.length (pending (window w))) until w O Q)
    as [O' [V P]].
  split; [exact O'|]. split; [exact V|]. split; [|reflexivity].
  destruct F as [id [H I]]. exists id. cbn [this window pending with_now].
  apply axis_view_eq in V. destruct V as [_ [_ [X _]]].
  split; [congruence|]. now apply P.
Qed.

(** A pause that reaches the time the flush of the axis is due. *)
Lemma elapse_flush ax dt t w p :
  timers_owned w -> flush_at ax t w -> t <= now (window w) + dt ->
  _onMouseButton (this w) = true ->
  _wheelPos (this w) = Some p ->
  steps ax (trace (elapse dt w)) =
    steps ax (trace w) ++ step_effects ax p (accumulated ax (this w)) /\
  accumulated ax (this (elapse dt w)) = 0%float.
Proof.
  intros O [id [H I]] L R P. unfold elapse. cbn [this trace].
  apply (run_timers_flush ax _ _ w (mkTimer id t (flush_callback ax)) p);
    auto; cbn; lia.
Qed.

(* ================================================================== *)
(** ** A wheel event and the timers *)

Lemma cleared_pending_In h g tm :
  In tm (pending (cleared h g)) <->
  In tm (pending g) /\ h <> timerId (timer_id tm).
Proof.
  destruct h as [| |id]; cbn.
  - split; [intros H; split; [assumption|discriminate] | tauto].
  - split; [intros H; split; [assumption|discriminate] | tauto].
  - rewrite cancel_In. split; intros [H N]; split; auto; congruence.
Qed.

Lemma cleared_now h g : now (cleared h g) = now g.
Proof. now destruct h. Qed.

Lemma cleared_next h g : next_timer_id (cleared h g) = next_timer_id g.
Proof. now destruct h. Qed.

Lemma cleared_NoDup h g :
  NoDup (map timer_id (pending g)) ->
  NoDup (map timer_id (pending (cleared h g))).
Proof. destruct h; cbn; auto. apply cancel_NoDup. Qed.

(** Clearing a handle keeps the ownership of what stays armed. *)
Lemma cleared_owned h m w :
  timers_owned w ->
  (forall cb, owner m cb = owner (this w) cb \/
              forall tm, In tm (pending (cleared h (window w))) ->
                         timer_callback tm <> cb) ->
  timers_owned (mkWorld m (cleared h (window w)) (trace w)).
Proof.
  intros [ND O] H. split; cbn [window this].
  - now apply cleared_NoDup.
  - intros tm I. pose proof I as I0.
    apply cleared_pending_In in I0. destruct I0 as [I0 _].
    destruct (O tm I0) as [Otm B]. rewrite cleared_next. split; [|assumption].
    destruct (H (timer_callback tm)) as [E|E]; [congruence|].
    exfalso. now apply (E tm I).
Qed.

(** After the reset of [_handleMouseWheel] only double-tap timers are
    left armed. *)
Lemma wheel_accumulated_owned e w :
  timers_owned w ->
  timers_owned (wheel_accumulated e w) /\
  forall tm, In tm (pending (window (wheel_accumulated e w))) ->
             timer_callback tm = ResetDoubleClickTimer.
Proof.
  intros [ND O].
  assert (K : forall tm, In tm (pending (window (wheel_accumulated e w))) ->
            In tm (pending (window w)) /\
            timer_callback tm = ResetDoubleClickTimer).
  { intros tm I. cbn [wheel_accumulated window] in I.
    apply cleared_pending_In in I. destruct I as [I NY].
    apply cleared_pending_In in I. destruct I as [I NX].
    split; [assumption|].
    destruct (O tm I) as [Otm _].
    destruct (timer_callback tm); cbn in Otm;
      [reflexivity | contradiction | contradiction]. }
  split; [split|].
  - cbn [wheel_accumulated window]. now apply cleared_NoDup, cleared_NoDup.
  - intros tm I. destruct (K tm I) as [I0 C]. destruct (O tm I0) as [Otm B].
    split.
    + rewrite C in *. exact Otm.
    + cbn [wheel_accumulated window]. now rewrite !cleared_next.
  - intros tm I. now destruct (K tm I).
Qed.

(** Arming a timer for a function that has none armed. *)
Lemma armed_owned cb d m' w :
  timers_owned w ->
  (forall tm, In tm (pending (window w)) -> timer_callback tm <> cb) ->
  owner m' cb = timerId (next_timer_id (window w)) ->
  (forall cb', cb' <> cb -> owner m' cb' = owner (this w) cb') ->
  timers_owned (mkWorld m' (armed cb d (window w)) (trace w)).
Proof.
  intros [ND O] F Hcb Hother. split; cbn.
  - rewrite map_app. cbn.
    apply NoDup_app; [assumption | repeat constructor; auto |].
    intros a Ia [<-|[]]. apply in_map_iff in Ia. destruct Ia as [tm [E I]].
    destruct (O tm I). lia.
  - intros tm I. apply in_app_iff in I. destruct I as [I|[<-|[]]].
    + destruct (O tm I) as [Otm B]. split; [|lia].
      rewrite Hother; [assumption|]. now apply F.
    + cbn. split; [assumption|lia].
Qed.

Lemma wheel_x_owned p w :
  timers_owned w ->
  (forall tm, In tm (pending (window w)) ->
              timer_callback tm <> GenerateWheelStepX) ->
  timers_owned (wheel_x p w).
Proof.
  intros O F. unfold wheel_x. destruct (JS.gt _ _); [exact O|].
  apply armed_owned; auto. intros cb' N.
  destruct cb'; [reflexivity | congruence | reflexivity].
Qed.

Lemma wheel_y_owned p w :
  timers_owned w ->
  (forall tm, In tm (pending (window w)) ->
              timer_callback tm <> GenerateWheelStepY) ->
  timers_owned (wheel_y p w).
Proof.
  intros O F. unfold wheel_y. destruct (JS.gt _ _); [exact O|].
  apply armed_owned; auto. intros cb' N.
  destruct cb'; [reflexivity | reflexivity | congruence].
Qed.

Lemma wheel_x_pending p w tm :
  In tm (pending (window (wheel_x p w))) ->
  In tm (pending (window w)) \/ timer_callback tm = GenerateWheelStepX.
Proof.
  unfold wheel_x. destruct (JS.gt _ _); cbn; [auto|].
  rewrite in_app_iff. intros [I|[<-|[]]]; auto.
Qed.

Lemma steps_x_of_y p a : steps AxisX (wheel_step_effects 3 4 p a) = [].
Proof. apply (steps_of_other AxisX AxisY). discriminate. Qed.

Lemma steps_y_of_x p a : steps AxisY (wheel_step_effects 5 6 p a) = [].
Proof. apply (steps_of_other AxisY AxisX). discriminate. Qed.

(** The Y axis of the handler leaves the X axis as it is, and the X
    axis the Y axis. *)
Lemma wheel_y_x_view p w :
  axis_view AxisX (wheel_y p w) = axis_view AxisX w /\
  now (window (wheel_y p w)) = now (window w) /\
  forall tm, In tm (pending (window w)) ->
             In tm (pending (window (wheel_y p w))).
Proof.
  unfold wheel_y. destruct (JS.gt _ _); cbn [window this trace].
  - split; [|auto]. unfold axis_view. cbn [this trace].
    now rewrite steps_app, steps_x_of_y, app_nil_r.
  - split; [reflexivity|]. split; [reflexivity|].
    intros tm I. cbn. apply in_app_iff. auto.
Qed.

Lemma wheel_x_y_view p w :
  axis_view AxisY (wheel_x p w) = axis_view AxisY w /\
  now (window (wheel_x p w)) = now (window w).
Proof.
  unfold wheel_x. destruct (JS.gt _ _); cbn [window this trace].
  - split; [|auto]. unfold axis_view. cbn [this trace].
    now rewrite steps_app, steps_y_of_x, app_nil_r.
  - split; reflexivity.
Qed.

Lemma handleMouseWheel_owned e w :
  _focused (this w) = true ->
  _onMouseButton (this w) = true ->
  timers_owned w ->
  timers_owned (world_of (_handleMouseWheel e w)).
Proof.
  intros F R O. rewrite handleMouseWheel_closed by assumption.
  cbn [world_of].
  destruct (wheel_accumulated_owned e w O) as [O1 K].
  change (timers_owned (wheel_y (position e w)
            (wheel_x (position e w) (wheel_accumulated e w)))).
  apply wheel_y_owned.
  - apply wheel_x_owned; [assumption|].
    intros tm I. rewrite (K tm I). discriminate.
  - intros tm I. apply wheel_x_pending in I. destruct I as [I|C].
    + rewrite (K tm I). discriminate.
    + rewrite C. discriminate.
Qed.

(** What a wheel event does to an axis: above the threshold the step is
    emitted at once and the delta reset; otherwise the delta is kept and
    the flush is armed for 50 ms from now. *)
Lemma handleMouseWheel_axis ax e w :
  _focused (this w) = true ->
  _onMouseButton (this w) = true ->
  let a := (accumulated ax (this w) + delta ax e)%float in
  exists w',
    _handleMouseWheel e w = Normal tt w' /\
    _focused (this w') = true /\
    _onMouseButton (this w') = true /\
    _wheelPos (this w') = Some (position e w) /\
    now (window w') = now (window w) /\
    if JS.gt (PrimFloat.abs a) WHEEL_STEP then
      accumulated ax (this w') = 0%float /\
      steps ax (trace w') =
        steps ax (trace w) ++ step_effects ax (position e w) a
    else
      accumulated ax (this w') = a /\
      steps ax (trace w') = steps ax (trace w) /\
      flush_at ax (now (window w) + WHEEL_STEP_TIMEOUT) w'.
Proof.
  intros F R a. rewrite handleMouseWheel_closed by assumption.
  set (p := position e w). set (w1 := wheel_accumulated e w).
  set (w2 := wheel_x p w1).
  set (w' := record_effect (StopEvent e) (wheel_y p w2)).
  exists w'. split; [reflexivity|].
  assert (N1 : now (window w1) = now (window w)).
  { unfold w1. cbn. now rewrite !cleared_now. }
  destruct ax.
  - (* X: decided by [wheel_x], kept by [wheel_y] *)
    destruct (wheel_y_x_view p w2) as [V [Ny P]].
    assert (V' : axis_view AxisX w' = axis_view AxisX w2).
    { unfold w'. rewrite axis_view_record by reflexivity. exact V. }
    apply axis_view_eq in V'. destruct V' as [A [Pw [X [Fw [Rw S]]]]].
    assert (Nw : now (window w') = now (window w)).
    { change (now (window (wheel_y p w2)) = now (window w)).
      rewrite Ny. unfold w2, wheel_x. destruct (JS.gt _ _); cbn; exact N1. }
    assert (P' : forall tm, In tm (pending (window w2)) ->
                            In tm (pending (window w'))) by exact P.
    rewrite Fw, Rw, Pw, A, S, Nw. clear V P A Pw Fw Rw S Nw Ny.
    assert (A1 : _accumulatedWheelDeltaX (this w1) = a) by reflexivity.
    unfold flush_at. rewrite X. clear X.
    unfold w2, wheel_x in *. cbn [accumulated flush_timer flush_callback].
    rewrite A1 in *.
    destruct (JS.gt (PrimFloat.abs a) WHEEL_STEP) eqn:E; cbn [this trace window] in *;
      repeat split; try assumption.
    + rewrite steps_app. f_equal. apply (steps_of_same AxisX).
    + exists (next_timer_id (window w1)). split; [reflexivity|].
      apply P'. cbn. apply in_app_iff. right. left.
      now rewrite !cleared_now.
  - (* Y: kept by [wheel_x], decided by [wheel_y] *)
    destruct (wheel_x_y_view p w1) as [V Nx].
    apply axis_view_eq in V. destruct V as [A [Pw [X [Fw [Rw S]]]]].
    assert (V' : axis_view AxisY w' = axis_view AxisY (wheel_y p w2)).
    { unfold w'. now rewrite axis_view_record. }
    apply axis_view_eq in V'. destruct V' as [A' [Pw' [X' [Fw' [Rw' S']]]]].
    assert (A1 : _accumulatedWheelDeltaY (this w2) = a) by exact A.
    assert (F2 : _focused (this w2) = true) by (rewrite <- F; exact Fw).
    assert (R2 : _onMouseButton (this w2) = true) by (rewrite <- R; exact Rw).
    assert (P2 : _wheelPos (this w2) = Some p) by exact Pw.
    assert (N2 : now (window w2) = now (window w))
      by (unfold w2; rewrite Nx; exact N1).
    unfold flush_at. rewrite Fw', Rw', Pw', A', S', X'.
    change (window w') with (window (wheel_y p w2)).
    change (steps AxisY (trace w2) = steps AxisY (trace w1)) in S.
    change (trace w1) with (trace w) in S.
    clear A' Pw' X' Fw' Rw' S' A Pw X Fw Rw.
    unfold wheel_y. cbn [accumulated flush_timer flush_callback].
    rewrite A1.
    destruct (JS.gt (PrimFloat.abs a) WHEEL_STEP) eqn:E; cbn [this trace window];
      (split; [exact F2|]); (split; [exact R2|]); (split; [exact P2|]).
    + split; [exact N2|]. split; [reflexivity|].
      rewrite steps_app, S. f_equal. apply (steps_of_same AxisY).
    + split; [exact N2|]. split; [exact A1|]. split; [exact S|].
      exists (next_timer_id (window w2)). split; [reflexivity|].
      cbn. apply in_app_iff. right. left. now rewrite N2.
Qed.

(* ================================================================== *)
(** ** Gestures below the threshold *)

Lemma turn_Normal m w w' : m w = Normal tt w' -> turn m w = w'.
Proof. intros H. unfold turn. now rewrite H. Qed.

Lemma run_cons i l w : run (i :: l) w = run l (step i w).
Proof. reflexivity. Qed.

Lemma run_app l1 l2 w : run (l1 ++ l2) w = run l2 (run l1 w).
Proof. unfold run. apply fold_left_app. Qed.

(** The threshold test on the double of an integer. *)
Lemma beyond_threshold z :
  JS.safe z ->
  JS.gt (PrimFloat.abs (JS.number z)) WHEEL_STEP = (Z.abs z >? 10).
Proof.
  intros H. rewrite number_abs by assumption.
  change WHEEL_STEP with (JS.number 10).
  apply number_gt; unfold JS.safe in *; lia.
Qed.

(** The state of an axis between the events of a gesture whose deltas
    are integers and whose partial sums stay within the threshold: the
    flush is armed for 50 ms after the last event and nothing has been
    emitted. *)
Lemma play_within ax rest : forall w a ds,
  timers_owned w ->
  _focused (this w) = true ->
  _onMouseButton (this w) = true ->
  flush_at ax (now (window w) + WHEEL_STEP_TIMEOUT) w ->
  (exists p, _wheelPos (this w) = Some p) ->
  Forall (fun pe => 0 <= fst pe < WHEEL_STEP_TIMEOUT) rest ->
  accumulated ax (this w) = JS.number a ->
  Z.abs a <= 10 ->
  integral ax (map snd rest) ds ->
  within_threshold a ds ->
  let w' := run (play rest) w in
  timers_owned w' /\
  _focused (this w') = true /\
  _onMouseButton (this w') = true /\
  flush_at ax (now (window w') + WHEEL_STEP_TIMEOUT) w' /\
  (exists p, _wheelPos (this w') = Some p) /\
  accumulated ax (this w') = JS.number (a + total ds) /\
  steps ax (trace w') = steps ax (trace w).
Proof.
  induction rest as [|[dt e] rest IH]; intros w a ds O F R X P B A Ha I T.
  - inversion I; subst. cbn. unfold total. cbn.
    repeat (split; [assumption|]).
    split; [now rewrite Z.add_0_r | reflexivity].
  - inversion B as [|? ? Bdt B']; subst. cbn [fst] in Bdt.
    cbn [map snd] in I. inversion I as [|? d ? ds' Hd I']; subst.
    cbn [within_threshold] in T. destruct T as [T1 T2].
    change (play ((dt, e) :: rest))
      with (Elapse dt :: Dispatch mousewheel e :: play rest).
    intros w'. unfold w'. rewrite !run_cons. cbn [step _eventHandlers].
    destruct (elapse_quiet ax dt _ w O X) as [O1 [V1 [X1 N1]]];
      [unfold WHEEL_STEP_TIMEOUT in *; lia
      | unfold WHEEL_STEP_TIMEOUT in *; lia |].
    apply axis_view_eq in V1. destruct V1 as [A1 [P1 [_ [F1 [R1 S1]]]]].
    set (w1 := elapse dt w) in *.
    assert (F1' : _focused (this w1) = true) by congruence.
    assert (R1' : _onMouseButton (this w1) = true) by congruence.
    destruct (handleMouseWheel_axis ax e w1 F1' R1')
      as [w2 [E2 [F2 [R2 [P2 [N2 H2]]]]]].
    pose proof (handleMouseWheel_owned e w1 F1' R1' O1) as O2.
    rewrite E2 in O2. cbn [world_of] in O2.
    rewrite (turn_Normal _ w1 w2 E2).
    rewrite A1, A, Hd, number_add in H2 by (unfold JS.safe; lia).
    rewrite beyond_threshold in H2 by (unfold JS.safe; lia).
    destruct (Z.gtb_spec (Z.abs (a + d)) 10) as [G|G]; [lia|].
    destruct H2 as [A2 [S2 X2]].
    destruct (IH w2 (a + d) ds') as [O' [F' [R' [X' [P' [A' S'']]]]]];
      try assumption; eauto.
    + rewrite N2. exact X2.
    + repeat (split; [assumption|]). split.
      * rewrite A'. unfold total. cbn [fold_right]. f_equal. lia.
      * rewrite S'', S2, S1. reflexivity.
Qed.

(* ================================================================== *)
(** ** What the handlers leave alone *)

Lemma handleMouseMove_closed e w :
  _focused (this w) = true ->
  _handleMouseMove e w =
  Normal tt
    (add_effects
       ((if _onMouseMove (this w)
         then [OnMouseMove (x (position e w)) (y (position e w))] else [])
        ++ [StopEvent e]) w).
Proof.
  intros F. unfold _handleMouseMove.
  unfold bind at 1. unfold get_this at 1. rewrite F. cbn [negb].
  unfold bind at 1. rewrite getMousePosition_resolve.
  destruct w as [m g tr]. cbn in F.
  unfold call_onMouseMove, stopEvent, bind, get_this, effect, ret, add_effects.
  cbn [this window trace].
  destruct (_onMouseMove m) eqn:E; cbn [this window trace]; rewrite ?E;
    cbn [this window trace]; rewrite <- ?app_assoc; reflexivity.
Qed.

Lemma handleMouseDisable_closed e w :
  _focused (this w) = true ->
  _handleMouseDisable e w =
  Normal tt
    (add_effects
       (if EventTarget_eqb (target e) (_target (this w))
        then [StopEvent e] else []) w).
Proof.
  intros F. unfold _handleMouseDisable, bind, get_this. rewrite F.
  cbn [negb]. destruct w as [m g tr].
  destruct (EventTarget_eqb _ _); cbn; [reflexivity|].
  unfold ret, add_effects. cbn. now rewrite app_nil_r.
Qed.

Lemma handleMouseButton_state e down w :
  is_touch e && (down =? 1) = false ->
  exists l, _handleMouseButton e down w = Normal tt (add_effects l w).
Proof.
  intros H. destruct (_focused (this w)) eqn:F.
  - rewrite handleMouseButton_focused by assumption.
    destruct (is_touch e); [|eauto].
    cbn [andb] in H. rewrite H. eauto.
  - rewrite handleMouseButton_unfocused by assumption.
    exists []. unfold add_effects. rewrite app_nil_r. now destruct w.
Qed.

(** The three outcomes of a touch press. *)
Lemma touch_press_cases pos w :
  (_doubleClickTimer (this w) = null /\
   touch_press pos w =
   Normal pos
     (mkWorld (with_doubleClickTimer (timerId (next_timer_id (window w)))
                 (with_lastTouchPos (Some pos) (this w)))
              (armed ResetDoubleClickTimer 500 (window w)) (trace w))) \/
  (_doubleClickTimer (this w) <> null /\
   exists last,
     _lastTouchPos (this w) = Some last /\
     touch_press pos w =
     Normal (snap last pos (window w))
       (mkWorld (with_doubleClickTimer (timerId (next_timer_id (window w)))
                   (this w))
                (armed ResetDoubleClickTimer 500
                   (cleared (_doubleClickTimer (this w)) (window w)))
                (trace w))) \/
  (_doubleClickTimer (this w) <> null /\
   _lastTouchPos (this w) = None /\
   exists err,
     touch_press pos w =
     Throw err
       (mkWorld (this w) (cleared (_doubleClickTimer (this w)) (window w))
                (trace w))).
Proof.
  destruct (_doubleClickTimer (this w)) as [| |id] eqn:D.
  - right. destruct (_lastTouchPos (this w)) as [last|] eqn:L.
    + left. split; [discriminate|]. exists last. split; [reflexivity|].
      rewrite <- D. apply touch_press_pending; congruence.
    + right. split; [discriminate|]. split; [reflexivity|].
      eexists. destruct w as [m g tr]. cbn in D, L.
      unfold touch_press, bind, get_this. cbn [this]. rewrite D, L.
      reflexivity.
  - left. split; [reflexivity|]. now apply touch_press_idle.
  - right. destruct (_lastTouchPos (this w)) as [last|] eqn:L.
    + left. split; [discriminate|]. exists last. split; [reflexivity|].
      rewrite <- D. apply touch_press_pending; congruence.
    + right. split; [discriminate|]. split; [reflexivity|].
      eexists. destruct w as [m g tr]. cbn in D, L.
      unfold touch_press, bind, get_this. cbn [this]. rewrite D, L.
      reflexivity.
Qed.

(* ================================================================== *)
(** ** The invariant of a run *)

Lemma timers_owned_ext w w' :
  (forall cb, owner (this w') cb = owner (this w) cb) ->
  window w' = window w ->
  timers_owned w -> timers_owned w'.
Proof.
  intros Ho Hw [ND O]. unfold timers_owned. rewrite Hw. split; [assumption|].
  intros tm I. rewrite Ho. now apply O.
Qed.

Lemma sound_add_effects l w : sound w -> sound (add_effects l w).
Proof. intros H. exact H. Qed.

Lemma sound_turn m w : sound (world_of (m w)) -> sound (turn m w).
Proof. unfold turn. destruct (m w); intros H; exact H. Qed.

Lemma owned_no_timer w cb :
  timers_owned w ->
  (forall id, owner (this w) cb <> timerId id) ->
  forall tm, In tm (pending (window w)) -> timer_callback tm <> cb.
Proof.
  intros [_ O] H tm I C. destruct (O tm I) as [Otm _].
  rewrite C in Otm. now apply (H (timer_id tm)).
Qed.

Lemma owned_after_clear w cb :
  timers_owned w ->
  forall tm, In tm (pending (cleared (owner (this w) cb) (window w))) ->
             timer_callback tm <> cb.
Proof.
  intros [_ O] tm I C. apply cleared_pending_In in I. destruct I as [I N].
  destruct (O tm I) as [Otm _]. rewrite C in Otm. contradiction.
Qed.

Lemma touch_press_sound pos w :
  sound w ->
  sound (world_of (touch_press pos w)) /\
  exists p w1, touch_press pos w = Normal p w1.
Proof.
  intros [O [T [AX AY]]].
  destruct (touch_press_cases pos w)
    as [[D E]|[[D [last [L E]]]|[D [L _]]]]; rewrite ?E; cbn [world_of].
  - split; [|eauto]. split; [|split; [|split; assumption]].
    + apply armed_owned; try assumption.
      * apply owned_no_timer; [assumption|]. cbn [owner]. congruence.
      * reflexivity.
      * intros cb' N. destruct cb'; [congruence | reflexivity | reflexivity].
    + right. cbn. eauto.
  - split; [|eauto]. split; [|split; [|split; assumption]].
    + apply (armed_owned ResetDoubleClickTimer 500 _
               (mkWorld (this w)
                  (cleared (_doubleClickTimer (this w)) (window w)) (trace w))).
      * apply cleared_owned; [assumption|]. intros cb. now left.
      * apply (owned_after_clear w ResetDoubleClickTimer O).
      * cbn. now rewrite cleared_next.
      * intros cb' N. destruct cb'; [congruence | reflexivity | reflexivity].
    + right. cbn. eauto.
  - exfalso. destruct T as [T|[last T]]; congruence.
Qed.

Lemma handleMouseButton_sound e down w :
  sound w ->
  sound (world_of (_handleMouseButton e down w)) /\
  exists w', _handleMouseButton e down w = Normal tt w'.
Proof.
  intros S. destruct (is_touch e && (down =? 1)) eqn:H.
  - apply andb_true_iff in H. destruct H as [Ht Hd].
    destruct (_focused (this w)) eqn:F.
    + rewrite handleMouseButton_focused by assumption. rewrite Ht, Hd.
      destruct (touch_press_sound (position e w) w S) as [S1 [p [w1 E]]].
      rewrite E in *. cbn [world_of] in *. split; [|eauto]. exact S1.
    + rewrite handleMouseButton_unfocused by assumption. split; eauto.
  - destruct (handleMouseButton_state e down w H) as [l E]. rewrite E.
    split; eauto.
Qed.

Lemma handleMouseDown_sound e w :
  sound w ->
  sound (world_of (_handleMouseDown e w)) /\
  exists w', _handleMouseDown e w = Normal tt w'.
Proof.
  intros S. rewrite handleMouseDown_capture.
  destruct (String.eqb (type e) "mousedown");
    now apply handleMouseButton_sound.
Qed.

Lemma handleMouseMove_sound e w :
  sound w ->
  sound (world_of (_handleMouseMove e w)) /\
  exists w', _handleMouseMove e w = Normal tt w'.
Proof.
  intros S. destruct (_focused (this w)) eqn:F.
  - rewrite handleMouseMove_closed by assumption. split; eauto.
  - unfold _handleMouseMove, bind, get_this. rewrite F. split; eauto.
Qed.

Lemma handleMouseDisable_sound e w :
  sound w ->
  sound (world_of (_handleMouseDisable e w)) /\
  exists w', _handleMouseDisable e w = Normal tt w'.
Proof.
  intros S. destruct (_focused (this w)) eqn:F.
  - rewrite handleMouseDisable_closed by assumption. split; eauto.
  - unfold _handleMouseDisable, bind, get_this. rewrite F. split; eauto.
Qed.

Lemma handleMouseWheel_touch e w :
  _focused (this w) = true ->
  _onMouseButton (this w) = true ->
  _doubleClickTimer (this (world_of (_handleMouseWheel e w)))
    = _doubleClickTimer (this w) /\
  _lastTouchPos (this (world_of (_handleMouseWheel e w)))
    = _lastTouchPos (this w).
Proof.
  intros F R. rewrite handleMouseWheel_closed by assumption.
  cbn [world_of record_effect this]. unfold wheel_y, wheel_x.
  destruct (JS.gt _ _); destruct (JS.gt _ _); split; reflexivity.
Qed.

Lemma handleMouseWheel_sound e w :
  sound w ->
  sound (world_of (_handleMouseWheel e w)) /\
  exists w', _handleMouseWheel e w = Normal tt w'.
Proof.
  intros S.
  destruct (_focused (this w)) eqn:F;
    [destruct (_onMouseButton (this w)) eqn:R|].
  - destruct S as [O [T [AX AY]]].
    destruct (handleMouseWheel_touch e w F R) as [D L].
    pose proof (handleMouseWheel_owned e w F R O) as O'.
    destruct (handleMouseWheel_axis AxisX e w F R) as [w' [E [_ [_ [_ [_ HX]]]]]].
    destruct (handleMouseWheel_axis AxisY e w F R) as [w'' [E' [_ [_ [_ [_ HY]]]]]].
    rewrite E in E'. injection E' as <-.
    rewrite E in *. cbn [world_of] in *. split; [|eauto].
    split; [assumption|]. split.
    + unfold touch_ready. rewrite D, L. exact T.
    + cbn [accumulated] in HX, HY. split.
      * destruct (JS.gt _ _) eqn:G in HX;
          destruct HX as [-> _]; [reflexivity | exact G].
      * destruct (JS.gt _ _) eqn:G in HY;
          destruct HY as [-> _]; [reflexivity | exact G].
  - unfold _handleMouseWheel, bind, get_this. rewrite F, R. split; eauto.
  - unfold _handleMouseWheel, bind, get_this. rewrite F. split; eauto.
Qed.

Lemma eventHandlers_sound h e w :
  sound w ->
  sound (world_of (_eventHandlers h e w)) /\
  exists w', _eventHandlers h e w = Normal tt w'.
Proof.
  destruct h; cbn [_eventHandlers].
  - apply handleMouseDown_sound.
  - apply handleMouseButton_sound.
  - apply handleMouseMove_sound.
  - apply handleMouseWheel_sound.
  - apply handleMouseDisable_sound.
Qed.

Lemma grab_closed w :
  grab w =
  Normal tt
    (add_effects
       (map add_listener
            (listeners (_target (this w)) (isTouchDevice (window w)))) w).
Proof.
  destruct w as [m g tr]. unfold grab, bind, get_this, get_window, effect, ret.
  cbn [this window trace]. unfold add_effects, listeners.
  destruct (isTouchDevice g); cbn [this window trace map app add_listener];
    rewrite <- ?app_assoc; reflexivity.
Qed.

Lemma ungrab_closed w :
  ungrab w =
  Normal tt
    (add_effects
       (map remove_listener
            (listeners (_target (this w)) (isTouchDevice (window w))))
       (wheel_timers_reset w)).
Proof.
  unfold ungrab. unfold bind at 1. unfold get_this at 1.
  unfold bind at 1. rewrite resetWheelStepTimers_closed.
  fold (wheel_timers_reset w).
  assert (T : isTouchDevice (window (wheel_timers_reset w))
              = isTouchDevice (window w)).
  { unfold wheel_timers_reset. cbn [window].
    destruct (_wheelStepYTimer (this w)), (_wheelStepXTimer (this w));
      reflexivity. }
  rewrite <- T.
  destruct (wheel_timers_reset w) as [m g tr].
  unfold bind, get_window, effect, ret, add_effects, listeners.
  cbn [this window trace].
  destruct (isTouchDevice g); cbn [this window trace map app remove_listener];
    rewrite <- ?app_assoc; reflexivity.
Qed.

Lemma wheel_timers_reset_owned w :
  timers_owned w -> timers_owned (wheel_timers_reset w).
Proof.
  intros O.
  destruct (wheel_accumulated_owned (Sample.wheel_event 0 0 0) w O) as [O1 _].
  revert O1. apply timers_owned_ext; [|reflexivity].
  intros cb. destruct cb; reflexivity.
Qed.

Lemma ungrab_sound w : sound w -> sound (world_of (ungrab w)).
Proof.
  intros [O [T A]]. rewrite ungrab_closed. cbn [world_of].
  apply sound_add_effects. split; [|split; assumption].
  now apply wheel_timers_reset_owned.
Qed.

Lemma generateWheelStepX_this w :
  this (world_of (_generateWheelStepX w)) = this w \/
  this (world_of (_generateWheelStepX w))
  = with_accumulatedWheelDeltaX 0 (this w).
Proof.
  destruct w as [m g tr].
  unfold _generateWheelStepX, call_onMouseButton, bind, get_this, deref,
    effect, update_this, ret, throw.
  cbn [this window trace].
  destruct (_accumulatedWheelDeltaX m <? 0)%float;
    [|destruct (JS.gt (_accumulatedWheelDeltaX m) 0)];
    try (destruct (_wheelPos m); cbn [this window trace world_of]; auto;
         destruct (_onMouseButton m) eqn:R; cbn [this window trace world_of];
         rewrite ?R; cbn [this window trace world_of]; auto).
  all: cbn; auto.
Qed.

Lemma generateWheelStepY_this w :
  this (world_of (_generateWheelStepY w)) = this w \/
  this (world_of (_generateWheelStepY w))
  = with_accumulatedWheelDeltaY 0 (this w).
Proof.
  destruct w as [m g tr].
  unfold _generateWheelStepY, call_onMouseButton, bind, get_this, deref,
    effect, update_this, ret, throw.
  cbn [this window trace].
  destruct (_accumulatedWheelDeltaY m <? 0)%float;
    [|destruct (JS.gt (_accumulatedWheelDeltaY m) 0)];
    try (destruct (_wheelPos m); cbn [this window trace world_of]; auto;
         destruct (_onMouseButton m) eqn:R; cbn [this window trace world_of];
         rewrite ?R; cbn [this window trace world_of]; auto).
  all: cbn; auto.
Qed.

Lemma fire_timer_sound tm w :
  sound w -> In tm (pending (window w)) -> sound (fire_timer tm w).
Proof.
  intros [O [T [AX AY]]] I. split; [now apply fire_timer_owned|].
  unfold fire_timer.
  match goal with
  | |- context [turn ?m ?w0] =>
      destruct (turn_this_window m w0) as [-> _]; set (w1 := w0)
  end.
  assert (H1 : this w1 = this w) by reflexivity.
  destruct (timer_callback tm); cbn [fire].
  - cbn. split; [now left|]. split; assumption.
  - destruct (generateWheelStepX_this w1) as [-> | ->]; rewrite H1;
      cbn; (split; [exact T|]); split; try assumption.
    reflexivity.
  - destruct (generateWheelStepY_this w1) as [-> | ->]; rewrite H1;
      cbn; (split; [exact T|]); split; try assumption.
    reflexivity.
Qed.

Lemma run_timers_sound fuel until w :
  sound w -> sound (run_timers fuel until w).
Proof.
  revert w. induction fuel as [|fuel IH]; intros w S; [exact S|].
  rewrite run_timers_unfold.
  destruct (next_due until (pending (window w))) as [tm|] eqn:E; [|exact S].
  apply next_due_Some in E. destruct E as [I _].
  apply IH. now apply fire_timer_sound.
Qed.

Lemma elapse_sound dt w : sound w -> sound (elapse dt w).
Proof.
  intros S. unfold elapse.
  exact (run_timers_sound _ _ w S).
Qed.

Lemma step_sound i w : sound w -> sound (step i w).
Proof.
  intros S. destruct i; cbn [step].
  - apply sound_turn. now apply eventHandlers_sound.
  - now apply elapse_sound.
  - apply sound_turn. rewrite grab_closed. exact S.
  - apply sound_turn. now apply ungrab_sound.
  - exact S.
  - exact S.
  - exact S.
  - exact S.
Qed.

Lemma run_sound inputs : forall w, sound w -> sound (run inputs w).
Proof.
  induction inputs as [|i inputs IH]; intros w S; [exact S|].
  rewrite run_cons. apply IH. now apply step_sound.
Qed.

Lemma constructed_sound w : constructed w -> sound w.
Proof.
  intros [[defaults E] [P _]]. unfold sound, timers_owned, touch_ready.
  rewrite P, E. cbn. split; [split; [constructor | contradiction]|].
  split; [now left|]. split; reflexivity.
Qed.

(* ================================================================== *)
(** ** Properties of the wheel accumulator *)

(** X1: a wheel event handled with the focus gate open and the button
    callback registered adds its delta (times 19 unless in pixel mode)
    to the axis; when the absolute value of the sum exceeds 10, the step
    of the sum's direction is emitted at once at the event's position
    and the accumulated delta is reset to 0; otherwise the sum is kept,
    nothing is emitted for the axis and its flush is armed for 50 ms
    from now.  This holds for both axes and for all doubles. *)
Theorem wheel_event_step_or_flush (ax : Axis) (e : Event) (w : World)
    (Hfocus : _focused (this w) = true)
    (Hregistered : _onMouseButton (this w) = true) :
  let d := if negb (deltaMode e =? 0)
           then (raw_delta ax e * WHEEL_LINE_HEIGHT)%float
           else raw_delta ax e in
  let a := (accumulated ax (this w) + d)%float in
  exists w',
    _handleMouseWheel e w = Normal tt w' /\
    _wheelPos (this w') = Some (position e w) /\
    if JS.gt (PrimFloat.abs a) WHEEL_STEP then
      accumulated ax (this w') = 0%float /\
      steps ax (trace w') =
        steps ax (trace w) ++ step_effects ax (position e w) a
    else
      accumulated ax (this w') = a /\
      steps ax (trace w') = steps ax (trace w) /\
      flush_at ax (now (window w) + WHEEL_STEP_TIMEOUT) w'.
Proof.
  intros d a.
  destruct (handleMouseWheel_axis ax e w Hfocus Hregistered)
    as [w' [E [_ [_ [P [_ H]]]]]].
  exists w'. split; [exact E|]. split; [exact P|]. exact H.
Qed.

Lemma wheel_event_step_or_flush_witness :
  _focused (this Sample.fresh) = true /\
  _onMouseButton (this Sample.fresh) = true /\
  exists w',
    _handleMouseWheel (Sample.wheel_event 0 15 0) Sample.fresh = Normal tt w' /\
    accumulated AxisY (this w') = 0%float /\
    steps AxisY (trace w') =
      [OnMouseButton 100 100 1 16; OnMouseButton 100 100 0 16].
Proof.
  split; [reflexivity|]. split; [reflexivity|].
  destruct (wheel_event_step_or_flush AxisY (Sample.wheel_event 0 15 0)
              Sample.fresh eq_refl eq_refl) as [w' [E [_ H]]].
  exists w'. split; [exact E|]. exact H.
Defined.

(** The step of the double of an integer is the step of its sign. *)
Lemma step_effects_number ax p z :
  JS.safe z ->
  step_effects ax p (JS.number z) =
  if z <? 0 then
    [OnMouseButton (x p) (y p) 1 (JS.shl 1 (negative_bit ax));
     OnMouseButton (x p) (y p) 0 (JS.shl 1 (negative_bit ax))]
  else if z >? 0 then
    [OnMouseButton (x p) (y p) 1 (JS.shl 1 (positive_bit ax));
     OnMouseButton (x p) (y p) 0 (JS.shl 1 (positive_bit ax))]
  else [].
Proof.
  intros H. unfold step_effects, wheel_step_effects.
  change 0%float with (JS.number 0).
  rewrite number_ltb, number_gt by (assumption || unfold JS.safe; lia).
  reflexivity.
Qed.

(** X2: in line or page mode a wheel event whose delta on an axis is a
    non-zero integer, on an axis whose accumulated delta is 0, always
    emits a step at once: the line height 19 is beyond the threshold
    10. *)
Theorem line_mode_steps_at_once (ax : Axis) (e : Event) (w : World) (d : Z)
    (Hfocus : _focused (this w) = true)
    (Hregistered : _onMouseButton (this w) = true)
    (Hmode : deltaMode e <> 0)
    (Hinteger : raw_delta ax e = JS.number d)
    (Hsafe : JS.safe (d * 19))
    (Hdelta : d <> 0)
    (Hzero : accumulated ax (this w) = 0%float) :
  exists w' press release,
    _handleMouseWheel e w = Normal tt w' /\
    steps ax (trace w') = steps ax (trace w) ++ [press; release] /\
    step_effects ax (position e w) (delta ax e) = [press; release] /\
    accumulated ax (this w') = 0%float.
Proof.
  destruct (handleMouseWheel_axis ax e w Hfocus Hregistered)
    as [w' [E [_ [_ [_ [_ H]]]]]].
  assert (D : delta ax e = JS.number (d * 19)).
  { unfold delta, normalized. fold (raw_delta ax e).
    destruct (Z.eqb_spec (deltaMode e) 0) as [|_]; [contradiction|].
    cbn [negb]. rewrite Hinteger. change WHEEL_LINE_HEIGHT with (JS.number 19).
    apply number_mul; [assumption | discriminate | assumption]. }
  rewrite Hzero, D in H. change 0%float with (JS.number 0) in H.
  rewrite number_add in H by (assumption || unfold JS.safe in *; lia).
  rewrite beyond_threshold in H by (unfold JS.safe in *; lia).
  rewrite D. cbn [Z.add] in H.
  destruct (Z.gtb_spec (Z.abs (0 + d * 19)) 10) as [_|L]; [|lia].
  replace (0 + d * 19) with (d * 19) in H by lia.
  destruct H as [A S].
  rewrite step_effects_number in * by assumption.
  destruct (Z.ltb_spec (d * 19) 0).
  - eexists w', _, _. split; [exact E|]. split; [exact S|].
    split; [reflexivity | exact A].
  - destruct (Z.gtb_spec (d * 19) 0); [|lia].
    eexists w', _, _. split; [exact E|]. split; [exact S|].
    split; [reflexivity | exact A].
Qed.

Lemma line_mode_steps_at_once_witness :
  exists w' press release,
    _handleMouseWheel (Sample.wheel_event (-1) 0 1) Sample.fresh
    = Normal tt w' /\
    steps AxisX (trace w') = [press; release] /\
    [press; release] =
      [OnMouseButton 100 100 1 32; OnMouseButton 100 100 0 32].
Proof.
  destruct (line_mode_steps_at_once AxisX (Sample.wheel_event (-1) 0 1)
              Sample.fresh (-1) eq_refl eq_refl)
    as [w' [press [release [E [S [T _]]]]]];
    [discriminate | reflexivity | unfold JS.safe; cbn; lia | discriminate
    | reflexivity |].
  exists w', press, release. split; [exact E|]. split; [exact S|].
  symmetry. exact T.
Defined.

(** A gesture whose deltas are integers and whose partial sums stay
    within the threshold is flushed once, 50 ms after its last event. *)
Lemma gesture_within_flush (ax : Axis) (w : World) (e1 : Event)
    (rest : list (Z * Event)) (a : Z) (ds : list Z)
    (Howned : timers_owned w)
    (Hfocus : _focused (this w) = true)
    (Hregistered : _onMouseButton (this w) = true)
    (Hbrief : Forall (fun pe => 0 <= fst pe < WHEEL_STEP_TIMEOUT) rest)
    (Hacc : accumulated ax (this w) = JS.number a)
    (Hbound : Z.abs a <= 10)
    (Hinteger : integral ax (e1 :: map snd rest) ds)
    (Hwithin : within_threshold a ds) :
  let w' := run (Dispatch mousewheel e1 :: play rest) w in
  steps ax (trace w') = steps ax (trace w) /\
  accumulated ax (this w') = JS.number (a + total ds) /\
  (forall dt, 0 <= dt < WHEEL_STEP_TIMEOUT ->
     steps ax (trace (elapse dt w')) = steps ax (trace w)) /\
  (forall dt, WHEEL_STEP_TIMEOUT <= dt ->
     exists p,
       _wheelPos (this w') = Some p /\
       steps ax (trace (elapse dt w')) =
         steps ax (trace w) ++ step_effects ax p (JS.number (a + total ds)) /\
       accumulated ax (this (elapse dt w')) = 0%float).
Proof.
  intros w'. unfold w'. rewrite run_cons. cbn [step _eventHandlers].
  inversion Hinteger as [|? d ? ds' Hd I']; subst.
  cbn [within_threshold] in Hwithin. destruct Hwithin as [T1 T2].
  destruct (handleMouseWheel_axis ax e1 w Hfocus Hregistered)
    as [w1 [E1 [F1 [R1 [P1 [N1 H1]]]]]].
  pose proof (handleMouseWheel_owned e1 w Hfocus Hregistered Howned) as O1.
  rewrite E1 in O1. cbn [world_of] in O1.
  rewrite (turn_Normal _ w w1 E1).
  rewrite Hacc, Hd, number_add in H1 by (unfold JS.safe; lia).
  rewrite beyond_threshold in H1 by (unfold JS.safe; lia).
  destruct (Z.gtb_spec (Z.abs (a + d)) 10) as [G|G]; [lia|].
  destruct H1 as [A1 [S1 X1]].
  destruct (play_within ax rest w1 (a + d) ds')
    as [O' [F' [R' [X' [[p P'] [A' S']]]]]];
    try assumption; eauto.
  { rewrite N1. exact X1. }
  set (w2 := run (play rest) w1) in *.
  assert (Ea : accumulated ax (this w2) = JS.number (a + total (d :: ds'))).
  { rewrite A'. unfold total. cbn [fold_right]. f_equal. lia. }
  split; [congruence|]. split; [exact Ea|]. split.
  - intros dt Hdt.
    destruct (elapse_quiet ax dt _ w2 O' X') as [_ [V _]];
      [lia | unfold WHEEL_STEP_TIMEOUT in *; lia |].
    apply axis_view_eq in V. destruct V as [_ [_ [_ [_ [_ S]]]]]. congruence.
  - intros dt Hdt. exists p. split; [exact P'|].
    destruct (elapse_flush ax dt _ w2 p O' X') as [S A]; try assumption;
      [unfold WHEEL_STEP_TIMEOUT in *; lia|].
    rewrite Ea in S. split; [congruence | exact A].
Qed.

(** X3: a wheel gesture - a first event and further events, each less
    than 50 ms after the one before - whose deltas on an axis are
    integers and whose partial sums stay within the threshold emits no
    step for the axis while it lasts nor in the 50 ms after its last
    event; once 50 ms have passed since the last event the flush fires
    once: it emits the step of the sum's direction at the last event's
    position (nothing when the sum is 0) and resets the accumulated
    delta. *)
Theorem wheel_gesture_flush (ax : Axis) (w : World) (e1 : Event)
    (rest : list (Z * Event)) (a : Z) (ds : list Z)
    (Howned : timers_owned w)
    (Hfocus : _focused (this w) = true)
    (Hregistered : _onMouseButton (this w) = true)
    (Hbrief : Forall (fun pe => 0 <= fst pe < WHEEL_STEP_TIMEOUT) rest)
    (Hacc : accumulated ax (this w) = JS.number a)
    (Hbound : Z.abs a <= 10)
    (Hinteger : integral ax (e1 :: map snd rest) ds)
    (Hwithin : within_threshold a ds) :
  let w' := run (Dispatch mousewheel e1 :: play rest) w in
  steps ax (trace w') = steps ax (trace w) /\
  accumulated ax (this w') = JS.number (a + total ds) /\
  (forall dt, 0 <= dt < WHEEL_STEP_TIMEOUT ->
     steps ax (trace (elapse dt w')) = steps ax (trace w)) /\
  (forall dt, WHEEL_STEP_TIMEOUT <= dt ->
     exists p,
       _wheelPos (this w') = Some p /\
       steps ax (trace (elapse dt w')) =
         steps ax (trace w) ++ step_effects ax p (JS.number (a + total ds)) /\
       accumulated ax (this (elapse dt w')) = 0%float).
Proof.
  exact (gesture_within_flush ax w e1 rest a ds Howned Hfocus Hregistered
           Hbrief Hacc Hbound Hinteger Hwithin).
Qed.

Lemma timers_owned_no_timers w : pending (window w) = [] -> timers_owned w.
Proof.
  intros P. unfold timers_owned. rewrite P. split; [constructor|].
  intros tm [].
Qed.

Lemma wheel_gesture_flush_witness :
  let w' :=
    run (Dispatch mousewheel (Sample.wheel_event 3 0 0) :: play gesture_rest)
        Sample.fresh in
  steps AxisX (trace w') = [] /\
  accumulated AxisX (this w') = 10%float /\
  (forall dt, 0 <= dt < WHEEL_STEP_TIMEOUT ->
     steps AxisX (trace (elapse dt w')) = []) /\
  (forall dt, WHEEL_STEP_TIMEOUT <= dt ->
     exists p,
       _wheelPos (this w') = Some p /\
       steps AxisX (trace (elapse dt w')) = step_effects AxisX p 10 /\
       accumulated AxisX (this (elapse dt w')) = 0%float).
Proof.
  apply (wheel_gesture_flush AxisX Sample.fresh (Sample.wheel_event 3 0 0)
           gesture_rest 0 [3; 3; 4]).
  - apply timers_owned_no_timers. reflexivity.
  - reflexivity.
  - reflexivity.
  - repeat constructor; cbn; unfold WHEEL_STEP_TIMEOUT; lia.
  - reflexivity.
  - cbn. lia.
  - repeat constructor.
  - cbn. lia.
Defined.

(** Same-sign deltas that sum to the threshold never pass it on the
    way. *)
Lemma same_sign_within (s : Z) (ds : list Z) : forall a,
  s = 1 \/ s = -1 ->
  0 <= s * a ->
  Forall (fun d => 0 < s * d) ds ->
  s * (a + total ds) <= 10 ->
  within_threshold a ds.
Proof.
  unfold total.
  induction ds as [|d ds IH]; intros a Hs Ha Hd Hsum; [exact I|].
  inversion Hd as [|? ? Hd1 Hd2]; subst. cbn [fold_right] in Hsum.
  assert (Hrest : 0 <= s * fold_right Z.add 0 ds).
  { clear - Hs Hd2. induction Hd2 as [|d' ds' H _ IH']; cbn [fold_right]; lia. }
  cbn [within_threshold]. split.
  - destruct Hs; subst s; lia.
  - apply IH; try assumption; lia.
Qed.

(** C1, as amended: a wheel gesture on one axis - from an accumulated
    delta of 0, events less than 50 ms apart - whose integer-valued
    same-sign deltas sum to exactly the threshold 10 emits no step for
    that axis, neither synchronously nor before the flush delay has
    elapsed: the step (one press and release with the mask of the
    direction) fires when 50 ms have elapsed since the last event.  A
    wheel event emits a step synchronously only if it brings the
    absolute accumulated delta strictly above 10. *)
Theorem wheel_threshold_flush (ax : Axis) (w : World) (e1 : Event)
    (rest : list (Z * Event)) (ds : list Z) (s : Z)
    (Howned : timers_owned w)
    (Hfocus : _focused (this w) = true)
    (Hregistered : _onMouseButton (this w) = true)
    (Hzero : accumulated ax (this w) = 0%float)
    (Hinteger : integral ax (e1 :: map snd rest) ds)
    (Hsign : s = 1 \/ s = -1)
    (Hsame : Forall (fun d => 0 < s * d) ds)
    (Hsum : total ds = s * 10)
    (Hbrief : Forall (fun pe => 0 <= fst pe < WHEEL_STEP_TIMEOUT) rest) :
  let w' := run (Dispatch mousewheel e1 :: play rest) w in
  let mask := JS.shl 1 (if s <? 0 then negative_bit ax else positive_bit ax) in
  accumulated ax (this w') = JS.number (s * 10) /\
  steps ax (trace w') = steps ax (trace w) /\
  (forall dt, 0 <= dt < WHEEL_STEP_TIMEOUT ->
     steps ax (trace (elapse dt w')) = steps ax (trace w)) /\
  (forall dt, WHEEL_STEP_TIMEOUT <= dt ->
     exists p,
       _wheelPos (this w') = Some p /\
       steps ax (trace (elapse dt w')) =
         steps ax (trace w)
         ++ [OnMouseButton (x p) (y p) 1 mask;
             OnMouseButton (x p) (y p) 0 mask] /\
       accumulated ax (this (elapse dt w')) = 0%float) /\
  (forall (v : World) (e : Event),
     _focused (this v) = true ->
     _onMouseButton (this v) = true ->
     exists v',
       _handleMouseWheel e v = Normal tt v' /\
       (steps ax (trace v') <> steps ax (trace v) ->
        JS.gt (PrimFloat.abs (accumulated ax (this v) + delta ax e))
              WHEEL_STEP = true)).
Proof.
  intros w' mask.
  assert (Hwithin : within_threshold 0 ds).
  { apply (same_sign_within s); try assumption; [lia|].
    rewrite Hsum. destruct Hsign; subst s; lia. }
  destruct (gesture_within_flush ax w e1 rest 0 ds Howned Hfocus Hregistered
              Hbrief Hzero) as [S [A [Q F]]]; try assumption; [cbn; lia|].
  fold w' in S, A, Q, F. rewrite Hsum in A, F. cbn [Z.add] in A, F.
  replace (0 + s * 10) with (s * 10) in A, F by lia.
  split; [exact A|]. split; [exact S|]. split; [exact Q|]. split.
  - intros dt Hdt. destruct (F dt Hdt) as [p [P [T Z]]].
    exists p. split; [exact P|]. split; [|exact Z].
    rewrite T. f_equal. unfold mask.
    rewrite step_effects_number by (unfold JS.safe; destruct Hsign; subst s; lia).
    destruct Hsign; subst s; reflexivity.
  - intros v e Fv Rv.
    destruct (handleMouseWheel_axis ax e v Fv Rv) as [v' [E [_ [_ [_ [_ H]]]]]].
    exists v'. split; [exact E|]. intros D.
    destruct (JS.gt _ _); [reflexivity|].
    destruct H as [_ [H _]]. contradiction.
Qed.

Lemma wheel_threshold_flush_witness :
  let w' :=
    run (Dispatch mousewheel (Sample.wheel_event 3 0 0) :: play gesture_rest)
        Sample.fresh in
  accumulated AxisX (this w') = 10%float /\
  steps AxisX (trace w') = [] /\
  (forall dt, 0 <= dt < 50 -> steps AxisX (trace (elapse dt w')) = []) /\
  (forall dt, 50 <= dt ->
     exists p,
       _wheelPos (this w') = Some p /\
       steps AxisX (trace (elapse dt w')) =
         [OnMouseButton (x p) (y p) 1 64; OnMouseButton (x p) (y p) 0 64] /\
       accumulated AxisX (this (elapse dt w')) = 0%float).
Proof.
  intros w'.
  destruct (wheel_threshold_flush AxisX Sample.fresh
              (Sample.wheel_event 3 0 0) gesture_rest [3; 3; 4] 1)
    as [A [S [Q [F _]]]].
  - apply timers_owned_no_timers. reflexivity.
  - reflexivity.
  - reflexivity.
  - reflexivity.
  - repeat constructor.
  - now left.
  - repeat constructor.
  - reflexivity.
  - repeat constructor; cbn; unfold WHEEL_STEP_TIMEOUT; lia.
  - repeat split; assumption.
Defined.

(* ================================================================== *)
(** ** Identifiers are not reused *)

Lemma exclusive_ext w w' :
  (forall cb, owner (this w') cb = owner (this w) cb \/
              forall id, owner (this w') cb <> timerId id) ->
  (forall tm, In tm (pending (window w')) -> In tm (pending (window w))) ->
  next_timer_id (window w') = next_timer_id (window w) ->
  handles_exclusive w -> handles_exclusive w'.
Proof.
  intros Ho Hp Hn [A B]. split.
  - intros cb id E. rewrite Hn.
    destruct (Ho cb) as [H|H]; [rewrite H in E; eauto | now apply H in E].
  - intros tm cb I E. apply Hp in I.
    destruct (Ho cb) as [H|H]; [rewrite H in E; eauto | now apply H in E].
Qed.

Lemma exclusive_armed cb d m' w :
  timers_owned w -> handles_exclusive w ->
  owner m' cb = timerId (next_timer_id (window w)) ->
  (forall cb', cb' <> cb -> owner m' cb' = owner (this w) cb') ->
  handles_exclusive (mkWorld m' (armed cb d (window w)) (trace w)).
Proof.
  intros [_ O] [A B] Hcb Hother. split; cbn [this window armed
    next_timer_id pending with_next_timer_id with_pending].
  - intros cb' id E.
    destruct (TimerCallback_eq_dec cb' cb) as [->|N].
    + rewrite Hcb in E. injection E as <-. lia.
    + rewrite (Hother cb' N) in E. apply A in E. lia.
  - intros tm cb' I E. apply in_app_iff in I. destruct I as [I|[<-|[]]].
    + destruct (O tm I) as [_ Bd].
      destruct (TimerCallback_eq_dec cb' cb) as [->|N].
      * rewrite Hcb in E. injection E as E. lia.
      * rewrite (Hother cb' N) in E. now apply B.
    + cbn [timer_id timer_callback] in *.
      destruct (TimerCallback_eq_dec cb' cb) as [->|N]; [reflexivity|].
      rewrite (Hother cb' N) in E. apply A in E. lia.
Qed.

Lemma cleared_subset h g tm :
  In tm (pending (cleared h g)) -> In tm (pending g).
Proof. intros I. now apply cleared_pending_In in I. Qed.

Lemma touch_press_exclusive pos w :
  sound w -> handles_exclusive w ->
  handles_exclusive (world_of (touch_press pos w)).
Proof.
  intros [O [T _]] X.
  destruct (touch_press_cases pos w)
    as [[D E]|[[D [last [L E]]]|[D [L _]]]]; rewrite ?E; cbn [world_of].
  - apply exclusive_armed; try assumption; [reflexivity|].
    intros cb' N. destruct cb'; [congruence | reflexivity | reflexivity].
  - set (wc := mkWorld (this w)
                 (cleared (_doubleClickTimer (this w)) (window w)) (trace w)).
    assert (Oc : timers_owned wc).
    { apply cleared_owned; [assumption|]. intros cb. now left. }
    assert (Xc : handles_exclusive wc).
    { revert X. apply exclusive_ext.
      - intros cb. now left.
      - intros tm. apply cleared_subset.
      - apply cleared_next. }
    assert (Nc : next_timer_id (window wc) = next_timer_id (window w))
      by apply cleared_next.
    rewrite <- Nc.
    apply (exclusive_armed ResetDoubleClickTimer 500 _ wc Oc Xc);
      [reflexivity|].
    intros cb' N. destruct cb'; [congruence | reflexivity | reflexivity].
  - exfalso. destruct T as [T|[last T]]; congruence.
Qed.

Lemma handleMouseButton_exclusive e down w :
  sound w -> handles_exclusive w ->
  handles_exclusive (world_of (_handleMouseButton e down w)).
Proof.
  intros S X. destruct (is_touch e && (down =? 1)) eqn:H.
  - apply andb_true_iff in H. destruct H as [Ht Hd].
    destruct (_focused (this w)) eqn:F.
    + rewrite handleMouseButton_focused by assumption. rewrite Ht, Hd.
      pose proof (touch_press_exclusive (position e w) w S X) as X1.
      destruct (touch_press (position e w) w); exact X1.
    + now rewrite handleMouseButton_unfocused.
  - destruct (handleMouseButton_state e down w H) as [l E]. now rewrite E.
Qed.

Lemma wheel_accumulated_exclusive e w :
  handles_exclusive w -> handles_exclusive (wheel_accumulated e w).
Proof.
  apply exclusive_ext.
  - intros cb. destruct cb; [now left | right | right]; discriminate.
  - intros tm I. cbn [wheel_accumulated window] in I.
    now apply cleared_subset, cleared_subset in I.
  - cbn [wheel_accumulated window]. now rewrite !cleared_next.
Qed.

Lemma wheel_x_exclusive p w :
  timers_owned w -> handles_exclusive w -> handles_exclusive (wheel_x p w).
Proof.
  intros O X. unfold wheel_x. destruct (JS.gt _ _); [exact X|].
  apply exclusive_armed; try assumption; [reflexivity|].
  intros cb' N. destruct cb'; [reflexivity | congruence | reflexivity].
Qed.

Lemma wheel_y_exclusive p w :
  timers_owned w -> handles_exclusive w -> handles_exclusive (wheel_y p w).
Proof.
  intros O X. unfold wheel_y. destruct (JS.gt _ _); [exact X|].
  apply exclusive_armed; try assumption; [reflexivity|].
  intros cb' N. destruct cb'; [reflexivity | reflexivity | congruence].
Qed.

Lemma handleMouseWheel_exclusive e w :
  sound w -> handles_exclusive w ->
  handles_exclusive (world_of (_handleMouseWheel e w)).
Proof.
  intros [O _] X.
  destruct (_focused (this w)) eqn:F;
    [destruct (_onMouseButton (this w)) eqn:R|].
  - rewrite handleMouseWheel_closed by assumption. cbn [world_of].
    destruct (wheel_accumulated_owned e w O) as [O1 K].
    change (handles_exclusive
              (wheel_y (position e w)
                 (wheel_x (position e w) (wheel_accumulated e w)))).
    apply wheel_y_exclusive.
    + apply wheel_x_owned; [assumption|].
      intros tm I. rewrite (K tm I). discriminate.
    + apply wheel_x_exclusive; [assumption|].
      now apply wheel_accumulated_exclusive.
  - unfold _handleMouseWheel, bind, get_this. rewrite F, R. exact X.
  - unfold _handleMouseWheel, bind, get_this. rewrite F. exact X.
Qed.

Lemma eventHandlers_exclusive h e w :
  sound w -> handles_exclusive w ->
  handles_exclusive (world_of (_eventHandlers h e w)).
Proof.
  intros S X. destruct h; cbn [_eventHandlers].
  - rewrite handleMouseDown_capture.
    destruct (String.eqb (type e) "mousedown");
      now apply handleMouseButton_exclusive.
  - now apply handleMouseButton_exclusive.
  - destruct (_focused (this w)) eqn:F.
    + now rewrite handleMouseMove_closed.
    + unfold _handleMouseMove, bind, get_this. now rewrite F.
  - now apply handleMouseWheel_exclusive.
  - destruct (_focused (this w)) eqn:F.
    + now rewrite handleMouseDisable_closed.
    + unfold _handleMouseDisable, bind, get_this. now rewrite F.
Qed.

Lemma exclusive_turn m w :
  handles_exclusive (world_of (m w)) -> handles_exclusive (turn m w).
Proof. unfold turn. destruct (m w); intros H; exact H. Qed.

Lemma fire_timer_exclusive tm w :
  handles_exclusive w -> handles_exclusive (fire_timer tm w).
Proof.
  apply exclusive_ext.
  - intros cb. unfold fire_timer.
    match goal with
    | |- context [turn ?m ?w0] => destruct (turn_this_window m w0) as [-> _]
    end.
    rewrite fire_owner. cbn [this].
    destruct (timer_callback tm), cb; try (now left). right. discriminate.
  - intros tm' I. rewrite fire_timer_window in I. cbn in I.
    now apply cancel_In in I.
  - now rewrite fire_timer_window.
Qed.

Lemma run_timers_exclusive fuel until w :
  handles_exclusive w -> handles_exclusive (run_timers fuel until w).
Proof.
  revert w. induction fuel as [|fuel IH]; intros w X; [exact X|].
  rewrite run_timers_unfold.
  destruct (next_due until (pending (window w))); [|exact X].
  apply IH. now apply fire_timer_exclusive.
Qed.

Lemma wheel_timers_reset_exclusive w :
  handles_exclusive w -> handles_exclusive (wheel_timers_reset w).
Proof.
  apply exclusive_ext.
  - intros cb. destruct cb; [now left | right | right]; discriminate.
  - intros tm I. cbn [wheel_timers_reset window] in I.
    now apply cleared_subset, cleared_subset in I.
  - cbn [wheel_timers_reset window]. now rewrite !cleared_next.
Qed.

Lemma step_coherent i w : coherent w -> coherent (step i w).
Proof.
  intros [S X]. split; [now apply step_sound|].
  destruct i; cbn [step].
  - apply exclusive_turn. now apply eventHandlers_exclusive.
  - unfold elapse. exact (run_timers_exclusive _ _ w X).
  - apply exclusive_turn. rewrite grab_closed. exact X.
  - apply exclusive_turn. rewrite ungrab_closed.
    exact (wheel_timers_reset_exclusive w X).
  - exact X.
  - exact X.
  - exact X.
  - exact X.
Qed.

Lemma run_coherent inputs : forall w, coherent w -> coherent (run inputs w).
Proof.
  induction inputs as [|i inputs IH]; intros w S; [exact S|].
  rewrite run_cons. apply IH. now apply step_coherent.
Qed.

Lemma constructed_coherent w : constructed w -> coherent w.
Proof.
  intros C. split; [now apply constructed_sound|].
  destruct C as [[defaults E] [P _]]. unfold handles_exclusive.
  rewrite P, E. split.
  - intros cb id H. destruct cb; discriminate.
  - intros tm cb [].
Qed.

(* ================================================================== *)
(** ** Properties of every run *)

(** X4: whatever happens to a [Mouse] after its construction - events,
    pauses, [grab], [ungrab], property changes - at most one timer is
    armed for each of the three timer functions (double-tap reset, X
    flush, Y flush), and the armed one is the one whose identifier the
    corresponding field holds. *)
Theorem one_timer_per_unit (w0 : World) (inputs : list Input)
    (Hnew : constructed w0) :
  let w := run inputs w0 in
  forall tm, In tm (pending (window w)) ->
    owner (this w) (timer_callback tm) = timerId (timer_id tm) /\
    forall tm', In tm' (pending (window w)) ->
      timer_callback tm' = timer_callback tm -> tm' = tm.
Proof.
  intros w tm I.
  destruct (run_sound inputs w0 (constructed_sound w0 Hnew)) as [[ND O] _].
  fold w in ND, O. destruct (O tm I) as [Otm _]. split; [exact Otm|].
  intros tm' I' C. destruct (O tm' I') as [Otm' _].
  apply (NoDup_timer_id _ tm' tm ND I' I). rewrite C in Otm'. congruence.
Qed.

Lemma constructed_fresh : constructed Sample.fresh.
Proof. split; [eexists; reflexivity | split; reflexivity]. Qed.

Lemma one_timer_per_unit_witness :
  let inputs :=
    [Dispatch mousedown (Sample.touch_event "touchstart" 100 100);
     Dispatch mousewheel (Sample.wheel_event 5 0 0);
     Dispatch mousewheel (Sample.wheel_event 2 0 0)] in
  let w := run inputs Sample.fresh in
  map timer_callback (pending (window w)) =
    [ResetDoubleClickTimer; GenerateWheelStepX; GenerateWheelStepY] /\
  forall tm, In tm (pending (window w)) ->
    owner (this w) (timer_callback tm) = timerId (timer_id tm) /\
    forall tm', In tm' (pending (window w)) ->
      timer_callback tm' = timer_callback tm -> tm' = tm.
Proof.
  intros inputs w. split; [reflexivity|].
  apply (one_timer_per_unit Sample.fresh inputs).
  split; [eexists; reflexivity | split; reflexivity].
Defined.

(** X5: no raw event handler ever throws, whatever happened to the
    [Mouse] since its construction: the positions it dereferences
    ([_lastTouchPos] in a pending double tap, [_wheelPos] in a step) are
    set whenever they are read, and the callbacks are checked before
    they are called. *)
Theorem handlers_never_throw (w0 : World) (inputs : list Input)
    (h : HandlerName) (e : Event)
    (Hnew : constructed w0) :
  exists w', _eventHandlers h e (run inputs w0) = Normal tt w'.
Proof.
  apply eventHandlers_sound. apply run_sound. now apply constructed_sound.
Qed.

Lemma handlers_never_throw_witness :
  exists w',
    _eventHandlers mousedown (Sample.touch_event "touchstart" 5 5)
      (run busy_session Sample.fresh) = Normal tt w'.
Proof.
  apply (handlers_never_throw Sample.fresh busy_session).
  split; [eexists; reflexivity | split; reflexivity].
Defined.

(** X6: between any two inputs the accumulated wheel delta of either
    axis is not beyond the threshold 10 in absolute value: a sum beyond
    it is emitted and reset by the event that produces it. *)
Theorem accumulated_delta_bounded (w0 : World) (inputs : list Input)
    (ax : Axis)
    (Hnew : constructed w0) :
  JS.gt (PrimFloat.abs (accumulated ax (this (run inputs w0)))) WHEEL_STEP
  = false.
Proof.
  destruct (run_sound inputs w0 (constructed_sound w0 Hnew))
    as [_ [_ [AX AY]]].
  destruct ax; assumption.
Qed.

Lemma accumulated_delta_bounded_witness :
  JS.gt (PrimFloat.abs (accumulated AxisY (this (run busy_session Sample.fresh))))
        WHEEL_STEP = false.
Proof.
  apply (accumulated_delta_bounded Sample.fresh busy_session AxisY).
  split; [eexists; reflexivity | split; reflexivity].
Defined.

(* ================================================================== *)
(** ** Properties of [grab] and [ungrab] *)

(** C3, as amended: whatever happened to a [Mouse] since its
    construction, after [ungrab] returns the flush timers of both wheel
    axes have been cancelled and their fields are null, and that is all
    it does to the object: the timers left armed are exactly the
    double-tap expiry timers that were armed, and the double-tap field,
    the last touch position, the wheel position and both accumulated
    wheel deltas are as before. *)
Theorem ungrab_cancels_wheel_flushes (w0 : World) (inputs : list Input)
    (Hnew : constructed w0) :
  let w := run inputs w0 in
  exists w',
    ungrab w = Normal tt w' /\
    _wheelStepXTimer (this w') = null /\
    _wheelStepYTimer (this w') = null /\
    (forall tm, In tm (pending (window w')) <->
                In tm (pending (window w)) /\
                timer_callback tm = ResetDoubleClickTimer) /\
    _doubleClickTimer (this w') = _doubleClickTimer (this w) /\
    _lastTouchPos (this w') = _lastTouchPos (this w) /\
    _wheelPos (this w') = _wheelPos (this w) /\
    _accumulatedWheelDeltaX (this w') = _accumulatedWheelDeltaX (this w) /\
    _accumulatedWheelDeltaY (this w') = _accumulatedWheelDeltaY (this w).
Proof.
  intros w.
  destruct (run_coherent inputs w0 (constructed_coherent w0 Hnew))
    as [[[_ O] _] [_ B]].
  fold w in O, B.
  rewrite ungrab_closed. eexists. split; [reflexivity|].
  cbn [add_effects wheel_timers_reset this window].
  repeat (split; [reflexivity|]). split; [|repeat split].
  intros tm. split.
  - intros I. apply cleared_pending_In in I. destruct I as [I NY].
    apply cleared_pending_In in I. destruct I as [I NX].
    split; [assumption|]. destruct (O tm I) as [Otm _].
    destruct (timer_callback tm); cbn in Otm;
      [reflexivity | contradiction | contradiction].
  - intros [I C].
    apply cleared_pending_In. split; [apply cleared_pending_In; split|];
      [assumption | |].
    + intros E. pose proof (B tm GenerateWheelStepX I E) as K. congruence.
    + intros E. pose proof (B tm GenerateWheelStepY I E) as K. congruence.
Qed.

Lemma ungrab_cancels_wheel_flushes_witness :
  let w :=
    run [Dispatch mousedown (Sample.touch_event "touchstart" 100 100);
         Dispatch mousewheel (Sample.wheel_event 5 0 0)] Sample.fresh in
  exists w',
    ungrab w = Normal tt w' /\
    pending (window w') = [mkTimer 1 500 ResetDoubleClickTimer] /\
    _accumulatedWheelDeltaX (this w') = 5%float.
Proof.
  intros w.
  destruct (ungrab_cancels_wheel_flushes Sample.fresh
              [Dispatch mousedown (Sample.touch_event "touchstart" 100 100);
               Dispatch mousewheel (Sample.wheel_event 5 0 0)])
    as [w' [E H]].
  - split; [eexists; reflexivity | split; reflexivity].
  - exists w'. split; [exact E|].
    fold w in E. assert (E' : w' = world_of (ungrab w)) by now rewrite E.
    rewrite E'. split; reflexivity.
Defined.

(** X7: a second [ungrab] changes no field and no timer: after the
    first there is no flush left to cancel (it only issues the listener
    removals again). *)
Theorem ungrab_idempotent (w : World) :
  exists w1 w2,
    ungrab w = Normal tt w1 /\
    ungrab w1 = Normal tt w2 /\
    state_of w2 = state_of w1.
Proof.
  rewrite ungrab_closed. eexists _, _. split; [reflexivity|].
  rewrite ungrab_closed. split; [reflexivity|]. reflexivity.
Qed.

(** X8: [grab] only registers listeners, and [ungrab] removes exactly
    the listeners [grab] registers, for the same targets, types and
    handlers and in the same order: nine on a touch device, six
    otherwise, the "click" suppressor on the document and the others on
    the target. *)
Theorem ungrab_removes_what_grab_added (w : World) :
  exists added removed,
    grab w = Normal tt (add_effects added w) /\
    trace (world_of (ungrab w)) = trace w ++ removed /\
    forallb is_add added = true /\
    forallb is_remove removed = true /\
    map registration added = map registration removed /\
    map registration added
    = map Some (listeners (_target (this w)) (isTouchDevice (window w))) /\
    List.length added = if isTouchDevice (window w) then 9%nat else 6%nat.
Proof.
  rewrite grab_closed, ungrab_closed. eexists _, _.
  split; [reflexivity|]. split; [reflexivity|].
  unfold listeners.
  destruct (isTouchDevice (window w)); repeat split.
Qed.

(* ================================================================== *)
(** ** Events that change nothing *)

(** X9: a release, a move or a disable event never changes a field of
    the object nor a timer and never throws, touch-sourced or not,
    focused or not: all such a handler does is add effects (callback,
    stopEvent) to the trace. *)
Theorem passive_handlers_frame (e : Event) (w : World) :
  (exists l, _handleMouseUp e w = Normal tt (add_effects l w)) /\
  (exists l, _handleMouseMove e w = Normal tt (add_effects l w)) /\
  (exists l, _handleMouseDisable e w = Normal tt (add_effects l w)).
Proof.
  assert (Nil : w = add_effects [] w).
  { unfold add_effects. rewrite app_nil_r. now destruct w. }
  split; [|split].
  - apply handleMouseButton_state. apply andb_false_r.
  - destruct (_focused (this w)) eqn:F.
    + rewrite handleMouseMove_closed by assumption. eauto.
    + unfold _handleMouseMove, bind, get_this. rewrite F. exists [].
      now rewrite <- Nil.
  - destruct (_focused (this w)) eqn:F.
    + rewrite handleMouseDisable_closed by assumption. eauto.
    + unfold _handleMouseDisable, bind, get_this. rewrite F. exists [].
      now rewrite <- Nil.
Qed.

(* ================================================================== *)
(** ** The double-tap window *)

Lemma preserves_update_window {A : Type} (f : World -> A) g :
  (forall w, f (mkWorld (this w) (g (window w)) (trace w)) = f w) ->
  preserves f (update_window g).
Proof. intros H w. apply H. Qed.

(** The flushes leave the touch merger alone. *)
Lemma fire_touch_view cb :
  cb <> ResetDoubleClickTimer -> preserves touch_view (fire cb).
Proof.
  intros N. destruct cb; [congruence | |]; cbn [fire];
    unfold _generateWheelStepX, _generateWheelStepY, call_onMouseButton;
    repeat preserves_step.
Qed.

Lemma touch_view_eq w w' :
  touch_view w' = touch_view w ->
  _doubleClickTimer (this w') = _doubleClickTimer (this w) /\
  _lastTouchPos (this w') = _lastTouchPos (this w) /\
  _focused (this w') = _focused (this w).
Proof. unfold touch_view. intros [= -> -> ->]. repeat split. Qed.

Lemma fire_timer_touch_view tm w :
  timer_callback tm <> ResetDoubleClickTimer ->
  touch_view (fire_timer tm w) = touch_view w.
Proof.
  intros N. unfold fire_timer, touch_view.
  match goal with
  | |- context [turn ?m ?w0] => destruct (turn_this_window m w0) as [-> _]
  end.
  exact (fire_touch_view (timer_callback tm) N _).
Qed.

(** While the double-tap timer is not due, the firings leave the merger
    alone and the timer armed. *)
Lemma run_timers_window_open fuel until w :
  timers_owned w ->
  (forall tm, In tm (pending (window w)) ->
              timer_callback tm = ResetDoubleClickTimer ->
              until < timer_due tm) ->
  timers_owned (run_timers fuel until w) /\
  touch_view (run_timers fuel until w) = touch_view w /\
  forall tm, timer_callback tm = ResetDoubleClickTimer ->
             In tm (pending (window w)) ->
             In tm (pending (window (run_timers fuel until w))).
Proof.
  revert w. induction fuel as [|fuel IH]; intros w Ow Q; [cbn; auto|].
  rewrite run_timers_unfold.
  destruct (next_due until (pending (window w))) as [tm|] eqn:E; [|auto].
  apply next_due_Some in E. destruct E as [I [D _]].
  assert (N : timer_callback tm <> ResetDoubleClickTimer).
  { intros C. specialize (Q tm I C). lia. }
  pose proof (fire_timer_owned tm w Ow I) as O1.
  destruct (IH (fire_timer tm w) O1) as [O2 [V2 P2]].
  { intros tm' I' C'. rewrite fire_timer_window in I'. cbn in I'.
    apply cancel_In in I'. apply Q; tauto. }
  split; [assumption|]. split.
  - rewrite V2. now apply fire_timer_touch_view.
  - intros tmx Cx Ix. apply P2; [assumption|].
    rewrite fire_timer_window. cbn. apply cancel_In. split; [assumption|].
    intros Eid. destruct Ow as [ND _].
    rewrite (NoDup_timer_id _ tmx tm ND Ix I Eid) in Cx. contradiction.
Qed.

(** When the double-tap timer is due it fires: the field is reset, the
    last position and the focus gate are as they were. *)
Lemma run_timers_window_closed fuel until w tmx :
  timers_owned w ->
  In tmx (pending (window w)) ->
  timer_callback tmx = ResetDoubleClickTimer ->
  timer_due tmx <= until ->
  (List.length (pending (window w)) <= fuel)%nat ->
  touch_view (run_timers fuel until w)
  = (null, _lastTouchPos (this w), _focused (this w)).
Proof.
  revert w. induction fuel as [|fuel IH]; intros w Ow Ix Cx Dx L.
  - destruct (pending (window w)); [destruct Ix | cbn in L; lia].
  - rewrite run_timers_unfold.
    destruct (next_due_exists until _ tmx Ix Dx) as [tm E]. rewrite E.
    apply next_due_Some in E. destruct E as [I [D _]].
    pose proof (fire_timer_owned tm w Ow I) as O1.
    destruct (TimerCallback_eq_dec (timer_callback tm) ResetDoubleClickTimer)
      as [C|N].
    + assert (V1 : touch_view (fire_timer tm w)
                   = (null, _lastTouchPos (this w), _focused (this w))).
      { unfold fire_timer, turn. rewrite C. reflexivity. }
      destruct (run_timers_window_open fuel until (fire_timer tm w) O1)
        as [_ [V _]]; [|congruence].
      intros tm' I' C'. exfalso.
      assert (D1 : _doubleClickTimer (this (fire_timer tm w)) = null)
        by (unfold touch_view in V1; congruence).
      apply (owned_no_timer (fire_timer tm w) ResetDoubleClickTimer O1)
        with (tm := tm'); try assumption.
      intros id. cbn [owner]. congruence.
    + pose proof (fire_timer_touch_view tm w N) as V.
      apply touch_view_eq in V. destruct V as [_ [Lw Fw]].
      rewrite <- Lw, <- Fw.
      apply IH; try assumption.
      * rewrite fire_timer_window. cbn. apply cancel_In.
        split; [assumption|]. intros Eid. destruct Ow as [ND _].
        rewrite (NoDup_timer_id _ tmx tm ND Ix I Eid) in Cx. contradiction.
      * rewrite fire_timer_window. cbn.
        pose proof (cancel_length_lt tm _ I). lia.
Qed.

Lemma elapse_window_open dt t w :
  timers_owned w -> window_closes_at t w -> 0 <= dt ->
  now (window w) + dt < t ->
  timers_owned (elapse dt w) /\
  touch_view (elapse dt w) = touch_view w /\
  window_closes_at t (elapse dt w) /\
  now (window (elapse dt w)) = now (window w) + dt.
Proof.
  intros O [id [H I]] D L. unfold elapse.
  replace (Z.max 0 dt) with dt by lia.
  set (until := now (window w) + dt).
  destruct (run_timers_window_open (List.length (pending (window w)))
              until w O) as [O' [V P]].
  { intros tm Itm C. destruct O as [ND O].
    destruct (O tm Itm) as [Otm _]. rewrite C in Otm. cbn in Otm.
    assert (E : timer_id tm = id) by congruence.
    rewrite (NoDup_timer_id _ tm _ ND Itm I E). exact L. }
  split; [exact O'|]. split; [exact V|]. split; [|reflexivity].
  exists id. cbn [this window pending with_now].
  apply touch_view_eq in V. destruct V as [Dv _].
  split; [congruence|]. now apply P.
Qed.

Lemma elapse_window_closed dt t w :
  timers_owned w -> window_closes_at t w -> t <= now (window w) + dt ->
  touch_view (elapse dt w)
  = (null, _lastTouchPos (this w), _focused (this w)).
Proof.
  intros O [id [H I]] L. unfold elapse.
  apply (run_timers_window_closed _ _ w
           (mkTimer id t ResetDoubleClickTimer)); auto; cbn; lia.
Qed.

(** A touch press handled with the focus gate open leaves the merger
    pending, the window closing 500 ms from now. *)
Lemma touch_press_opens_window e w :
  sound w ->
  _focused (this w) = true ->
  is_touch e = true ->
  exists w',
    _handleMouseButton e 1 w = Normal tt w' /\
    sound w' /\
    _focused (this w') = true /\
    now (window w') = now (window w) /\
    window_closes_at (now (window w) + 500) w' /\
    _lastTouchPos (this w') =
      match _doubleClickTimer (this w) with
      | null => Some (position e w)
      | _ => _lastTouchPos (this w)
      end.
Proof.
  intros S F Ht.
  destruct (handleMouseButton_sound e 1 w S) as [S' _].
  rewrite handleMouseButton_focused in * by assumption.
  rewrite Ht in *. cbn [Z.eqb Pos.eqb] in *.
  destruct S as [O [T _]].
  destruct (touch_press_cases (position e w) w)
    as [[D E]|[[D [last [L E]]]|[D [L _]]]].
  - rewrite E in *. cbn [world_of] in S'.
    eexists. split; [reflexivity|]. split; [exact S'|].
    cbn [add_effects this window]. split; [exact F|]. split; [reflexivity|].
    split.
    + exists (next_timer_id (window w)). split; [reflexivity|].
      cbn. apply in_app_iff. right. now left.
    + rewrite D. reflexivity.
  - rewrite E in *. cbn [world_of] in S'.
    eexists. split; [reflexivity|]. split; [exact S'|].
    cbn [add_effects this window]. split; [exact F|].
    split; [cbn; apply cleared_now|]. split.
    + exists (next_timer_id (window w)). split; [reflexivity|].
      cbn. apply in_app_iff. right. left.
      now rewrite cleared_now, cleared_next.
    + cbn. destruct (_doubleClickTimer (this w)); congruence.
  - exfalso. destruct T as [T|[last T]]; congruence.
Qed.

Lemma press_step e w :
  sound w ->
  _focused (this w) = true ->
  is_touch e = true ->
  let w' := step (Dispatch mousedown e) w in
  sound w' /\
  _focused (this w') = true /\
  now (window w') = now (window w) /\
  window_closes_at (now (window w) + 500) w' /\
  _lastTouchPos (this w') =
    match _doubleClickTimer (this w) with
    | null => Some (position e w)
    | _ => _lastTouchPos (this w)
    end.
Proof.
  intros S F Ht w'. unfold w'. cbn [step _eventHandlers].
  unfold turn. rewrite handleMouseDown_capture.
  destruct (String.eqb (type e) "mousedown").
  - destruct (touch_press_opens_window e
                (record_effect (SetCapture (_target (this w))) w) S F Ht)
      as [w1 [E H]].
    rewrite E. exact H.
  - destruct (touch_press_opens_window e w S F Ht) as [w1 [E H]].
    rewrite E. exact H.
Qed.

Lemma taps_anchored p0 rest : forall w,
  sound w ->
  _focused (this w) = true ->
  window_closes_at (now (window w) + 500) w ->
  _lastTouchPos (this w) = Some p0 ->
  Forall (fun e => is_touch e = true) (map snd rest) ->
  Forall (fun pe => 0 <= fst pe < 500) rest ->
  let w' := run (taps rest) w in
  _lastTouchPos (this w') = Some p0 /\
  window_closes_at (now (window w') + 500) w'.
Proof.
  induction rest as [|[dt e] rest IH]; intros w S F C L Ht Hq; [cbn; auto|].
  inversion Hq as [|? ? Hdt Hq']; subst. cbn [fst] in Hdt.
  cbn [map snd] in Ht. inversion Ht as [|? ? Hte Ht']; subst.
  change (taps ((dt, e) :: rest))
    with (Elapse dt :: Dispatch mousedown e :: taps rest).
  intros w'. unfold w'. rewrite !run_cons.
  change (step (Elapse dt) w) with (elapse dt w).
  destruct S as [O S0].
  destruct (elapse_window_open dt _ w O C) as [_ [V [C1 N1]]]; [lia | lia |].
  pose proof (elapse_sound dt w (conj O S0)) as S1.
  apply touch_view_eq in V. destruct V as [D1 [L1 F1]].
  destruct (press_step e (elapse dt w) S1) as [S2 [F2 [N2 [C2 L2]]]];
    [congruence | assumption |].
  apply IH; try assumption.
  - rewrite N2. exact C2.
  - rewrite L2. destruct C1 as [id [Hd _]]. rewrite Hd. congruence.
Qed.

(* ================================================================== *)
(** ** Properties of the touch merger *)

(** X10: a touch press that arrives 500 ms or more after the previous
    touch press is never merged with it: the window has closed (the
    double-tap field is null again), the press is reported at its own
    position and that position becomes the recorded one. *)
Theorem press_after_window_is_fresh (w0 : World) (inputs : list Input)
    (e1 e2 : Event) (dt : Z)
    (Hnew : constructed w0)
    (Hfocus : _focused (this (run inputs w0)) = true)
    (Htouch1 : is_touch e1 = true)
    (Htouch2 : is_touch e2 = true)
    (Hlate : 500 <= dt) :
  let w := run inputs w0 in
  exists w1 w3,
    _handleMouseButton e1 1 w = Normal tt w1 /\
    let w2 := elapse dt w1 in
    _doubleClickTimer (this w2) = null /\
    _handleMouseButton e2 1 w2 = Normal tt w3 /\
    trace w3 =
      trace w2
      ++ button_effects (_onMouseButton (this w2)) (position e2 w2) 1
           (_touchButton (this w2)) e2 /\
    _lastTouchPos (this w3) = Some (position e2 w2).
Proof.
  intros w.
  pose proof (run_sound inputs w0 (constructed_sound w0 Hnew)) as S.
  fold w in S, Hfocus.
  destruct (touch_press_opens_window e1 w S Hfocus Htouch1)
    as [w1 [E1 [S1 [F1 [N1 [C1 _]]]]]].
  exists w1. eexists. split; [exact E1|]. intros w2.
  destruct S1 as [O1 _].
  assert (V : touch_view w2
              = (null, _lastTouchPos (this w1), _focused (this w1))).
  { apply (elapse_window_closed dt _ w1 O1 C1). lia. }
  unfold touch_view in V.
  assert (D2 : _doubleClickTimer (this w2) = null) by congruence.
  assert (F2 : _focused (this w2) = true) by congruence.
  split; [exact D2|].
  rewrite handleMouseButton_focused by assumption.
  rewrite Htouch2. cbn [Z.eqb Pos.eqb].
  rewrite touch_press_idle by assumption.
  split; [reflexivity|]. split; reflexivity.
Qed.

Lemma press_after_window_is_fresh_witness :
  exists w1 w3,
    _handleMouseButton (Sample.touch_event "touchstart" 100 100) 1
      Sample.fresh = Normal tt w1 /\
    _handleMouseButton (Sample.touch_event "touchstart" 105 102) 1
      (elapse 500 w1) = Normal tt w3 /\
    _lastTouchPos (this w3)
    = Some (position (Sample.touch_event "touchstart" 105 102)
              (elapse 500 w1)).
Proof.
  destruct (press_after_window_is_fresh Sample.fresh []
              (Sample.touch_event "touchstart" 100 100)
              (Sample.touch_event "touchstart" 105 102) 500)
    as [w1 [w3 [E1 [_ [E3 [_ L]]]]]].
  - split; [eexists; reflexivity | split; reflexivity].
  - reflexivity.
  - reflexivity.
  - reflexivity.
  - lia.
  - exists w1, w3. repeat split; assumption.
Defined.

(** X11: a chain of touch presses, each less than 500 ms after the one
    before, started while no double tap is pending, is anchored at its
    first press: however far the later presses land, the recorded last
    position stays the position of the first, and the window stays open
    for 500 ms after the latest press. *)
Theorem tap_chain_anchored (w0 : World) (inputs : list Input)
    (e1 : Event) (rest : list (Z * Event))
    (Hnew : constructed w0)
    (Hfocus : _focused (this (run inputs w0)) = true)
    (Hidle : _doubleClickTimer (this (run inputs w0)) = null)
    (Htouch : Forall (fun e => is_touch e = true) (e1 :: map snd rest))
    (Hquick : Forall (fun pe => 0 <= fst pe < 500) rest) :
  let w := run inputs w0 in
  let w' := run (Dispatch mousedown e1 :: taps rest) w in
  _lastTouchPos (this w') = Some (position e1 w) /\
  window_closes_at (now (window w') + 500) w'.
Proof.
  intros w w'. unfold w'. rewrite run_cons.
  pose proof (run_sound inputs w0 (constructed_sound w0 Hnew)) as S.
  fold w in S, Hfocus, Hidle.
  inversion Htouch as [|? ? Ht1 Ht]; subst.
  destruct (press_step e1 w S Hfocus Ht1) as [S1 [F1 [N1 [C1 L1]]]].
  rewrite Hidle in L1.
  apply taps_anchored; try assumption.
  rewrite N1. exact C1.
Qed.

Lemma tap_chain_anchored_witness :
  let w' :=
    run (Dispatch mousedown (Sample.touch_event "touchstart" 100 100)
         :: taps taps_rest) Sample.fresh in
  _lastTouchPos (this w') = Some (mkPos 100 100) /\
  window_closes_at (now (window w') + 500) w'.
Proof.
  apply (tap_chain_anchored Sample.fresh []
           (Sample.touch_event "touchstart" 100 100) taps_rest).
  - split; [eexists; reflexivity | split; reflexivity].
  - reflexivity.
  - reflexivity.
  - repeat constructor.
  - repeat constructor; cbn; lia.
Defined.

(* ================================================================== *)
(** ** Every due timer fires *)

Lemma run_timers_done fuel until w :
  (List.length (pending (window w)) <= fuel)%nat ->
  next_due until (pending (window (run_timers fuel until w))) = None.
Proof.
  revert w. induction fuel as [|fuel IH]; intros w L.
  - destruct (pending (window w)) eqn:P; [|cbn in L; lia].
    cbn. now rewrite P.
  - rewrite run_timers_unfold.
    destruct (next_due until (pending (window w))) as [tm|] eqn:E;
      [|exact E].
    apply IH. apply next_due_Some in E. destruct E as [I _].
    rewrite fire_timer_window. cbn.
    pose proof (cancel_length_lt tm _ I). lia.
Qed.

(** The fuel of [elapse] is enough: no timer that was due is left
    armed. *)
Lemma elapse_fires_all_due dt w tm :
  In tm (pending (window (elapse dt w))) ->
  now (window w) + Z.max 0 dt < timer_due tm.
Proof.
  unfold elapse. cbn [window pending with_now]. intros I.
  apply (next_due_None _ _ tm (run_timers_done _ _ w (le_n _)) I).
Qed.

(* ================================================================== *)
(** ** Exceptions *)

Ltac preserves_all :=
  repeat first
    [ preserves_step
    | apply preserves_update_window; solve [intros; reflexivity] ].

Lemma handleMouseButton_step_view e down :
  preserves step_view (_handleMouseButton e down).
Proof.
  unfold _handleMouseButton, _getMousePosition, touch_press, clearTimeout,
    setTimeout, call_onMouseButton, stopEvent.
  preserves_all.
Qed.

Lemma handleMouseMove_step_view e : preserves step_view (_handleMouseMove e).
Proof.
  unfold _handleMouseMove, _getMousePosition, call_onMouseMove, stopEvent.
  preserves_all.
Qed.

Lemma handleMouseDisable_step_view e :
  preserves step_view (_handleMouseDisable e).
Proof. unfold _handleMouseDisable, stopEvent. preserves_all. Qed.

Lemma step_ready_view w w' :
  step_view w' = step_view w -> step_ready w -> step_ready w'.
Proof.
  unfold step_view, step_ready. intros [= -> -> -> ->] H. exact H.
Qed.

Lemma eventHandlers_step_ready h e w :
  step_ready w -> step_ready (world_of (_eventHandlers h e w)).
Proof.
  intros J. destruct h; cbn [_eventHandlers].
  - rewrite handleMouseDown_capture.
    destruct (String.eqb (type e) "mousedown");
      (eapply step_ready_view; [apply handleMouseButton_step_view|]);
      exact J.
  - eapply step_ready_view; [apply handleMouseButton_step_view | exact J].
  - eapply step_ready_view; [apply handleMouseMove_step_view | exact J].
  - destruct (_focused (this w)) eqn:F;
      [destruct (_onMouseButton (this w)) eqn:R|].
    + destruct (handleMouseWheel_axis AxisX e w F R)
        as [w' [E [_ [R' [P' _]]]]].
      rewrite E. cbn [world_of]. right. eauto.
    + unfold _handleMouseWheel, bind, get_this. rewrite F, R. exact J.
    + unfold _handleMouseWheel, bind, get_this. rewrite F. exact J.
  - eapply step_ready_view; [apply handleMouseDisable_step_view | exact J].
Qed.

Lemma eventHandlers_no_uncaught h e :
  appends (fun ev => is_uncaught ev = false) (_eventHandlers h e).
Proof.
  destruct h; cbn [_eventHandlers];
    unfold _handleMouseDown, _handleMouseUp, _handleMouseButton,
      _handleMouseMove, _handleMouseWheel, _handleMouseDisable, touch_press,
      _resetWheelStepTimers, _generateWheelStepX, _generateWheelStepY,
      call_onMouseButton, call_onMouseMove, setCapture, stopEvent;
    repeat appends_step.
Qed.

Lemma fire_no_uncaught cb :
  appends (fun ev => is_uncaught ev = false) (fire cb).
Proof.
  destruct cb; cbn [fire];
    unfold _resetDoubleClickTimer, _generateWheelStepX, _generateWheelStepY,
      call_onMouseButton;
    repeat appends_step.
Qed.

(** With something to emit only when the callback is registered, the
    timer functions return. *)
Lemma fire_returns cb w :
  step_ready w ->
  exists w', fire cb w = Normal tt w' /\ step_ready w'.
Proof.
  intros J. destruct cb; cbn [fire].
  - eexists. split; [reflexivity|]. exact J.
  - destruct J as [[ZX ZY]|[R [p P]]].
    + rewrite generateWheelStepX_zero by assumption.
      eexists. split; [reflexivity|]. left. split; [reflexivity | exact ZY].
    + rewrite (generateWheelStepX_registered w p) by assumption.
      eexists. split; [reflexivity|]. right. split; [exact R | eauto].
  - destruct J as [[ZX ZY]|[R [p P]]].
    + rewrite generateWheelStepY_zero by assumption.
      eexists. split; [reflexivity|]. left. split; [exact ZX | reflexivity].
    + rewrite (generateWheelStepY_registered w p) by assumption.
      eexists. split; [reflexivity|]. right. split; [exact R | eauto].
Qed.

Lemma appends_no_uncaught (m : Js unit) w :
  appends (fun ev => is_uncaught ev = false) m ->
  no_uncaught w -> no_uncaught (world_of (m w)).
Proof.
  intros A N. destruct (A w) as [l [E F]]. unfold no_uncaught.
  rewrite E. apply Forall_app. split; assumption.
Qed.

Lemma fire_timer_quietly tm w :
  step_ready w -> no_uncaught w ->
  step_ready (fire_timer tm w) /\ no_uncaught (fire_timer tm w).
Proof.
  intros J N. unfold fire_timer.
  set (w0 := mkWorld (this w) _ (trace w)).
  assert (J0 : step_ready w0) by exact J.
  assert (N0 : no_uncaught w0) by exact N.
  destruct (fire_returns (timer_callback tm) w0 J0) as [w' [E J']].
  pose proof (appends_no_uncaught _ w0
                (fire_no_uncaught (timer_callback tm)) N0) as N'.
  rewrite E in N'. cbn [world_of] in N'.
  rewrite (turn_Normal _ w0 w' E). split; assumption.
Qed.

Lemma run_timers_quietly fuel until w :
  step_ready w -> no_uncaught w ->
  step_ready (run_timers fuel until w) /\
  no_uncaught (run_timers fuel until w).
Proof.
  revert w. induction fuel as [|fuel IH]; intros w J N; [auto|].
  rewrite run_timers_unfold.
  destruct (next_due until (pending (window w))); [|auto].
  destruct (fire_timer_quietly t w J N). now apply IH.
Qed.

Lemma step_quietly i w :
  withdraws_callback i = false ->
  sound w -> step_ready w -> no_uncaught w ->
  step_ready (step i w) /\ no_uncaught (step i w).
Proof.
  intros Hi S J N. destruct i; cbn [step].
  - destruct (eventHandlers_sound h e w S) as [_ [w' E]].
    pose proof (eventHandlers_step_ready h e w J) as J'.
    pose proof (appends_no_uncaught _ w (eventHandlers_no_uncaught h e) N)
      as N'.
    rewrite E in J', N'. cbn [world_of] in J', N'.
    rewrite (turn_Normal _ w w' E). split; assumption.
  - unfold elapse.
    exact (run_timers_quietly _ _ w J N).
  - unfold turn. rewrite grab_closed. split; [exact J|].
    unfold no_uncaught, add_effects. cbn [trace].
    apply Forall_app. split; [exact N|].
    unfold listeners. destruct (isTouchDevice (window w));
      repeat constructor.
  - unfold turn. rewrite ungrab_closed. split; [exact J|].
    unfold no_uncaught, add_effects. cbn [trace].
    apply Forall_app. split; [exact N|].
    unfold listeners. destruct (isTouchDevice (window w));
      repeat constructor.
  - split; [exact J | exact N].
  - split; [exact J | exact N].
  - destruct f; [|discriminate]. split; [|exact N].
    destruct J as [Z|[_ P]]; [now left | right; split; [reflexivity | exact P]].
  - split; [exact J | exact N].
Qed.

Lemma run_quietly inputs : forall w,
  forallb (fun i => negb (withdraws_callback i)) inputs = true ->
  sound w -> step_ready w -> no_uncaught w ->
  no_uncaught (run inputs w).
Proof.
  induction inputs as [|i inputs IH]; intros w H S J N; [exact N|].
  cbn [forallb] in H. apply andb_true_iff in H. destruct H as [Hi H].
  apply negb_true_iff in Hi.
  rewrite run_cons.
  destruct (step_quietly i w Hi S J N) as [J' N'].
  apply IH; try assumption. now apply step_sound.
Qed.

(** X12: as long as the button callback is never withdrawn, nothing
    ever throws: in every run from a constructed [Mouse] whose inputs do
    not include [set_onMouseButton] with a falsy value, no exception
    escapes a handler or a timer function. *)
Theorem no_exception_unless_callback_withdrawn (w0 : World)
    (inputs : list Input)
    (Hnew : constructed w0)
    (Hkept : forallb (fun i => negb (withdraws_callback i)) inputs = true) :
  Forall (fun ev => is_uncaught ev = false) (trace (run inputs w0)).
Proof.
  apply run_quietly; try assumption.
  - now apply constructed_sound.
  - destruct Hnew as [[defaults E] _]. left. rewrite E. split; reflexivity.
  - destruct Hnew as [_ [_ T]]. unfold no_uncaught. rewrite T. constructor.
Qed.

Lemma no_exception_unless_callback_withdrawn_witness :
  Forall (fun ev => is_uncaught ev = false)
         (trace (run busy_session Sample.fresh)).
Proof.
  apply (no_exception_unless_callback_withdrawn Sample.fresh busy_session).
  - split; [eexists; reflexivity | split; reflexivity].
  - reflexivity.
Defined.

(* ================================================================== *)
(** ** Unregistered callbacks *)














(* ================================================================== *)
(** ** A stale last position *)

Lemma passive_frame_move e w :
  exists l, _handleMouseMove e w = Normal tt (add_effects l w).
Proof.
  destruct (_focused (this w)) eqn:F.
  - rewrite handleMouseMove_closed by assumption. eauto.
  - unfold _handleMouseMove, bind, get_this. rewrite F. exists [].
    unfold add_effects. rewrite app_nil_r. now destruct w.
Qed.

Lemma passive_frame_disable e w :
  exists l, _handleMouseDisable e w = Normal tt (add_effects l w).
Proof.
  destruct (_focused (this w)) eqn:F.
  - rewrite handleMouseDisable_closed by assumption. eauto.
  - unfold _handleMouseDisable, bind, get_this. rewrite F. exists [].
    unfold add_effects. rewrite app_nil_r. now destruct w.
Qed.

Lemma turn_forget v m w :
  m (forget v w) = outcome_map (forget v) (m w) ->
  turn m (forget v w) = forget v (turn m w).
Proof.
  intros H. unfold turn. rewrite H. destruct (m w); reflexivity.
Qed.

Lemma handleMouseButton_forget v e down w :
  _doubleClickTimer (this w) = null ->
  _handleMouseButton e down (forget v w) = _handleMouseButton e down w \/
  (_handleMouseButton e down (forget v w)
   = outcome_map (forget v) (_handleMouseButton e down w) /\
   _doubleClickTimer (this (world_of (_handleMouseButton e down w))) = null).
Proof.
  intros D. destruct (_focused (this w)) eqn:F.
  - rewrite (handleMouseButton_focused e down (forget v w)) by exact F.
    rewrite (handleMouseButton_focused e down w) by exact F.
    destruct (is_touch e); [destruct (down =? 1)|].
    + left. rewrite (touch_press_idle _ (forget v w)) by exact D.
      rewrite (touch_press_idle _ w) by exact D. reflexivity.
    + right. split; [reflexivity | exact D].
    + right. split; [reflexivity | exact D].
  - right. rewrite (handleMouseButton_unfocused e down (forget v w)) by exact F.
    rewrite (handleMouseButton_unfocused e down w) by exact F.
    split; [reflexivity | exact D].
Qed.

Lemma wheel_x_forget v p w : wheel_x p (forget v w) = forget v (wheel_x p w).
Proof.
  unfold wheel_x. cbn [forget this window trace].
  change (_accumulatedWheelDeltaX (with_lastTouchPos v (this w)))
    with (_accumulatedWheelDeltaX (this w)).
  destruct (JS.gt _ _); reflexivity.
Qed.

Lemma wheel_y_forget v p w : wheel_y p (forget v w) = forget v (wheel_y p w).
Proof.
  unfold wheel_y. cbn [forget this window trace].
  change (_accumulatedWheelDeltaY (with_lastTouchPos v (this w)))
    with (_accumulatedWheelDeltaY (this w)).
  destruct (JS.gt _ _); reflexivity.
Qed.

Lemma handleMouseWheel_forget v e w :
  _handleMouseWheel e (forget v w)
  = outcome_map (forget v) (_handleMouseWheel e w).
Proof.
  destruct (_focused (this w)) eqn:F;
    [destruct (_onMouseButton (this w)) eqn:R|].
  - rewrite (handleMouseWheel_closed e (forget v w)) by assumption.
    rewrite (handleMouseWheel_closed e w) by assumption.
    cbn [outcome_map]. f_equal.
    change (position e (forget v w)) with (position e w).
    change (wheel_accumulated e (forget v w))
      with (forget v (wheel_accumulated e w)).
    now rewrite wheel_x_forget, wheel_y_forget.
  - unfold _handleMouseWheel, bind, get_this. cbn [forget this].
    change (_focused (with_lastTouchPos v (this w))) with (_focused (this w)).
    change (_onMouseButton (with_lastTouchPos v (this w)))
      with (_onMouseButton (this w)).
    now rewrite F, R.
  - unfold _handleMouseWheel, bind, get_this. cbn [forget this].
    change (_focused (with_lastTouchPos v (this w))) with (_focused (this w)).
    now rewrite F.
Qed.

Lemma handleMouseMove_forget v e w :
  _handleMouseMove e (forget v w)
  = outcome_map (forget v) (_handleMouseMove e w).
Proof.
  destruct (_focused (this w)) eqn:F.
  - rewrite (handleMouseMove_closed e (forget v w)) by exact F.
    now rewrite (handleMouseMove_closed e w) by exact F.
  - unfold _handleMouseMove, bind, get_this. cbn [forget this].
    change (_focused (with_lastTouchPos v (this w))) with (_focused (this w)).
    now rewrite F.
Qed.

Lemma handleMouseDisable_forget v e w :
  _handleMouseDisable e (forget v w)
  = outcome_map (forget v) (_handleMouseDisable e w).
Proof.
  destruct (_focused (this w)) eqn:F.
  - rewrite (handleMouseDisable_closed e (forget v w)) by exact F.
    now rewrite (handleMouseDisable_closed e w) by exact F.
  - unfold _handleMouseDisable, bind, get_this. cbn [forget this].
    change (_focused (with_lastTouchPos v (this w))) with (_focused (this w)).
    now rewrite F.
Qed.

Lemma generateWheelStepX_forget v w :
  _generateWheelStepX (forget v w)
  = outcome_map (forget v) (_generateWheelStepX w).
Proof.
  destruct w as [m g tr].
  unfold _generateWheelStepX, call_onMouseButton, bind, get_this, deref,
    effect, update_this, ret, throw, forget.
  cbn [this window trace].
  change (_accumulatedWheelDeltaX (with_lastTouchPos v m))
    with (_accumulatedWheelDeltaX m).
  change (_wheelPos (with_lastTouchPos v m)) with (_wheelPos m).
  change (_onMouseButton (with_lastTouchPos v m)) with (_onMouseButton m).
  destruct (_accumulatedWheelDeltaX m <? 0)%float;
    [|destruct (JS.gt (_accumulatedWheelDeltaX m) 0)];
    try (destruct (_wheelPos m); [|reflexivity];
         cbn [this window trace];
         change (_onMouseButton (with_lastTouchPos v m))
           with (_onMouseButton m);
         destruct (_onMouseButton m) eqn:R; [|reflexivity];
         cbn [this window trace];
         change (_onMouseButton (with_lastTouchPos v m))
           with (_onMouseButton m);
         rewrite R; reflexivity).
  reflexivity.
Qed.

Lemma generateWheelStepY_forget v w :
  _generateWheelStepY (forget v w)
  = outcome_map (forget v) (_generateWheelStepY w).
Proof.
  destruct w as [m g tr].
  unfold _generateWheelStepY, call_onMouseButton, bind, get_this, deref,
    effect, update_this, ret, throw, forget.
  cbn [this window trace].
  change (_accumulatedWheelDeltaY (with_lastTouchPos v m))
    with (_accumulatedWheelDeltaY m).
  change (_wheelPos (with_lastTouchPos v m)) with (_wheelPos m).
  change (_onMouseButton (with_lastTouchPos v m)) with (_onMouseButton m).
  destruct (_accumulatedWheelDeltaY m <? 0)%float;
    [|destruct (JS.gt (_accumulatedWheelDeltaY m) 0)];
    try (destruct (_wheelPos m); [|reflexivity];
         cbn [this window trace];
         change (_onMouseButton (with_lastTouchPos v m))
           with (_onMouseButton m);
         destruct (_onMouseButton m) eqn:R; [|reflexivity];
         cbn [this window trace];
         change (_onMouseButton (with_lastTouchPos v m))
           with (_onMouseButton m);
         rewrite R; reflexivity).
  reflexivity.
Qed.

Lemma fire_timer_forget v tm w :
  _doubleClickTimer (this w) = null ->
  fire_timer tm (forget v w) = forget v (fire_timer tm w) /\
  _doubleClickTimer (this (fire_timer tm w)) = null.
Proof.
  intros D. split.
  - unfold fire_timer.
    match goal with
    | |- turn ?m ?wa = forget v (turn ?m ?wb) =>
        change wa with (forget v wb); apply turn_forget
    end.
    destruct (timer_callback tm); cbn [fire];
      [reflexivity | apply generateWheelStepX_forget
       | apply generateWheelStepY_forget].
  - unfold fire_timer.
    match goal with
    | |- context [turn ?m ?w0] => destruct (turn_this_window m w0) as [-> _]
    end.
    change (owner (this (world_of (fire (timer_callback tm)
              (mkWorld (this w)
                 (with_now (Z.max (now (window w)) (timer_due tm))
                    (with_pending (cancel (timer_id tm) (pending (window w)))
                       (window w)))
                 (trace w))))) ResetDoubleClickTimer = null).
    rewrite fire_owner. destruct (timer_callback tm); try reflexivity;
      exact D.
Qed.

Lemma run_timers_forget v fuel until w :
  _doubleClickTimer (this w) = null ->
  run_timers fuel until (forget v w) = forget v (run_timers fuel until w) /\
  _doubleClickTimer (this (run_timers fuel until w)) = null.
Proof.
  revert w. induction fuel as [|fuel IH]; intros w D; [split; auto|].
  rewrite !run_timers_unfold. cbn [forget window].
  destruct (next_due until (pending (window w))) as [tm|]; [|split; auto].
  destruct (fire_timer_forget v tm w D) as [E D'].
  rewrite E. now apply IH.
Qed.

Lemma turn_stale v m w :
  m (forget v w) = m w \/
  (m (forget v w) = outcome_map (forget v) (m w) /\
   _doubleClickTimer (this (world_of (m w))) = null) ->
  same_but_stale v (turn m w) (turn m (forget v w)).
Proof.
  intros [E|[E D]]; unfold turn; rewrite E; [now left|].
  right. destruct (m w); cbn in *; split; try exact D; reflexivity.
Qed.

Lemma step_same_but_stale v i w1 w2 :
  same_but_stale v w1 w2 -> same_but_stale v (step i w1) (step i w2).
Proof.
  intros [->|[D ->]]; [now left|].
  destruct i; cbn [step].
  - apply turn_stale. destruct h; cbn [_eventHandlers].
    + rewrite !handleMouseDown_capture.
      destruct (String.eqb (type e) "mousedown").
      * exact (handleMouseButton_forget v e 1
                 (record_effect (SetCapture (_target (this w1))) w1) D).
      * exact (handleMouseButton_forget v e 1 w1 D).
    + exact (handleMouseButton_forget v e 0 w1 D).
    + right. split; [apply handleMouseMove_forget|].
      destruct (passive_frame_move e w1) as [l ->]. exact D.
    + right. split; [apply handleMouseWheel_forget|].
      destruct (_focused (this w1)) eqn:F;
        [destruct (_onMouseButton (this w1)) eqn:R|].
      * destruct (handleMouseWheel_touch e w1 F R) as [-> _]. exact D.
      * unfold _handleMouseWheel, bind, get_this. rewrite F, R. exact D.
      * unfold _handleMouseWheel, bind, get_this. rewrite F. exact D.
    + right. split; [apply handleMouseDisable_forget|].
      destruct (passive_frame_disable e w1) as [l ->]. exact D.
  - right. unfold elapse. cbn [forget window].
    destruct (run_timers_forget v (List.length (pending (window w1)))
                (now (window w1) + Z.max 0 dt) w1 D) as [E D'].
    rewrite E. split; [exact D' | reflexivity].
  - apply turn_stale. right. rewrite !grab_closed.
    split; [reflexivity | exact D].
  - apply turn_stale. right. rewrite !ungrab_closed.
    split; [reflexivity | exact D].
  - right. split; [exact D | reflexivity].
  - right. split; [exact D | reflexivity].
  - right. split; [exact D | reflexivity].
  - right. split; [exact D | reflexivity].
Qed.

Lemma run_same_but_stale v inputs : forall w1 w2,
  same_but_stale v w1 w2 ->
  same_but_stale v (run inputs w1) (run inputs w2).
Proof.
  induction inputs as [|i inputs IH]; intros w1 w2 H; [exact H|].
  rewrite !run_cons. apply IH. now apply step_same_but_stale.
Qed.

(** C6, as amended: when the double-tap expiry timer fires, the touch
    merger goes back to Idle: the timer field is reset to null.  The
    recorded last position is not cleared, it keeps its value; but from
    then on it is dead: whatever it holds, every later run emits the
    same effects, arms and fires the same timers and ends in the same
    fields (but for that position itself, until the next touch press
    overwrites it), so no later press can snap to a position recorded
    before the expiry. *)
Theorem double_tap_expiry (w : World) (v : option Pos) (inputs : list Input) :
  let w' := mkWorld (with_doubleClickTimer null (this w)) (window w) (trace w) in
  fire ResetDoubleClickTimer w = Normal tt w' /\
  _doubleClickTimer (this w') = null /\
  _lastTouchPos (this w') = _lastTouchPos (this w) /\
  let w1 := run inputs w' in
  let w2 := run inputs (forget v w') in
  trace w2 = trace w1 /\
  window w2 = window w1 /\
  (this w2 = this w1 \/ this w2 = with_lastTouchPos v (this w1)).
Proof.
  intros w'. split; [reflexivity|]. split; [reflexivity|].
  split; [reflexivity|]. intros w1 w2.
  destruct (run_same_but_stale v inputs w' (forget v w')) as [E|[_ E]].
  - right. split; reflexivity.
  - fold w1 w2 in E. rewrite E. repeat split. now left.
  - fold w1 w2 in E. rewrite E. repeat split. now right.
Qed.
